(** * csv-backtester: the backtest execution core

    A shallow embedding of [models.py], [strategies.py] and [engine.py].

    Python values are rendered as follows.
    - [float] is IEEE 754 binary64: Rocq's primitive [float], with its
      operations and comparisons (a comparison with NaN is [false]).
    - [int] is unbounded: [Z].  An [int] that meets a [float] in [*] or [/] is
      first converted, rounding to nearest-even; the conversion raises
      [OverflowError] when the result would not be finite.
    - [str] is [string]; a [dict] whose iteration order is observed is an
      association list in insertion order, one whose order is not observed is
      a [gmap].
    - A [datetime] is its wall-clock reading with the offset of its time
      zone, if it has one; two of them are ordered only when both have an
      offset or neither has.
    - An f-string that interpolates an [int] converts it to decimal digits,
      which raises [ValueError] beyond the limit of the interpreter; a
      [float] or a [str] always formats.
    - Exceptions are values of [exn]; a computation that may raise returns a
      [result].  Methods of the engine live in a state-and-exception monad
      over the engine record: a mutation made before a [raise] stays made.
    - [Order] objects are mutable and shared between [order_history] and the
      code that executes them: they live in a store and are passed around by
      reference.  Strategy objects are mutable too, and the same object may
      be registered with an engine more than once: they live in a heap, and
      [strategies] is a list of references into it. *)

From Stdlib Require Import ZArith Ascii String Floats Uint63.
From stdpp Require Import base strings list gmap.

Local Open Scope Z_scope.

(** ** Exceptions and results *)

(** The three messages of [ExecutionError], kept with the values their
    f-strings interpolate. *)
Inductive exec_failure : Type :=
  | SimulatedFailure (side : string) (qty : Z) (symbol : string) (px : float)
  | InsufficientCash (qty : Z) (symbol : string) (px : float)
  | InsufficientPosition (qty : Z) (symbol : string).

(** [OrderError] and [ExecutionError] are the two classes of [models.py];
    the others are the built-in exceptions the operations of the program can
    raise, and [Exception] stands for any other subclass of [Exception] a
    strategy may raise, with the message [str] makes of it. *)
Inductive exn : Type :=
  | OrderError (msg : string)
  | ExecutionError (why : exec_failure)
  | OverflowError
  | ZeroDivisionError
  | IndexError
  | KeyError
  | ValueError (msg : string)
  | TypeError
  | Exception (msg : string).

Inductive result (A : Type) : Type :=
  | Ok (a : A)
  | Raise (e : exn).
Arguments Ok {A} a.
Arguments Raise {A} e.

Definition is_Ok {A} (r : result A) : bool :=
  match r with Ok _ => true | Raise _ => false end.

Definition rbind {A B} (r : result A) (k : A → result B) : result B :=
  match r with Ok a => k a | Raise e => Raise e end.

(** ** Python arithmetic on [int] and [float] *)

Module Py.

(** The least magnitude of an [int] whose nearest binary64 value is not
    finite: halfway between the largest finite value and [2^1024]. *)
Definition FLOAT_INT_LIMIT : Z := 2 ^ 1024 - 2 ^ 970.

(** Nearest-even rounding of an integer to binary64. *)
Definition round_int (z : Z) : float :=
  SF2Prim (binary_normalize prec emax z 0 false).

(** [float(z)], also the implicit conversion of an [int] operand. *)
Definition float_of_int (z : Z) : result float :=
  if FLOAT_INT_LIMIT <=? Z.abs z then Raise OverflowError
  else Ok (round_int z).

(** [q * x] and [x * q] for [q : int], [x : float]. *)
Definition mul_int_float (q : Z) (x : float) : result float :=
  rbind (float_of_int q) (λ f, Ok (f * x)%float).

Definition mul_float_int (x : float) (q : Z) : result float :=
  rbind (float_of_int q) (λ f, Ok (x * f)%float).

(** [x / n] for [x : float], [n : int].  [float(n)] is zero exactly when
    [n] is. *)
Definition div_float_int (x : float) (n : Z) : result float :=
  rbind (float_of_int n) (λ f,
    if n =? 0 then Raise ZeroDivisionError else Ok (x / f)%float).

(** [x / y] on floats: Python raises where IEEE 754 returns an infinity
    or a NaN. *)
Definition div_float (x y : float) : result float :=
  if (y =? 0)%float then Raise ZeroDivisionError else Ok (x / y)%float.

(** The most decimal digits an [int] may have when it is converted to a
    [str]: [sys.get_int_max_str_digits()], 4300 unless it was changed
    (CPython 3.11 and later). *)
Definition INT_MAX_STR_DIGITS : Z := 4300.

(** [f"{z}"] for [z : int]: the conversion to decimal digits, of which only
    the failure matters here.  An [int] has more than 4300 digits exactly
    when its magnitude is at least [10^4300]. *)
Definition format_int (z : Z) : result unit :=
  if 10 ^ INT_MAX_STR_DIGITS <=? Z.abs z
  then Raise (ValueError "Exceeds the limit (4300 digits) for integer string conversion")
  else Ok tt.

(** [v != v], the NaN test of [strategies.py]. *)
Definition ne_self (v : float) : bool := negb (v =? v)%float.

(** [str.upper] on the characters that matter here: the ASCII letters.  No
    other character has an upper case made of ['B'], ['U'] or ['Y'] alone,
    so the comparison of [action.upper()] with ["BUY"] is not affected by
    leaving the others in place. *)
Definition upper_ascii (c : ascii) : ascii :=
  let n := nat_of_ascii c in
  if ((97 <=? n) && (n <=? 122))%nat then ascii_of_nat (n - 32) else c.

Fixpoint upper (s : string) : string :=
  match s with
  | EmptyString => EmptyString
  | String c r => String (upper_ascii c) (upper r)
  end.

End Py.

(** ** [models.py] *)

(** [datetime.datetime]: the reading of the wall clock, in microseconds,
    and [utcoffset()], in microseconds too: [None] for a naive value, the
    offset of the time zone for an aware one.  The time zone of an aware
    value is one of a fixed offset, a [datetime.timezone]: that is what
    [datetime.fromisoformat], with which [load_market_data] reads the
    timestamps, makes of an offset in the string. *)
Module datetime.
Record t : Type := mk { wall : Z; utcoffset : option Z }.

(** A naive value, as [datetime.fromisoformat] makes of a string without
    offset. *)
Definition naive (wall : Z) : t := mk wall None.

Definition aware (d : t) : bool := bool_decide (is_Some (utcoffset d)).

(** The place on the time line: the reading itself for a naive value, the
    reading in UTC for an aware one. *)
Definition instant (d : t) : Z := wall d - default 0 (utcoffset d).


(** [a < b].  Two naive values compare by their readings and two aware ones
    by their readings in UTC (which, for two values of one fixed offset, is
    by their readings); a naive and an aware one do not compare:
    [TypeError: can't compare offset-naive and offset-aware datetimes]. *)
Definition lt (a b : t) : result bool :=
  if bool_decide (aware a = aware b) then Ok (instant a <? instant b)
  else Raise TypeError.
End datetime.

Module MarketDataPoint.
Record t : Type := mk { timestamp : datetime.t; symbol : string; price : float }.
End MarketDataPoint.

Inductive Status : Type := NEW | FILLED | REJECTED | ERROR.

Global Instance Status_eq_dec : EqDecision Status.
Proof. solve_decision. Defined.

Module Order.
Record t : Type := mk {
  symbol : string;
  quantity : Z;
  price : float;
  side : string;
  status : Status
}.

Definition set_status (s : Status) (o : t) : t :=
  mk (symbol o) (quantity o) (price o) (side o) s.

(** [Order.validate]. *)
Definition validate (o : t) : result unit :=
  if quantity o <=? 0 then Raise (OrderError "Quantity must be positive.")
  else if (price o <=? 0)%float then Raise (OrderError "Price must be positive.")
  else if negb (bool_decide (side o ∈ ["BUY"; "SELL"]))
       then Raise (OrderError "Side must be 'BUY' or 'SELL'.")
  else Ok tt.
End Order.

(** [(action, symbol, qty, price)] *)
Definition Signal : Type := string * string * Z * float.

(** ** [strategies.py] *)

(** The abstract base class: one method, which may update the private state
    of the strategy and may raise. *)
Class Strategy (S : Type) : Type :=
  generate_signals : S → MarketDataPoint.t → result (list Signal) * S.

(** [collections.deque(maxlen=n)]: appending to a full deque evicts its
    oldest item. *)
Module deque.
Record t : Type := mk { maxlen : Z; items : list float }.

Definition new (n : Z) : t := mk n [].

Definition len (d : t) : Z := Z.of_nat (length (items d)).

Definition append (x : float) (d : t) : t :=
  let l := items d ++ [x] in
  mk (maxlen d) (drop (length l - Z.to_nat (maxlen d)) l).
End deque.

Module PyList.
(** [l[-n:]]: the last [n] items for a positive [n] (all of them when there are
    fewer); [l[0:]] for [n = 0]; [l[|n|:]] for a negative [n]. *)
Definition slice_last {A} (n : Z) (l : list A) : list A :=
  if 0 <? n then drop (length l - Z.to_nat n) l
  else drop (Z.to_nat (- n)) l.

(** The built-in [sum] as a left-to-right accumulation from [0]. *)
Definition sum_left (l : list float) : float :=
  fold_left PrimFloat.add l 0%float.
End PyList.

(** The largest length of a container, which [deque(maxlen=...)] checks
    (64-bit CPython). *)
Definition PY_SSIZE_T_MAX : Z := 2 ^ 63 - 1.

Module MovingAverageCrossover.
Record t : Type := mk {
  symbol : string;
  _fast : Z;
  _slow : Z;
  _qty : Z;
  _prices : deque.t;
  _prev_diff : option float
}.

Definition __init__ (symbol : string) (fast slow qty : Z) : result t :=
  if negb ((0 <? fast) && (0 <? slow) && (fast <? slow))
  then Raise (ValueError "Invalid windows: require integers with 0 < fast < slow.")
  else if PY_SSIZE_T_MAX <? slow then Raise OverflowError
  else Ok (mk symbol fast slow qty (deque.new slow) None).

Section WithSum.
(** The built-in [sum] on a list of floats.  Its rounding differs between
    versions of CPython (a plain accumulation up to 3.11, a compensated one
    from 3.12 on); nothing below depends on which one it is. *)
Variable fsum : list float → float.

Definition _sma (self : t) (n : Z) : result float :=
  if deque.len (_prices self) <? n then Ok nan
  else Py.div_float_int (fsum (PyList.slice_last n (deque.items (_prices self)))) n.

(** The signal of a crossing, from the difference stored by the previous
    call and the one just computed. *)
Definition cross (self : t) (diff px : float) : list Signal :=
  match _prev_diff self with
  | None => []
  | Some prev =>
      if ((prev <=? 0) && (0 <? diff))%float
      then [("BUY", symbol self, _qty self, px)]
      else if ((0 <=? prev) && (diff <? 0))%float
      then [("SELL", symbol self, _qty self, px)]
      else []
  end.

Definition generate_signals (self : t) (tick : MarketDataPoint.t)
  : result (list Signal) * t :=
  if negb (String.eqb (MarketDataPoint.symbol tick) (symbol self)) then (Ok [], self)
  else
    let self := mk (symbol self) (_fast self) (_slow self) (_qty self)
                   (deque.append (MarketDataPoint.price tick) (_prices self))
                   (_prev_diff self) in
    if deque.len (_prices self) <? _slow self then (Ok [], self)
    else
      match _sma self (_fast self) with
      | Raise e => (Raise e, self)
      | Ok fast_ma =>
        match _sma self (_slow self) with
        | Raise e => (Raise e, self)
        | Ok slow_ma =>
            if Py.ne_self fast_ma || Py.ne_self slow_ma then (Ok [], self)
            else
              let diff := (fast_ma - slow_ma)%float in
              let signals := cross self diff (MarketDataPoint.price tick) in
              (Ok signals,
               mk (symbol self) (_fast self) (_slow self) (_qty self)
                  (_prices self) (Some diff))
        end
      end.

(** The class implements [Strategy], for each [sum]. *)
Definition strategy : Strategy t := generate_signals.
End WithSum.
End MovingAverageCrossover.

Module MomentumStrategy.
Record t : Type := mk {
  symbol : string;
  _lb : Z;
  _th : float;
  _qty : Z;
  _prices : deque.t
}.

Definition __init__ (symbol : string) (lookback : Z) (threshold : float) (qty : Z)
  : result t :=
  if negb (0 <? lookback)
  then Raise (ValueError "lookback must be a positive integer.")
  else if negb (0 <=? threshold)%float
  then Raise (ValueError "threshold must be a non-negative number.")
  else if PY_SSIZE_T_MAX <? lookback + 1 then Raise OverflowError
  else Ok (mk symbol lookback threshold qty (deque.new (lookback + 1))).

(** The last three lines of [generate_signals]: the decision on the return. *)
Definition decide_ (self : t) (ret px : float) : list Signal :=
  if (_th self <=? ret)%float then [("BUY", symbol self, _qty self, px)]
  else if (ret <=? - _th self)%float then [("SELL", symbol self, _qty self, px)]
  else [].

Definition generate_signals (self : t) (tick : MarketDataPoint.t)
  : result (list Signal) * t :=
  if negb (String.eqb (MarketDataPoint.symbol tick) (symbol self)) then (Ok [], self)
  else
    let self := mk (symbol self) (_lb self) (_th self) (_qty self)
                   (deque.append (MarketDataPoint.price tick) (_prices self)) in
    if deque.len (_prices self) <=? _lb self then (Ok [], self)
    else
      match deque.items (_prices self) with
      | [] => (Raise IndexError, self)
      | past :: _ =>
          if (past <=? 0)%float then (Ok [], self)
          else
            match Py.div_float (MarketDataPoint.price tick) past with
            | Raise e => (Raise e, self)
            | Ok q => (Ok (decide_ self (q - 1)%float (MarketDataPoint.price tick)), self)
            end
      end.

#[global] Instance strategy : Strategy t := generate_signals.
End MomentumStrategy.

(** A strategy object: an object of some class that implements [Strategy],
    with its current private state. *)
Record AnyStrategy : Type := Pack {
  carrier : Type;
  carrier_ops : Strategy carrier;
  self_ : carrier
}.
Arguments Pack {carrier carrier_ops} self_.

(** ** [engine.py] *)

(** A [dict] keyed by symbol whose iteration order (the order of first
    insertion) is observed. *)
Module OrderedDict.
Fixpoint get {V} (k : string) (d : list (string * V)) : option V :=
  match d with
  | [] => None
  | (k', v) :: r => if decide (k = k') then Some v else get k r
  end.

(** [d[k] = v]: in place for a key that is there, at the end for a new one. *)
Fixpoint set {V} (k : string) (v : V) (d : list (string * V)) : list (string * V) :=
  match d with
  | [] => [(k, v)]
  | (k', v') :: r => if decide (k = k') then (k, v) :: r else (k', v') :: set k v r
  end.

Definition keys {V} (d : list (string * V)) : list string := d.*1.
End OrderedDict.

(** The inner dict of [positions]: [{"quantity": int, "avg_price": float}]. *)
Module Position.
Record t : Type := mk { quantity : Z; avg_price : float }.
End Position.

(** The lines of [errors], each kept with the values its f-string
    interpolates: [f"StrategyError: {e} at {tick.timestamp}"],
    [f"OrderError: {oe}"] and [f"ExecutionError: {xe}"]. *)
Inductive error_line : Type :=
  | StrategyErrorLine (e : exn) (at_ : datetime.t)
  | OrderErrorLine (msg : string)
  | ExecutionErrorLine (why : exec_failure).

Module BacktestEngine.

(** The attributes of the engine, then what it reaches outside itself:
    the store of [Order] objects, in order of allocation, the module-level
    random generator, as the sequence of values [random.random()] is going to
    return and the number of them already drawn, and the heap of the strategy
    objects.  [strategies] is the list the constructor was given: references
    into the heap, in which one object may occur more than once. *)
Record t : Type := mk {
  strategies : list nat;
  initial_cash : float;
  fail_prob : float;
  cash : float;
  positions : list (string * Position.t);
  _last_prices : gmap string float;
  order_history : list nat;
  errors : list error_line;
  equity_curve : list (datetime.t * float);
  store : list Order.t;
  random_values : nat → float;
  random_drawn : nat;
  objects : list AnyStrategy
}.

Definition __init__ (strategies : list nat) (initial_cash fail_prob : float)
    (random_values : nat → float) (objects : list AnyStrategy) : t :=
  mk strategies initial_cash fail_prob initial_cash [] ∅ [] [] [] [] random_values 0
     objects.

(** *** Field updates *)

Definition with_cash (x : float) (s : t) : t :=
  mk (strategies s) (initial_cash s) (fail_prob s) x (positions s) (_last_prices s)
     (order_history s) (errors s) (equity_curve s) (store s) (random_values s)
     (random_drawn s) (objects s).

Definition with_positions (x : list (string * Position.t)) (s : t) : t :=
  mk (strategies s) (initial_cash s) (fail_prob s) (cash s) x (_last_prices s)
     (order_history s) (errors s) (equity_curve s) (store s) (random_values s)
     (random_drawn s) (objects s).

Definition with_last_prices (x : gmap string float) (s : t) : t :=
  mk (strategies s) (initial_cash s) (fail_prob s) (cash s) (positions s) x
     (order_history s) (errors s) (equity_curve s) (store s) (random_values s)
     (random_drawn s) (objects s).

Definition with_order_history (x : list nat) (s : t) : t :=
  mk (strategies s) (initial_cash s) (fail_prob s) (cash s) (positions s)
     (_last_prices s) x (errors s) (equity_curve s) (store s) (random_values s)
     (random_drawn s) (objects s).

Definition with_errors (x : list error_line) (s : t) : t :=
  mk (strategies s) (initial_cash s) (fail_prob s) (cash s) (positions s)
     (_last_prices s) (order_history s) x (equity_curve s) (store s)
     (random_values s) (random_drawn s) (objects s).

Definition with_equity_curve (x : list (datetime.t * float)) (s : t) : t :=
  mk (strategies s) (initial_cash s) (fail_prob s) (cash s) (positions s)
     (_last_prices s) (order_history s) (errors s) x (store s) (random_values s)
     (random_drawn s) (objects s).

Definition with_store (x : list Order.t) (s : t) : t :=
  mk (strategies s) (initial_cash s) (fail_prob s) (cash s) (positions s)
     (_last_prices s) (order_history s) (errors s) (equity_curve s) x
     (random_values s) (random_drawn s) (objects s).

Definition with_random_drawn (x : nat) (s : t) : t :=
  mk (strategies s) (initial_cash s) (fail_prob s) (cash s) (positions s)
     (_last_prices s) (order_history s) (errors s) (equity_curve s) (store s)
     (random_values s) x (objects s).

Definition with_objects (x : list AnyStrategy) (s : t) : t :=
  mk (strategies s) (initial_cash s) (fail_prob s) (cash s) (positions s)
     (_last_prices s) (order_history s) (errors s) (equity_curve s) (store s)
     (random_values s) (random_drawn s) x.

(** *** The state-and-exception monad of the methods *)

Definition M (A : Type) : Type := t → result A * t.

Definition ret {A} (a : A) : M A := λ s, (Ok a, s).

Definition bind {A B} (m : M A) (k : A → M B) : M B :=
  λ s, match m s with
       | (Ok a, s') => k a s'
       | (Raise e, s') => (Raise e, s')
       end.

Definition raise {A} (e : exn) : M A := λ s, (Raise e, s).

Definition lift {A} (r : result A) : M A := λ s, (r, s).

Definition gets {A} (f : t → A) : M A := λ s, (Ok (f s), s).

Definition modify (f : t → t) : M unit := λ s, (Ok tt, f s).

(** [try: m except ...: h]: [h] tells which exceptions are caught, and
    what runs then. *)
Definition try_except {A} (m : M A) (h : exn → option (M A)) : M A :=
  λ s, match m s with
       | (Raise e, s') =>
           match h e with
           | Some k => k s'
           | None => (Raise e, s')
           end
       | r => r
       end.

Fixpoint for_each {A} (body : A → M unit) (l : list A) : M unit :=
  match l with
  | [] => ret tt
  | x :: r => bind (body x) (λ _, for_each body r)
  end.

#[global] Instance M_ret : MRet M := @ret.
#[global] Instance M_bind : MBind M := λ A B k m, bind m k.

(** *** The world outside the engine *)

(** [random.random()]. *)
Definition drawn (s : t) : t := with_random_drawn (S (random_drawn s)) s.

Definition random : M float :=
  λ s, (Ok (random_values s (random_drawn s)), drawn s).

(** [Order(...)]: a new object in the store. *)
Definition new_order (o : Order.t) : M nat :=
  λ s, (Ok (length (store s)), with_store (store s ++ [o]) s).

(** Reading an object through a reference.  A reference obtained from
    [new_order] is never dangling. *)
Definition deref (r : nat) : M Order.t :=
  λ s, match store s !! r with
       | Some o => (Ok o, s)
       | None => (Raise (Exception "dangling reference"), s)
       end.

(** [order.status = v]. *)
Definition marked (r : nat) (v : Status) (s : t) : t :=
  with_store (alter (Order.set_status v) r (store s)) s.

Definition set_status (r : nat) (v : Status) : M unit := modify (marked r v).

(** *** Helpers *)

Definition ensured (symbol : string) (s : t) : t :=
  match OrderedDict.get symbol (positions s) with
  | None => with_positions (OrderedDict.set symbol (Position.mk 0 0) (positions s)) s
  | Some _ => s
  end.

Definition _ensure_symbol (symbol : string) : M unit := modify (ensured symbol).

(** The loop of [_equity]: [eq += qty * price] over [positions.items()]. *)
Fixpoint _equity_loop (last : gmap string float) (items : list (string * Position.t))
    (eq : float) : result float :=
  match items with
  | [] => Ok eq
  | (sym, pos) :: r =>
      let qty := Position.quantity pos in
      let price := default 0%float (last !! sym) in
      rbind (Py.mul_int_float qty price) (λ v, _equity_loop last r (eq + v)%float)
  end.

Definition _equity : M float :=
  λ s, (_equity_loop (_last_prices s) (positions s) (cash s), s).

Definition _create_order (action symbol : string) (qty : Z) (price : float) : M nat :=
  let side := if String.eqb (Py.upper action) "BUY" then "BUY" else "SELL" in
  order ← new_order (Order.mk symbol qty price side NEW);
  o ← deref order;
  lift (Order.validate o);;
  mret order.

(** The messages of the three [ExecutionError]s are f-strings of the
    quantity: each is formatted after the status was assigned and before the
    exception is raised. *)
Definition _execute_order (order : nat) : M unit :=
  o ← deref order;
  r ← random;
  p ← gets fail_prob;
  if (r <? p)%float then
    set_status order ERROR;;
    lift (Py.format_int (Order.quantity o));;
    raise (ExecutionError (SimulatedFailure (Order.side o) (Order.quantity o)
                             (Order.symbol o) (Order.price o)))
  else
    _ensure_symbol (Order.symbol o);;
    positions ← gets positions;
    match OrderedDict.get (Order.symbol o) positions with
    | None => raise KeyError
    | Some pos =>
      cash ← gets cash;
      let qty := Order.quantity o in
      let px := Order.price o in
      if String.eqb (Order.side o) "BUY" then
        cost ← lift (Py.mul_int_float qty px);
        if (cash <? cost)%float then
          set_status order REJECTED;;
          lift (Py.format_int qty);;
          raise (ExecutionError (InsufficientCash qty (Order.symbol o) px))
        else
          basis ← lift (Py.mul_float_int (Position.avg_price pos)
                          (Position.quantity pos));
          let total_cost := (basis + cost)%float in
          let total_qty := Position.quantity pos + qty in
          avg ← (if total_qty =? 0 then mret 0%float
                 else lift (Py.div_float_int total_cost total_qty));
          modify (λ s, with_positions
            (OrderedDict.set (Order.symbol o) (Position.mk total_qty avg)
               (BacktestEngine.positions s)) s);;
          modify (with_cash (cash - cost)%float);;
          set_status order FILLED
      else
        if Position.quantity pos <? qty then
          set_status order REJECTED;;
          lift (Py.format_int qty);;
          raise (ExecutionError (InsufficientPosition qty (Order.symbol o)))
        else
          proceeds ← lift (Py.mul_int_float qty px);
          modify (with_cash (cash + proceeds)%float);;
          let left := Position.quantity pos - qty in
          modify (λ s, with_positions
            (OrderedDict.set (Order.symbol o)
               (Position.mk left
                  (if left =? 0 then 0%float else Position.avg_price pos))
               (BacktestEngine.positions s)) s);;
          set_status order FILLED
    end.

(** *** The main loop *)

(** [sorted(ticks, key=lambda t: t.timestamp)]: the stable sort, which is
    unique; here by insertion from the right, each tick going before the
    first one that is not earlier.  The sort compares the keys with [<], and
    stops with the exception of the first comparison that raises. *)
Fixpoint insert_tick (t : MarketDataPoint.t) (l : list MarketDataPoint.t)
  : result (list MarketDataPoint.t) :=
  match l with
  | [] => Ok [t]
  | x :: r =>
      rbind (datetime.lt (MarketDataPoint.timestamp x) (MarketDataPoint.timestamp t))
        (λ earlier : bool,
           if earlier then rbind (insert_tick t r) (λ r', Ok (x :: r'))
           else Ok (t :: l))
  end.

Fixpoint sorted (ticks : list MarketDataPoint.t) : result (list MarketDataPoint.t) :=
  match ticks with
  | [] => Ok []
  | t :: rest => rbind (sorted rest) (insert_tick t)
  end.

(** [strat.generate_signals(tick)] through a reference of [self.strategies]:
    what the call returns or raises, and the heap with the object as the call
    left it.  A reference of [self.strategies] is never dangling. *)
Definition call (tick : MarketDataPoint.t) (r : nat) (objs : list AnyStrategy)
  : result (list Signal) * list AnyStrategy :=
  match objs !! r with
  | Some (Pack strat) =>
      let '(out, strat') := generate_signals strat tick in
      (out, <[r := Pack strat']> objs)
  | None => (Raise (Exception "dangling reference"), objs)
  end.

(** The loop over [self.strategies] for one tick: the heap after the calls,
    the signals gathered, and the lines the [except] clause adds to
    [errors]. *)
Fixpoint poll (tick : MarketDataPoint.t) (strats : list nat) (objs : list AnyStrategy)
  : list AnyStrategy * list Signal * list error_line :=
  match strats with
  | [] => (objs, [], [])
  | r :: rest =>
      let '(out, objs) := call tick r objs in
      let '(objs', signals, errs) := poll tick rest objs in
      match out with
      | Ok l => (objs', l ++ signals, errs)
      | Raise e =>
          (objs', signals,
           StrategyErrorLine e (MarketDataPoint.timestamp tick) :: errs)
      end
  end.

Definition strategy_signals (tick : MarketDataPoint.t) : M (list Signal) :=
  λ s, let '(objs, signals, errs) := poll tick (strategies s) (objects s) in
       (Ok signals, with_errors (errors s ++ errs) (with_objects objs s)).

Definition log_error (l : error_line) : M unit :=
  modify (λ s, with_errors (errors s ++ [l]) s).

(** The two [except] clauses of the loop over signals. *)
Definition order_handlers (e : exn) : option (M unit) :=
  match e with
  | OrderError msg => Some (log_error (OrderErrorLine msg))
  | ExecutionError why => Some (log_error (ExecutionErrorLine why))
  | _ => None
  end.

(** The body of the loop over signals. *)
Definition process_signal (signal : Signal) : M unit :=
  let '(action, symbol, qty, price) := signal in
  try_except
    (order ← _create_order action symbol qty price;
     modify (λ s, with_order_history (order_history s ++ [order]) s);;
     _execute_order order)
    order_handlers.

(** The body of the loop over ticks. *)
Definition process_tick (tick : MarketDataPoint.t) : M unit :=
  modify (λ s, with_last_prices
    (<[MarketDataPoint.symbol tick := MarketDataPoint.price tick]> (_last_prices s)) s);;
  signals ← strategy_signals tick;
  for_each process_signal signals;;
  eq ← _equity;
  modify (λ s, with_equity_curve
    (equity_curve s ++ [(MarketDataPoint.timestamp tick, eq)]) s).

Definition process (ticks : list MarketDataPoint.t) : M unit :=
  ticks ← lift (sorted ticks);
  for_each process_tick ticks.

(** The orders of [order_history], read through their references. *)
Definition history (s : t) : list Order.t :=
  omap (λ r, store s !! r) (order_history s).

End BacktestEngine.

(** * What the claims speak of

    Definitions that are not methods of the program: the outcomes of a
    call, the states it goes through, and the behaviour of the strategies
    and of the engine in the words of the specification. *)

Import BacktestEngine.


(** ** The outcomes of an execution

    [_execute_order] read as a relation between the state before, the order
    and what the call leaves behind: one constructor for each way through the
    method. *)

(** The position of a symbol as [_execute_order] sees it after
    [_ensure_symbol]: the recorded one, or the fresh one. *)
Definition held (symbol : string) (s : t) : Position.t :=
  default (Position.mk 0 0) (OrderedDict.get symbol (positions s)).

(** The weighted-average cost of the BUY branch. *)
Definition average_cost (pos : Position.t) (qty : Z) (cost : float) : result float :=
  rbind (Py.mul_float_int (Position.avg_price pos) (Position.quantity pos)) (λ value,
    if Position.quantity pos + qty =? 0 then Ok 0%float
    else Py.div_float_int (value + cost) (Position.quantity pos + qty)).

(** The ledger after a filled BUY and after a filled SELL. *)
Definition bought (o : Order.t) (cost avg : float) (s : t) : t :=
  with_cash (cash s - cost)%float
    (with_positions
       (OrderedDict.set (Order.symbol o)
          (Position.mk (Position.quantity (held (Order.symbol o) s) + Order.quantity o) avg)
          (positions s)) s).

Definition sold (o : Order.t) (proceeds : float) (s : t) : t :=
  let pos := held (Order.symbol o) s in
  let left := Position.quantity pos - Order.quantity o in
  with_positions
    (OrderedDict.set (Order.symbol o)
       (Position.mk left (if left =? 0 then 0%float else Position.avg_price pos))
       (positions s))
    (with_cash (cash s + proceeds)%float s).

Inductive executes (s : t) (order : nat) (o : Order.t) : result unit → t → Prop :=
  | exec_simulated :
      (random_values s (random_drawn s) <? fail_prob s)%float = true →
      Py.format_int (Order.quantity o) = Ok tt →
      executes s order o
        (Raise (ExecutionError (SimulatedFailure (Order.side o) (Order.quantity o)
                                  (Order.symbol o) (Order.price o))))
        (marked order ERROR (drawn s))
  | exec_buy_overflow e :
      (random_values s (random_drawn s) <? fail_prob s)%float = false →
      Order.side o = "BUY" →
      Py.mul_int_float (Order.quantity o) (Order.price o) = Raise e →
      e = OverflowError →
      executes s order o (Raise e) (ensured (Order.symbol o) (drawn s))
  | exec_buy_rejected cost :
      (random_values s (random_drawn s) <? fail_prob s)%float = false →
      Order.side o = "BUY" →
      Py.mul_int_float (Order.quantity o) (Order.price o) = Ok cost →
      (cash s <? cost)%float = true →
      executes s order o
        (Raise (ExecutionError (InsufficientCash (Order.quantity o) (Order.symbol o)
                                  (Order.price o))))
        (marked order REJECTED (ensured (Order.symbol o) (drawn s)))
  | exec_buy_average_overflow cost e :
      (random_values s (random_drawn s) <? fail_prob s)%float = false →
      Order.side o = "BUY" →
      Py.mul_int_float (Order.quantity o) (Order.price o) = Ok cost →
      (cash s <? cost)%float = false →
      average_cost (held (Order.symbol o) s) (Order.quantity o) cost = Raise e →
      e = OverflowError →
      executes s order o (Raise e) (ensured (Order.symbol o) (drawn s))
  | exec_buy_filled cost avg :
      (random_values s (random_drawn s) <? fail_prob s)%float = false →
      Order.side o = "BUY" →
      Py.mul_int_float (Order.quantity o) (Order.price o) = Ok cost →
      (cash s <? cost)%float = false →
      average_cost (held (Order.symbol o) s) (Order.quantity o) cost = Ok avg →
      executes s order o (Ok tt)
        (marked order FILLED (bought o cost avg (drawn s)))
  | exec_sell_rejected :
      (random_values s (random_drawn s) <? fail_prob s)%float = false →
      Order.side o ≠ "BUY" →
      Position.quantity (held (Order.symbol o) s) < Order.quantity o →
      Py.format_int (Order.quantity o) = Ok tt →
      executes s order o
        (Raise (ExecutionError (InsufficientPosition (Order.quantity o) (Order.symbol o))))
        (marked order REJECTED (ensured (Order.symbol o) (drawn s)))
  | exec_sell_overflow e :
      (random_values s (random_drawn s) <? fail_prob s)%float = false →
      Order.side o ≠ "BUY" →
      Order.quantity o ≤ Position.quantity (held (Order.symbol o) s) →
      Py.mul_int_float (Order.quantity o) (Order.price o) = Raise e →
      e = OverflowError →
      executes s order o (Raise e) (ensured (Order.symbol o) (drawn s))
  | exec_sell_filled proceeds :
      (random_values s (random_drawn s) <? fail_prob s)%float = false →
      Order.side o ≠ "BUY" →
      Order.quantity o ≤ Position.quantity (held (Order.symbol o) s) →
      Py.mul_int_float (Order.quantity o) (Order.price o) = Ok proceeds →
      executes s order o (Ok tt)
        (marked order FILLED (sold o proceeds (drawn s)))
  | exec_simulated_unformatted e :
      (random_values s (random_drawn s) <? fail_prob s)%float = true →
      Py.format_int (Order.quantity o) = Raise e →
      executes s order o (Raise e) (marked order ERROR (drawn s))
  | exec_sell_unformatted e :
      (random_values s (random_drawn s) <? fail_prob s)%float = false →
      Order.side o ≠ "BUY" →
      Position.quantity (held (Order.symbol o) s) < Order.quantity o →
      Py.format_int (Order.quantity o) = Raise e →
      executes s order o (Raise e)
        (marked order REJECTED (ensured (Order.symbol o) (drawn s))).

(** ** The ledger after an execution *)

(** What a failing call leaves of the ledger: the cash, the last prices and
    every recorded position as they were; the positions themselves as they
    were, or with the fresh position of the order's symbol added at the
    end. *)
Definition ledger_kept (o : Order.t) (s s' : t) : Prop :=
  cash s' = cash s ∧ _last_prices s' = _last_prices s ∧
  (∀ symbol pos, OrderedDict.get symbol (positions s) = Some pos →
                 OrderedDict.get symbol (positions s') = Some pos) ∧
  (positions s' = positions s ∨
   (OrderedDict.get (Order.symbol o) (positions s) = None ∧
    positions s' = positions s ++ [(Order.symbol o, Position.mk 0 0)])).

(** What a successful call does to the ledger, branch by branch. *)
Definition fill_applied (o : Order.t) (s s' : t) : Prop :=
  let pos := held (Order.symbol o) s in
  _last_prices s' = _last_prices s ∧
  if decide (Order.side o = "BUY") then
    ∃ cost avg,
      Py.mul_int_float (Order.quantity o) (Order.price o) = Ok cost ∧
      average_cost pos (Order.quantity o) cost = Ok avg ∧
      cash s' = (cash s - cost)%float ∧
      positions s' =
        OrderedDict.set (Order.symbol o)
          (Position.mk (Position.quantity pos + Order.quantity o) avg) (positions s)
  else
    ∃ proceeds,
      Py.mul_int_float (Order.quantity o) (Order.price o) = Ok proceeds ∧
      cash s' = (cash s + proceeds)%float ∧
      positions s' =
        OrderedDict.set (Order.symbol o)
          (Position.mk (Position.quantity pos - Order.quantity o)
             (if Position.quantity pos - Order.quantity o =? 0 then 0%float
              else Position.avg_price pos))
          (positions s).

(** ** Orders made of signals *)

(** The spellings of ["BUY"] up to case. *)
Definition BUY_spellings : list string :=
  ["BUY"; "BUy"; "BuY"; "Buy"; "bUY"; "bUy"; "buY"; "buy"].

(** The side [_create_order] gives to an action, in the words of the
    specification: BUY when the action equals ["BUY"] up to case, SELL for
    every other action. *)
Definition side_of (action : string) : string :=
  if bool_decide (action ∈ BUY_spellings) then "BUY" else "SELL".

(** The order object [_create_order] makes of a signal. *)
Definition order_of (signal : Signal) : Order.t :=
  let '(action, symbol, qty, price) := signal in
  Order.mk symbol qty price (side_of action) NEW.

(** The state after [Order(...)] and after [order_history.append(order)]. *)
Definition created (o : Order.t) (s : t) : t := with_store (store s ++ [o]) s.

Definition recorded (o : Order.t) (s : t) : t :=
  with_order_history (order_history s ++ [length (store s)]) (created o s).

(** The status an order has after [_execute_order] ran from the state [s],
    from what the call returned.  A [ValueError] comes from the message of an
    [ExecutionError] that could not be formatted: the status was assigned
    already, ERROR when the draw was below [fail_prob], REJECTED otherwise.
    Any other exception leaves the status as it was. *)
Definition status_after (s : t) (res : result unit) (o : Order.t) : Status :=
  match res with
  | Ok _ => FILLED
  | Raise (ExecutionError (SimulatedFailure _ _ _ _)) => ERROR
  | Raise (ExecutionError _) => REJECTED
  | Raise (ValueError _) =>
      if (random_values s (random_drawn s) <? fail_prob s)%float then ERROR
      else REJECTED
  | Raise _ => Order.status o
  end.

(** The fields of an order but its status. *)
Definition same_order (o o' : Order.t) : Prop :=
  Order.symbol o' = Order.symbol o ∧ Order.quantity o' = Order.quantity o ∧
  Order.price o' = Order.price o ∧ Order.side o' = Order.side o.

(** ** Relations between states *)

(** What [_execute_order] never touches: everything but the cash, the
    positions, the store and the random generator. *)
Definition same_books (s s' : t) : Prop :=
  strategies s' = strategies s ∧ objects s' = objects s ∧
  initial_cash s' = initial_cash s ∧
  fail_prob s' = fail_prob s ∧ _last_prices s' = _last_prices s ∧
  order_history s' = order_history s ∧ errors s' = errors s ∧
  equity_curve s' = equity_curve s ∧ random_values s' = random_values s.

(** A method keeps a relation [R] between the state it starts in and the
    state it ends in, however it ends. *)
Definition preserved (R : t → t → Prop) {A} (m : M A) : Prop :=
  ∀ s, R s (m s).2.

(** The store only grows: the orders that were there are there unchanged. *)
Definition store_grows (s s' : t) : Prop := store s `prefix_of` store s'.

(** ** Strategies over a sequence of ticks *)

(** The outputs of a strategy fed a sequence of ticks one by one, and the
    strategy at the end. *)
Fixpoint feed {S} {ops : Strategy S} (self : S) (ticks : list MarketDataPoint.t)
  : list (result (list Signal)) * S :=
  match ticks with
  | [] => ([], self)
  | tick :: rest =>
      let '(out, self') := generate_signals self tick in
      let '(outs, final) := feed self' rest in
      (out :: outs, final)
  end.

(** The last [k] items of a list (all of them when there are fewer). *)
Definition lastn {A} (k : nat) (l : list A) : list A := drop (length l - k) l.

(** Momentum in the words of the specification.  [prices] are the prices
    of the ticks of the symbol, in order, and [i] is the index of the current
    one: nothing before [lookback + 1] observations; then, with [past] the
    price [lookback] ticks ago, nothing when [past <= 0], otherwise BUY when
    [price / past - 1 >= threshold], else SELL when it is [<= - threshold],
    else nothing. *)
Definition momentum_signal (symbol : string) (lookback : Z) (threshold : float)
    (qty : Z) (prices : list float) (i : nat) : list Signal :=
  if Z.of_nat i <? lookback then []
  else
    match prices !! (i - Z.to_nat lookback)%nat, prices !! i with
    | Some past, Some price =>
        if (past <=? 0)%float then []
        else
          let ret := (price / past - 1)%float in
          if (threshold <=? ret)%float then [("BUY", symbol, qty, price)]
          else if (ret <=? - threshold)%float then [("SELL", symbol, qty, price)]
          else []
    | _, _ => []
    end.

(** Moving-Average Crossover in the words of the specification.  [prices]
    are the prices of the ticks of the symbol, in order, and [i] is the index
    of the current one. *)
Section CrossoverSpec.
Variable fsum : list float → float.
Variables (symbol : string) (fast slow qty : Z).

(** The simple moving average of the last [n] of the prices seen. *)
Definition sma (n : Z) (seen : list float) : float :=
  (fsum (lastn (Z.to_nat n) seen) / Py.round_int n)%float.

(** The difference of the two averages computed on tick [i]: none while the
    history holds fewer than [slow] observations, and none when an average is
    not a number. *)
Definition mac_diff (prices : list float) (i : nat) : option float :=
  let seen := take (S i) prices in
  if Z.of_nat (S i) <? slow then None
  else if Py.ne_self (sma fast seen) || Py.ne_self (sma slow seen) then None
  else Some (sma fast seen - sma slow seen)%float.

(** The previous difference on tick [i]: the one computed on the latest
    earlier tick on which one was computed. *)
Fixpoint mac_prev (prices : list float) (i : nat) : option float :=
  match i with
  | O => None
  | S j =>
      match mac_diff prices j with
      | Some d => Some d
      | None => mac_prev prices j
      end
  end.

Definition crosses_up (prev diff : float) : bool :=
  ((prev <=? 0) && (0 <? diff))%float.

Definition crosses_down (prev diff : float) : bool :=
  ((0 <=? prev) && (diff <? 0))%float.

Definition mac_signal (prices : list float) (i : nat) : list Signal :=
  match mac_prev prices i, mac_diff prices i, prices !! i with
  | Some prev, Some diff, Some price =>
      if crosses_up prev diff then [("BUY", symbol, qty, price)]
      else if crosses_down prev diff then [("SELL", symbol, qty, price)]
      else []
  | _, _, _ => []
  end.
End CrossoverSpec.

(** ** Signs of floating-point values *)

(** The sign bit of a binary64 value is [sx], or the value is not a number. *)
Definition signed (sx : bool) (x : spec_float) : Prop :=
  match x with
  | S754_nan => True
  | S754_zero s | S754_infinity s | S754_finite s _ _ => s = sx
  end.

(** Not negative: a zero of either sign, a positive value, or not a number. *)
Definition SFnonneg (x : spec_float) : Prop :=
  match x with
  | S754_nan | S754_zero _ => True
  | S754_infinity s | S754_finite s _ _ => s = false
  end.

(** [x < 0] does not hold. *)
Definition nonneg (x : float) : Prop := (x <? 0)%float = false.

(** ** Runs of the engine *)

(** What a strategy object returns on a tick, and the object afterwards. *)
Definition outcome (tick : MarketDataPoint.t) (a : AnyStrategy) : result (list Signal) :=
  let 'Pack strat := a in (generate_signals strat tick).1.

Definition advanced (tick : MarketDataPoint.t) (a : AnyStrategy) : AnyStrategy :=
  let 'Pack strat := a in Pack (generate_signals strat tick).2.

(** What the loop over the strategies makes of what a call returned: the
    signals it contributes, and the line logged if it raised. *)
Definition contributed (out : result (list Signal)) : list Signal :=
  match out with
  | Ok l => l
  | Raise _ => []
  end.

Definition logged (tick : MarketDataPoint.t) (out : result (list Signal))
  : option error_line :=
  match out with
  | Ok _ => None
  | Raise e => Some (StrategyErrorLine e (MarketDataPoint.timestamp tick))
  end.

(** The calls of the loop over the strategies on one tick: what each
    registration returned, in the order of [strategies], every call made on
    the heap as the calls before it left it; and the heap after the last
    one. *)
Fixpoint calls (tick : MarketDataPoint.t) (strats : list nat) (objs : list AnyStrategy)
  : list (result (list Signal)) :=
  match strats with
  | [] => []
  | r :: rest => (call tick r objs).1 :: calls tick rest (call tick r objs).2
  end.

Definition heap_after (tick : MarketDataPoint.t) (strats : list nat)
    (objs : list AnyStrategy) : list AnyStrategy :=
  foldl (λ objs r, (call tick r objs).2) objs strats.

(** The signals of one tick. *)
Definition emitted (tick : MarketDataPoint.t) (strats : list nat)
    (objs : list AnyStrategy) : list Signal :=
  calls tick strats objs ≫= contributed.

(** The signals the registered strategies emit over a sequence of ticks.
    The strategies see the ticks only, so this does not depend on the
    ledger. *)
Fixpoint signals_of_run (strats : list nat) (objs : list AnyStrategy)
    (ticks : list MarketDataPoint.t) : list Signal :=
  match ticks with
  | [] => []
  | tick :: rest =>
      emitted tick strats objs ++ signals_of_run strats (heap_after tick strats objs) rest
  end.


(** Every recorded position holds between 0 and [bound] units. *)
Definition positions_within (bound : Z) (s : t) : Prop :=
  ∀ symbol pos, (symbol, pos) ∈ positions s →
    0 ≤ Position.quantity pos ≤ bound.

(** The equity in the words of the specification: the cash plus, over the
    recorded positions in order, the quantity times the last price of the
    symbol, 0 when it has none. *)
Definition equity_value (s : t) : float :=
  fold_left (λ eq '(symbol, pos),
       (eq + Py.round_int (Position.quantity pos)
             * default 0 (_last_prices s !! symbol))%float)
    (positions s) (cash s).

(** The states the engine is in after each tick of a sequence. *)
Fixpoint states_after (ticks : list MarketDataPoint.t) (s : t) : list t :=
  match ticks with
  | [] => []
  | tick :: rest =>
      let s' := (process_tick tick s).2 in
      s' :: states_after rest s'
  end.

(** The ledger is sound: the cash is not negative, and every recorded
    position has a quantity that is not negative and an average price that is
    not negative, and is 0 when the quantity is. *)
Definition position_sound (pos : Position.t) : Prop :=
  0 ≤ Position.quantity pos ∧ nonneg (Position.avg_price pos) ∧
  (Position.quantity pos = 0 → Position.avg_price pos = 0%float).

Definition ledger_sound (s : t) : Prop :=
  nonneg (cash s) ∧ ∀ symbol pos, (symbol, pos) ∈ positions s → position_sound pos.

(** A step keeps the ledger sound. *)
Definition keeps_sound (s s' : t) : Prop := ledger_sound s → ledger_sound s'.

(** What the processing of a signal never touches. *)
Definition same_run (s s' : t) : Prop :=
  strategies s' = strategies s ∧ objects s' = objects s ∧
  equity_curve s' = equity_curve s ∧ _last_prices s' = _last_prices s.

(** The state in which the loop over the signals of a tick starts. *)
Definition polled (tick : MarketDataPoint.t) (s : t) : t :=
  with_errors (errors s ++ omap (logged tick) (calls tick (strategies s) (objects s)))
    (with_objects (heap_after tick (strategies s) (objects s))
       (with_last_prices
          (<[MarketDataPoint.symbol tick := MarketDataPoint.price tick]> (_last_prices s))
          s)).

(** The ticks of a run have timestamps that compare: all are naive or all
    are aware. *)
Definition comparable (ticks : list MarketDataPoint.t) : Prop :=
  ∀ a b, a ∈ ticks → b ∈ ticks →
    datetime.aware (MarketDataPoint.timestamp a) =
    datetime.aware (MarketDataPoint.timestamp b).

(** The stable sort of ticks whose timestamps compare, by their place on the
    time line. *)
Fixpoint insert_by_instant (t : MarketDataPoint.t) (l : list MarketDataPoint.t)
  : list MarketDataPoint.t :=
  match l with
  | [] => [t]
  | x :: r =>
      if datetime.instant (MarketDataPoint.timestamp t)
           <=? datetime.instant (MarketDataPoint.timestamp x)
      then t :: l
      else x :: insert_by_instant t r
  end.

Definition by_instant (ticks : list MarketDataPoint.t) : list MarketDataPoint.t :=
  foldr insert_by_instant [] ticks.

(** Every quantity asked for by a list of signals can be written in a
    message. *)
Definition printable (signals : list Signal) : Prop :=
  Forall (λ signal : Signal, signal.1.2 < 10 ^ Py.INT_MAX_STR_DIGITS) signals.

#[global] Instance printable_dec signals : Decision (printable signals).
Proof. unfold printable. apply _. Defined.

(** * Concrete runs

    Inputs on which the definitions above are evaluated below. *)

Module Examples.

(** A random generator that returns [0.5] at every draw. *)
Definition half : nat → float := λ _, 0.5%float.

(** An engine with 1000 in cash, no position and no simulated failure, and
    one validated order in the store: BUY 100 AAPL at 50. *)
Definition big_buy : Order.t := Order.mk "AAPL" 100 50 "BUY" NEW.

Definition poor_engine : t :=
  with_order_history [0%nat] (with_store [big_buy] (__init__ [] 1000 0 half [])).

(** [MomentumStrategy("AAPL", lookback=1, threshold=0.0, qty=1)], the
    strategy of the test of the engine. *)
Definition momentum : MomentumStrategy.t :=
  MomentumStrategy.mk "AAPL" 1 0 1 (deque.new 2).

Definition tick (at_ : Z) (price : float) : MarketDataPoint.t :=
  MarketDataPoint.mk (datetime.naive at_) "AAPL" price.

(** The same strategy after a first tick at 100. *)
Definition momentum_seen : MomentumStrategy.t :=
  MomentumStrategy.mk "AAPL" 1 0 1 (deque.mk 2 [100%float]).

Definition three_ticks : list MarketDataPoint.t :=
  [tick 0 100; tick 1 101; tick 2 99].

(** [MovingAverageCrossover("AAPL", fast=1, slow=2, qty=10)]. *)
Definition crossover : MovingAverageCrossover.t :=
  MovingAverageCrossover.mk "AAPL" 1 2 10 (deque.new 2) None.

(** Prices that go down, then up, then down. *)
Definition zigzag : list MarketDataPoint.t :=
  [tick 0 10; tick 1 8; tick 2 12; tick 3 6].

(** An engine with the strategy of the test, 10000 in cash and no simulated
    failure. *)
Definition engine : t := __init__ [0%nat] 10000 0 half [Pack momentum].






(** The same strategy asking for [2^1000] units per signal, with 1000 in
    cash, on prices that start tiny and end large. *)
Definition heavy : MomentumStrategy.t :=
  MomentumStrategy.mk "AAPL" 1 0 (2 ^ 1000) (deque.new 2).

Definition steep_ticks : list MarketDataPoint.t :=
  [tick 0 0x1p-1000; tick 1 0x1p-999; tick 2 0x1p+31; tick 3 0x1p+30;
   tick 4 0x1p+31].

Definition heavy_engine : t := __init__ [0%nat] 1000 0 half [Pack heavy].

End Examples.

(** * [reporting.py] and [main.py]

    [compute_returns] is a pure function of the equity curve; [run_case] is
    modelled without what it sends to the file system (the plot and the
    report), as the value it returns and the context it hands to the report. *)

(** [StronglySorted], for the order of the ticks. *)
From Stdlib Require Import Sorted.

#[global] Instance result_bind : MBind result := λ A B k r, rbind r k.

(** The built-ins [max] and [min] on two floats.  Both keep their first
    argument unless the comparison with the second one holds: [max(a, b)] is
    [b] when [b > a], and [min(a, b)] is [b] when [b < a]. *)
Module Builtins.
Definition max (a b : float) : float := if (a <? b)%float then b else a.

Definition min (a b : float) : float := if (b <? a)%float then b else a.
End Builtins.

Module reporting.

(** The dict [compute_returns] returns, by key. *)
Record Metrics : Type := mk {
  total_return : float;
  periodic_returns : list float;
  sharpe_per_period : float;
  max_drawdown : float
}.

(** [(curr / prev) - 1.0 if prev > 0 else 0.0] *)
Definition change (prev curr : float) : result float :=
  if (0 <? prev)%float then q ← Py.div_float curr prev; Ok (q - 1)%float
  else Ok 0%float.

(** The loop over [range(1, len(equities))], from [equities[i - 1]] on. *)
Fixpoint returns_loop (prev : float) (rest : list float) : result (list float) :=
  match rest with
  | [] => Ok []
  | curr :: rest =>
      x ← change prev curr;
      xs ← returns_loop curr rest;
      Ok (x :: xs)
  end.

(** The body of the loop of the drawdown, on [(peak, max_dd)]. *)
Definition drawdown_step (acc : float * float) (e : float) : result (float * float) :=
  let peak := Builtins.max acc.1 e in
  drawdown ← (if (0 <? peak)%float then Py.div_float (e - peak) peak else Ok 0%float);
  Ok (peak, Builtins.min acc.2 drawdown).

Fixpoint drawdown_loop (equities : list float) (acc : float * float)
  : result (float * float) :=
  match equities with
  | [] => Ok acc
  | e :: rest => acc ← drawdown_step acc e; drawdown_loop rest acc
  end.

Section WithStatistics.
(** [statistics.mean] and [statistics.pstdev], of the standard library. *)
Variables mean pstdev : list float → result float.

Definition sharpe (rets : list float) : result float :=
  if (2 <=? length rets)%nat then
    stdev ← pstdev rets;
    if (0 <? stdev)%float then m ← mean rets; Py.div_float m stdev
    else Ok nan
  else Ok nan.

Definition compute_returns (equity_curve : list (datetime.t * float)) : result Metrics :=
  if (length equity_curve <? 2)%nat then Ok (mk 0 [] nan 0)
  else
    let equities := equity_curve.*2 in
    match equities, last equities with
    | first :: rest, Some final =>
        rets ← returns_loop first rest;
        total_return ← change first final;
        sharpe ← sharpe rets;
        acc ← drawdown_loop equities (first, 0%float);
        Ok (mk total_return rets sharpe (abs acc.2))
    | _, _ => Raise IndexError
    end.
End WithStatistics.

End reporting.

Module main.

(** The dict [context] of [run_case], by key. *)
Record Context : Type := mk { fills : nat; rejects : nat; errors : nat }.

(** [Counter(o.status for o in engine.order_history).get(v, 0)] *)
Definition status_count (v : Status) (engine : BacktestEngine.t) : nat :=
  length (filter (λ o, Order.status o = v) (BacktestEngine.history engine)).

Definition context (engine : BacktestEngine.t) : Context :=
  mk (status_count FILLED engine) (status_count REJECTED engine)
     (length (BacktestEngine.errors engine)).

Section WithStatistics.
Variables mean pstdev : list float → result float.

Definition run_case (ticks : list MarketDataPoint.t) (strategies : list nat)
    (cash fail_prob : float) (random_values : nat → float) (objects : list AnyStrategy)
  : result (reporting.Metrics * Context) :=
  let '(r, engine) :=
    BacktestEngine.process ticks
      (BacktestEngine.__init__ strategies cash fail_prob random_values objects) in
  _ ← r;
  metrics ← reporting.compute_returns mean pstdev (BacktestEngine.equity_curve engine);
  Ok (metrics, context engine).
End WithStatistics.

End main.

(** ** What the further properties speak of *)

(** The lines of [errors] by kind. *)
Definition is_execution_line (l : error_line) : bool :=
  match l with ExecutionErrorLine _ => true | _ => false end.

Definition is_order_line (l : error_line) : bool :=
  match l with OrderErrorLine _ => true | _ => false end.

(** The logs of the engine only grow, and its configuration stays. *)
Definition logs_grow (s s' : t) : Prop :=
  errors s `prefix_of` errors s' ∧
  order_history s `prefix_of` order_history s' ∧
  equity_curve s `prefix_of` equity_curve s' ∧
  initial_cash s' = initial_cash s ∧ fail_prob s' = fail_prob s ∧
  random_values s' = random_values s.

(** Every reference of [order_history] points into the store. *)
Definition history_bound (s : t) : Prop :=
  Forall (λ r, (r < length (store s))%nat) (order_history s).

(** The ticks of a symbol, and the price of the last one of them. *)
Definition ticks_of (symbol : string) (ticks : list MarketDataPoint.t)
  : list MarketDataPoint.t :=
  filter (λ t, MarketDataPoint.symbol t = symbol) ticks.

Definition last_price_of (symbol : string) (ticks : list MarketDataPoint.t)
  : option float :=
  MarketDataPoint.price <$> last (ticks_of symbol ticks).


(** The outputs of a strategy on the ticks of one symbol among those of a
    sequence. *)
Definition outputs_on {A} (symbol : string) (ticks : list MarketDataPoint.t)
    (outs : list A) : list A :=
  (filter (λ p, MarketDataPoint.symbol p.1 = symbol) (zip ticks outs)).*2.

(** What the two handlers of the loop over signals make of what an
    execution returned: the line they log, and what the body of the loop
    returns. *)
Definition line_of (res : result unit) : list error_line :=
  match res with
  | Raise (ExecutionError why) => [ExecutionErrorLine why]
  | _ => []
  end.

Definition caught (res : result unit) : result unit :=
  match res with
  | Raise (ExecutionError _) => Ok tt
  | _ => res
  end.

(** As many random numbers were drawn as references were appended to
    [order_history]. *)
Definition draws_counted (s s' : t) : Prop :=
  (random_drawn s' + length (order_history s) =
   random_drawn s + length (order_history s'))%nat.

(** A step keeps an invariant [I] of the state. *)
Definition kept (I : t → Prop) (s s' : t) : Prop := I s → I s'.

(** The orders that are left REJECTED or ERROR without a line in [errors]:
    the one whose message could not be formatted, when that is what a run
    stopped on, and none otherwise. *)
Definition unlogged (r : result unit) : nat :=
  match r with
  | Raise (ValueError _) => 1
  | _ => 0
  end.

(** The recorded orders that are REJECTED or ERROR are as many as the lines
    [ExecutionError: ...] of [errors], and the one left without a line. *)
Definition accounted (r : result unit) (s : t) : Prop :=
  history_bound s ∧
  (main.status_count REJECTED s + main.status_count ERROR s)%nat =
    (length (filter is_execution_line (errors s)) + unlogged r)%nat.


(** Every recorded order was settled: none is left NEW. *)
Definition settled (s : t) : Prop :=
  history_bound s ∧ Forall (λ o, Order.status o ≠ NEW) (history s).

(** The state of an engine on which no draw is below [fail_prob]: no
    recorded order is ERROR and no simulated failure was logged. *)
Definition unfailing (p : float) (rng : nat → float) (s : t) : Prop :=
  fail_prob s = p ∧ random_values s = rng ∧ history_bound s ∧
  Forall (λ o, Order.status o ≠ ERROR) (history s) ∧
  Forall (λ l, ∀ side qty symbol px,
            l ≠ ExecutionErrorLine (SimulatedFailure side qty symbol px)) (errors s).

(** Two ticks in the order of their places on the time line. *)
Definition by_time (a b : MarketDataPoint.t) : Prop :=
  datetime.instant (MarketDataPoint.timestamp a) ≤
  datetime.instant (MarketDataPoint.timestamp b).

(** Two ticks in the order of their timestamps: these compare, and the
    second is not earlier than the first. *)
Definition in_order (a b : MarketDataPoint.t) : Prop :=
  datetime.lt (MarketDataPoint.timestamp b) (MarketDataPoint.timestamp a) = Ok false.

(** The symbols of the recorded positions only grow, in the order of first
    insertion. *)
Definition keys_grow (s s' : t) : Prop :=
  OrderedDict.keys (positions s) `prefix_of` OrderedDict.keys (positions s').


(** What the recorded orders say of the ledger.  The units an order moves
    when it is FILLED, the net units the filled orders of a list moved for a
    symbol, and the cash they leave of [c], each settled as
    [_execute_order] settles it. *)
Definition signed_quantity (o : Order.t) : Z :=
  if String.eqb (Order.side o) "BUY" then Order.quantity o else - Order.quantity o.

Definition moved (symbol : string) (o : Order.t) : Z :=
  if decide (Order.status o = FILLED ∧ Order.symbol o = symbol)
  then signed_quantity o else 0.

Definition net_filled (symbol : string) (orders : list Order.t) : Z :=
  foldr (λ o acc, moved symbol o + acc) 0 orders.

Definition settle (c : float) (o : Order.t) : float :=
  if decide (Order.status o = FILLED) then
    if String.eqb (Order.side o) "BUY"
    then (c - Py.round_int (Order.quantity o) * Order.price o)%float
    else (c + Py.round_int (Order.quantity o) * Order.price o)%float
  else c.

Definition cash_after (c : float) (orders : list Order.t) : float :=
  foldl settle c orders.

(** The ledger is what the recorded orders make of the cash [c0] and of
    empty positions. *)
Definition reconciled (c0 : float) (s : t) : Prop :=
  history_bound s ∧ cash s = cash_after c0 (history s) ∧
  ∀ symbol, Position.quantity (held symbol s) = net_filled symbol (history s).

(** The signals the engine has dealt with: each is a recorded order or a
    line [OrderError: ...]. *)
Definition signals_handled (s : t) : nat :=
  (length (order_history s) + length (filter is_order_line (errors s)))%nat.

(** A strategy object after it was fed a sequence of ticks, alone. *)
Definition fed (ticks : list MarketDataPoint.t) (a : AnyStrategy) : AnyStrategy :=
  let 'Pack strat := a in Pack (feed strat ticks).2.

(** How many times an object is registered, and a sequence of ticks with
    every tick repeated that many times. *)
Definition registrations (r : nat) (strats : list nat) : nat :=
  length (filter (λ x, x = r) strats).

Definition repeated (n : nat) (ticks : list MarketDataPoint.t)
  : list MarketDataPoint.t :=
  ticks ≫= replicate n.

(** No equity of the curve is below an earlier one. *)
Definition never_falls (equities : list float) : Prop :=
  ∀ i j a b, (i ≤ j)%nat → equities !! i = Some a → equities !! j = Some b →
    (b <? a)%float = false.

(** Further inputs. *)
Module Cases.

(** [fail_prob = 1.0]: every draw of [random.random()] is below it. *)
Definition certain : float := 1%float.

(** [statistics.mean] and [statistics.pstdev] stood in for by functions that
    return; the properties below do not depend on their values. *)
Definition mean : list float → result float := λ _, Ok 0%float.

Definition pstdev : list float → result float := λ _, Ok 1%float.

(** [statistics.pstdev] where it raises, as it does on data that are not
    finite. *)
Definition failing : list float → result float :=
  λ _, Raise (Exception "StatisticsError").

(** Ticks of two symbols, out of order. *)
Definition mixed : list MarketDataPoint.t :=
  [MarketDataPoint.mk (datetime.naive 2) "AAPL" 101;
   MarketDataPoint.mk (datetime.naive 0) "AAPL" 100;
   MarketDataPoint.mk (datetime.naive 1) "MSFT" 50;
   MarketDataPoint.mk (datetime.naive 3) "AAPL" 99].

(** The Momentum strategy asking for [10^4300] units per signal, the least
    quantity that cannot be written in a message, and two ticks that make it
    sell on the second. *)
Definition huge : MomentumStrategy.t :=
  MomentumStrategy.mk "AAPL" 1 0 (10 ^ 4300) (deque.new 2).

Definition falling : list MarketDataPoint.t :=
  [MarketDataPoint.mk (datetime.naive 0) "AAPL" 100;
   MarketDataPoint.mk (datetime.naive 1) "AAPL" 99].

(** Two ticks whose timestamps do not compare: the first is naive, the
    second is aware, at UTC. *)
Definition unordered : list MarketDataPoint.t :=
  [MarketDataPoint.mk (datetime.naive 0) "AAPL" 100;
   MarketDataPoint.mk (datetime.mk 1 (Some 0)) "AAPL" 101].

(** An equity curve that rises. *)
Definition rising : list (datetime.t * float) :=
  [(datetime.naive 0, 100%float); (datetime.naive 1, 100%float);
   (datetime.naive 2, 110%float)].

End Cases.

(** * Properties *)

(** ** Ordered dictionaries *)

Section OrderedDictFacts.
Context {V : Type}.
Implicit Types (k : string) (v : V) (d : list (string * V)).

Lemma get_set_eq k v d : OrderedDict.get k (OrderedDict.set k v d) = Some v.
Proof.
  induction d as [|[k' v'] d IH]; simpl; repeat case_decide; simpl;
    repeat case_decide; done.
Qed.

Lemma get_set_ne k k' v d :
  k ≠ k' → OrderedDict.get k' (OrderedDict.set k v d) = OrderedDict.get k' d.
Proof.
  intros Hne. induction d as [|[k'' v'] d IH]; simpl; repeat case_decide; simpl;
    repeat case_decide; subst; done.
Qed.

Lemma set_absent k v d :
  OrderedDict.get k d = None → OrderedDict.set k v d = d ++ [(k, v)].
Proof.
  induction d as [|[k' v'] d IH]; simpl; repeat case_decide; try done.
  intros. by rewrite IH.
Qed.

Lemma set_set k v w d :
  OrderedDict.set k v (OrderedDict.set k w d) = OrderedDict.set k v d.
Proof.
  induction d as [|[k' v'] d IH]; simpl; repeat case_decide; simpl;
    repeat case_decide; try done. by rewrite IH.
Qed.

Lemma get_Some_elem k v d : OrderedDict.get k d = Some v → (k, v) ∈ d.
Proof.
  induction d as [|[k' v'] d IH]; simpl; [done|].
  case_decide as Hk; intros Hv.
  - simplify_eq. left.
  - right. auto.
Qed.

Lemma elem_set k v k' v' d :
  (k', v') ∈ OrderedDict.set k v d → (k', v') = (k, v) ∨ (k', v') ∈ d.
Proof.
  induction d as [|[k'' v''] d IH]; simpl.
  - rewrite list_elem_of_singleton. auto.
  - case_decide; rewrite !elem_of_cons; [intros [->|?]; auto|].
    intros [->|[->|?]%IH]; auto.
Qed.
End OrderedDictFacts.

(** ** The outcomes of [_execute_order] *)

Lemma get_ensured symbol s :
  OrderedDict.get symbol (positions (ensured symbol s)) = Some (held symbol s).
Proof.
  unfold ensured, held.
  destruct (OrderedDict.get symbol (positions s)) eqn:E; simpl; [done|].
  by rewrite get_set_eq.
Qed.

Lemma float_of_int_raises z e : Py.float_of_int z = Raise e → e = OverflowError.
Proof. unfold Py.float_of_int. destruct (_ <=? _); congruence. Qed.

Lemma mul_int_float_raises q x e : Py.mul_int_float q x = Raise e → e = OverflowError.
Proof.
  unfold Py.mul_int_float.
  destruct (Py.float_of_int q) eqn:E; simpl; [done|].
  intros [= <-]. eauto using float_of_int_raises.
Qed.

Lemma average_cost_raises pos qty cost e :
  average_cost pos qty cost = Raise e → e = OverflowError.
Proof.
  unfold average_cost, Py.mul_float_int, Py.div_float_int.
  destruct (Py.float_of_int (Position.quantity pos)) eqn:E1; cbn [rbind];
    [|intros [= <-]; eauto using float_of_int_raises].
  destruct (_ + _ =? 0) eqn:Hz; [done|].
  destruct (Py.float_of_int (_ + _)) eqn:E2; cbn [rbind];
    [|intros [= <-]; eauto using float_of_int_raises].
  done.
Qed.

(** The limit of the digits is beyond the range of [float]: a quantity
    that was converted to a [float] can be written in a message. *)
Lemma float_limit_digits : Py.FLOAT_INT_LIMIT ≤ 10 ^ Py.INT_MAX_STR_DIGITS.
Proof. apply Z.leb_le. vm_compute. reflexivity. Qed.

Lemma format_int_ok z :
  Z.abs z < 10 ^ Py.INT_MAX_STR_DIGITS → Py.format_int z = Ok tt.
Proof. intros Hz. unfold Py.format_int. by rewrite (proj2 (Z.leb_gt _ _)). Qed.

Lemma format_int_returns z :
  Py.format_int z = Ok tt → Z.abs z < 10 ^ Py.INT_MAX_STR_DIGITS.
Proof.
  unfold Py.format_int. by destruct (Z.leb_spec (10 ^ Py.INT_MAX_STR_DIGITS) (Z.abs z)).
Qed.

Lemma format_int_raises z e :
  Py.format_int z = Raise e →
  10 ^ Py.INT_MAX_STR_DIGITS ≤ Z.abs z ∧ ∃ msg, e = ValueError msg.
Proof.
  unfold Py.format_int. destruct (Z.leb_spec (10 ^ Py.INT_MAX_STR_DIGITS) (Z.abs z));
    [|done].
  intros [= <-]. eauto.
Qed.

Lemma mul_int_float_formats q x c :
  Py.mul_int_float q x = Ok c → Py.format_int q = Ok tt.
Proof.
  unfold Py.mul_int_float, Py.float_of_int.
  destruct (Z.leb_spec Py.FLOAT_INT_LIMIT (Z.abs q)); [done|]. intros _.
  apply format_int_ok. pose proof float_limit_digits. lia.
Qed.

(** The exception of a message that cannot be formatted is a
    [ValueError]. *)
Ltac unformatted :=
  repeat match goal with
         | H : Py.format_int _ = Raise _ |- _ =>
             destruct (format_int_raises _ _ H) as [_ [? ->]]; clear H
         end.

Ltac inj_pair := let H := fresh in intros H; injection H as <- <-.

Ltac unfold_M :=
  unfold set_status, _ensure_symbol, random, deref, new_order, log_error,
    mbind, mret, M_bind, M_ret, bind, ret, raise, lift, gets, modify in *.

Lemma cash_ensured symbol s : cash (ensured symbol s) = cash s.
Proof. unfold ensured. by case_match. Qed.

Lemma executes_eq s order o res st st' :
  executes s order o res st → st = st' → executes s order o res st'.
Proof. by intros ? <-. Qed.

Lemma set_ensured symbol pos s :
  with_positions (OrderedDict.set symbol pos (positions (ensured symbol s))) (ensured symbol s)
  = with_positions (OrderedDict.set symbol pos (positions s)) s.
Proof.
  unfold ensured. destruct (OrderedDict.get symbol (positions s)); [done|].
  simpl. by rewrite set_set.
Qed.

Lemma set_cash_ensured symbol pos c s :
  with_positions (OrderedDict.set symbol pos (positions (ensured symbol s)))
    (with_cash c (ensured symbol s))
  = with_positions (OrderedDict.set symbol pos (positions s)) (with_cash c s).
Proof.
  unfold ensured. destruct (OrderedDict.get symbol (positions s)); [done|].
  simpl. by rewrite set_set.
Qed.

Ltac same_state :=
  unfold bought, sold; rewrite ?set_cash_ensured, ?set_ensured; reflexivity.

Lemma execute_order_executes s order o res s' :
  store s !! order = Some o →
  _execute_order order s = (res, s') →
  executes s order o res s'.
Proof.
  intros Ho. unfold _execute_order. unfold_M. rewrite Ho. cbn beta iota.
  change (fail_prob (drawn s)) with (fail_prob s).
  destruct (_ <? _)%float eqn:Hfail.
  { destruct (Py.format_int (Order.quantity o)) as [[]|e] eqn:Hfmt; inj_pair.
    - by constructor.
    - by apply exec_simulated_unformatted. }
  rewrite get_ensured. cbn beta iota. rewrite cash_ensured.
  change (cash (drawn s)) with (cash s).
  change (held (Order.symbol o) (drawn s)) with (held (Order.symbol o) s).
  destruct (String.eqb (Order.side o) "BUY") eqn:Hside.
  - apply String.eqb_eq in Hside.
    destruct (Py.mul_int_float _ _) as [cost|e] eqn:Hcost.
    2: { inj_pair. eapply exec_buy_overflow; eauto using mul_int_float_raises. }
    destruct (cash s <? cost)%float eqn:Hcash.
    { rewrite (mul_int_float_formats _ _ _ Hcost). inj_pair.
      by eapply exec_buy_rejected. }
    pose proof (average_cost_raises (held (Order.symbol o) s) (Order.quantity o) cost) as Hraise.
    unfold average_cost in Hraise.
    destruct (Py.mul_float_int _ _) as [value|e] eqn:Hvalue; cbn [rbind] in *.
    2: { inj_pair. eapply exec_buy_average_overflow; eauto.
         unfold average_cost. by rewrite Hvalue. }
    destruct (_ + _ =? 0) eqn:Hz.
    { inj_pair. eapply executes_eq; [eapply exec_buy_filled; eauto|].
      - unfold average_cost. by rewrite Hvalue, Hz.
      - f_equal. same_state. }
    destruct (Py.div_float_int _ _) as [avg|e] eqn:Havg.
    { inj_pair. eapply executes_eq; [eapply exec_buy_filled; eauto|].
      - unfold average_cost. by rewrite Hvalue, Hz.
      - f_equal. same_state. }
    inj_pair. eapply exec_buy_average_overflow; eauto.
    unfold average_cost. by rewrite Hvalue, Hz.
  - apply String.eqb_neq in Hside.
    destruct (_ <? Order.quantity o) eqn:Hq.
    { apply Z.ltb_lt in Hq.
      destruct (Py.format_int (Order.quantity o)) as [[]|e] eqn:Hfmt; inj_pair.
      - by apply exec_sell_rejected.
      - by apply exec_sell_unformatted. }
    apply Z.ltb_ge in Hq.
    destruct (Py.mul_int_float _ _) as [proceeds|e] eqn:Hp.
    { inj_pair. eapply executes_eq; [eapply exec_sell_filled; eauto|].
      f_equal. same_state. }
    inj_pair. eapply exec_sell_overflow; eauto using mul_int_float_raises.
Qed.

(** ** C1: a failing execution and the ledger *)

Lemma ledger_kept_drawn o s : ledger_kept o s (drawn s).
Proof. unfold ledger_kept. split_and!; [done|done|auto|by left]. Qed.

Lemma ledger_kept_ensured o s : ledger_kept o s (ensured (Order.symbol o) (drawn s)).
Proof.
  unfold ledger_kept, ensured. simpl.
  destruct (OrderedDict.get (Order.symbol o) (positions s)) eqn:E; simpl.
  { split_and!; [done|done|auto|by left]. }
  split_and!; [done|done| |].
  - intros symbol pos Hget. rewrite get_set_ne; [done|]. congruence.
  - right. split; [done|]. by apply set_absent.
Qed.

(** C1, as amended.  When [_execute_order] raises (a simulated failure, a
    rejection for insufficient cash or position, an overflow of the
    arithmetic, or a message whose quantity cannot be written), the cash, the last prices and the quantity and average price
    of every recorded position are what they were; the recorded positions are
    the same, except that a call that gets past the simulated failure on a
    symbol not yet recorded adds the position of quantity 0 and average price
    0 for it; a simulated failure changes no position at all.  When the call
    returns, the effect of its branch is applied in full. *)
Theorem execute_order_all_or_nothing (s : t) (order : nat) (o : Order.t)
    (res : result unit) (s' : t) :
  store s !! order = Some o →
  _execute_order order s = (res, s') →
  match res with
  | Raise e =>
      ledger_kept o s s' ∧
      (∀ side qty symbol px,
         e = ExecutionError (SimulatedFailure side qty symbol px) →
         positions s' = positions s)
  | Ok _ => fill_applied o s s'
  end.
Proof.
  intros Ho Hrun.
  destruct (execute_order_executes _ _ _ _ _ Ho Hrun) as
    [? ?|e ? ? ? ->|cost ? ? ? ?|cost e ? ? ? ? ? ->|cost avg ? ? ? ? ?|? ? ? ?
    |e ? ? ? ? ->|proceeds ? ? ? ?|e ? ?|e ? ? ? Hfmt].
  - split; [apply ledger_kept_drawn|done].
  - split; [apply ledger_kept_ensured|done].
  - split; [apply ledger_kept_ensured|done].
  - split; [apply ledger_kept_ensured|done].
  - unfold fill_applied. rewrite decide_True by done.
    split; [done|]. by exists cost, avg.
  - split; [apply ledger_kept_ensured|done].
  - split; [apply ledger_kept_ensured|done].
  - unfold fill_applied. rewrite decide_False by done.
    split; [done|]. by exists proceeds.
  - split; [apply ledger_kept_drawn|done].
  - split; [apply ledger_kept_ensured|].
    intros side qty symbol px ->.
    by destruct (format_int_raises _ _ Hfmt) as [_ [msg ?]].
Qed.

(** The theorem at the order of the scenario of the specification: BUY 100
    at 50 with 1000 in cash. *)
Lemma execute_order_all_or_nothing_witness :
  store Examples.poor_engine !! 0%nat = Some Examples.big_buy ∧
  ledger_kept Examples.big_buy Examples.poor_engine
    (_execute_order 0 Examples.poor_engine).2.
Proof.
  split; [reflexivity|].
  exact (proj1 (execute_order_all_or_nothing Examples.poor_engine 0 Examples.big_buy
                  (Raise (ExecutionError (InsufficientCash 100 "AAPL" 50)))
                  (_execute_order 0 Examples.poor_engine).2 eq_refl eq_refl)).
Defined.

(** C1 fails as stated: the rejected BUY of the scenario leaves one more
    recorded position than there was. *)
Lemma rejected_buy_records_position :
  let r := _execute_order 0 Examples.poor_engine in
  r.1 = Raise (ExecutionError (InsufficientCash 100 "AAPL" 50)) ∧
  OrderedDict.keys (positions Examples.poor_engine) = [] ∧
  OrderedDict.keys (positions r.2) = ["AAPL"].
Proof. vm_compute. done. Qed.

(** ** C8: the side of an order *)

Lemma upper_ascii_B c : Py.upper_ascii c = "B"%char → c = "B"%char ∨ c = "b"%char.
Proof.
  destruct c as [[] [] [] [] [] [] [] []]; vm_compute; intros H;
    try discriminate H; auto.
Qed.

Lemma upper_ascii_U c : Py.upper_ascii c = "U"%char → c = "U"%char ∨ c = "u"%char.
Proof.
  destruct c as [[] [] [] [] [] [] [] []]; vm_compute; intros H;
    try discriminate H; auto.
Qed.

Lemma upper_ascii_Y c : Py.upper_ascii c = "Y"%char → c = "Y"%char ∨ c = "y"%char.
Proof.
  destruct c as [[] [] [] [] [] [] [] []]; vm_compute; intros H;
    try discriminate H; auto.
Qed.

Lemma upper_BUY action : Py.upper action = "BUY" ↔ action ∈ BUY_spellings.
Proof.
  split.
  - destruct action as [|c1 [|c2 [|c3 [|c4 r]]]]; simpl; try discriminate.
    intros H. injection H as H1 H2 H3.
    apply upper_ascii_B in H1. apply upper_ascii_U in H2. apply upper_ascii_Y in H3.
    unfold BUY_spellings. rewrite !elem_of_cons.
    destruct H1 as [-> | ->], H2 as [-> | ->], H3 as [-> | ->]; tauto.
  - unfold BUY_spellings. rewrite !elem_of_cons, elem_of_nil.
    intros [->|[->|[->|[->|[->|[->|[->|[->|[]]]]]]]]]; reflexivity.
Qed.

Lemma side_of_upper action :
  (if String.eqb (Py.upper action) "BUY" then "BUY" else "SELL") = side_of action.
Proof.
  unfold side_of. destruct (String.eqb _ _) eqn:E.
  - apply String.eqb_eq, upper_BUY in E. by rewrite bool_decide_eq_true_2.
  - apply String.eqb_neq in E. rewrite bool_decide_eq_false_2; [done|].
    by rewrite <- upper_BUY.
Qed.

Lemma side_of_valid action : side_of action ∈ ["BUY"; "SELL"].
Proof. unfold side_of. case_bool_decide; rewrite !elem_of_cons; auto. Qed.

(** [_create_order] in closed form. *)
Lemma create_order_created action symbol qty price s :
  let o := order_of (action, symbol, qty, price) in
  _create_order action symbol qty price s =
    (rbind (Order.validate o) (λ _, Ok (length (store s))), created o s).
Proof.
  unfold _create_order, order_of. rewrite side_of_upper. unfold_M. simpl.
  rewrite lookup_app_r, Nat.sub_diag by done. simpl.
  by destruct (Order.validate _).
Qed.

Lemma validate_order_of action symbol qty price :
  Order.validate (order_of (action, symbol, qty, price)) =
    if qty <=? 0 then Raise (OrderError "Quantity must be positive.")
    else if (price <=? 0)%float then Raise (OrderError "Price must be positive.")
    else Ok tt.
Proof.
  unfold Order.validate. simpl.
  rewrite bool_decide_eq_true_2 by apply side_of_valid. done.
Qed.

(** C8.  The order [_create_order] makes of a signal has side BUY exactly
    when the action is ["BUY"] up to case, and side SELL for every other
    action string; no action is rejected for its side: the call raises only
    for a quantity or a price that is not positive. *)
Theorem create_order_side (action symbol : string) (qty : Z) (price : float) (s : t) :
  let r := _create_order action symbol qty price s in
  ∃ o,
    store r.2 = store s ++ [o] ∧
    Order.side o = (if bool_decide (action ∈ BUY_spellings) then "BUY" else "SELL") ∧
    (Order.side o = "BUY" ↔ Py.upper action = "BUY") ∧
    r.1 = (if qty <=? 0 then Raise (OrderError "Quantity must be positive.")
           else if (price <=? 0)%float then Raise (OrderError "Price must be positive.")
           else Ok (length (store s))).
Proof.
  intros r. subst r. rewrite create_order_created.
  exists (order_of (action, symbol, qty, price)). split_and!; try done.
  - simpl. unfold side_of. rewrite upper_BUY. case_bool_decide; naive_solver.
  - cbn [fst]. rewrite validate_order_of. by repeat case_match.
Qed.

(** ** The loop over signals *)

Lemma same_books_refl s : same_books s s.
Proof. by unfold same_books. Qed.

Lemma same_books_ensured symbol s : same_books s (ensured symbol s).
Proof. unfold same_books, ensured. by destruct (OrderedDict.get _ _). Qed.

Lemma store_ensured symbol s : store (ensured symbol s) = store s.
Proof. unfold ensured. by destruct (OrderedDict.get _ _). Qed.

Lemma random_drawn_ensured symbol s : random_drawn (ensured symbol s) = random_drawn s.
Proof. unfold ensured. by destruct (OrderedDict.get _ _). Qed.

Lemma set_status_same o : Order.set_status (Order.status o) o = o.
Proof. by destruct o. Qed.

(** What an execution does outside the ledger: it draws one random number
    and assigns the status of its order; nothing else moves. *)
Lemma executes_frame s order o res s' :
  store s !! order = Some o →
  executes s order o res s' →
  same_books s s' ∧ random_drawn s' = S (random_drawn s) ∧
  store s' = alter (Order.set_status (status_after s res o)) order (store s).
Proof.
  intros Ho Hex.
  assert (store s = alter (Order.set_status (Order.status o)) order (store s)) as Hid.
  { apply list_eq. intros j. destruct (decide (j = order)) as [Hj|Hj].
    - subst j. rewrite list_lookup_alter_eq, Ho. simpl. by rewrite set_status_same.
    - by rewrite list_lookup_alter_ne. }
  pose proof (same_books_ensured (Order.symbol o) (drawn s)) as Hb.
  destruct Hex; subst;
    unformatted;
    cbn [status_after];
    repeat match goal with
           | H : (_ <? _)%float = _ |- _ => rewrite H; clear H
           end;
    unfold marked, bought, sold; simpl;
    rewrite ?store_ensured, ?random_drawn_ensured; simpl.
  all: split_and!; done.
Qed.

Lemma validate_raises o e : Order.validate o = Raise e → ∃ msg, e = OrderError msg.
Proof. unfold Order.validate. repeat case_match; intros [= <-]; eauto. Qed.

(** The body of the loop in closed form: the order is made; if it is not
    valid a line is logged and nothing else happens; otherwise its reference
    is appended to [order_history] and the execution runs under the two
    handlers. *)
Lemma process_signal_unfold signal s :
  process_signal signal s =
    match Order.validate (order_of signal) with
    | Raise (OrderError msg) =>
        (Ok tt, with_errors (errors s ++ [OrderErrorLine msg]) (created (order_of signal) s))
    | Raise e => (Raise e, created (order_of signal) s)
    | Ok _ =>
        try_except (_execute_order (length (store s))) order_handlers
          (recorded (order_of signal) s)
    end.
Proof.
  destruct signal as [[[action symbol] qty] price].
  unfold process_signal, try_except. unfold mbind at 1, M_bind at 1, bind at 1.
  rewrite create_order_created.
  destruct (Order.validate _) as [[]|e] eqn:Hv; cbn [rbind]; [reflexivity|].
  by destruct (validate_raises _ _ Hv) as [msg ->].
Qed.


(** What the handlers leave of the state an execution ended in: that state,
    or that state with one more line in [errors]. *)
Lemma try_except_handlers m s :
  let r := try_except m order_handlers s in
  r.2 = (m s).2 ∨ ∃ l, r.2 = with_errors (errors (m s).2 ++ [l]) (m s).2.
Proof.
  unfold try_except. destruct (m s) as [[[]|e] s1]; simpl; [by left|].
  destruct e; simpl; eauto.
Qed.

Lemma lookup_recorded o s : store (recorded o s) !! length (store s) = Some o.
Proof. simpl. by rewrite lookup_app_r, Nat.sub_diag. Qed.

(** C3.  A signal passes validation exactly when its quantity and its
    price are positive (the side never fails).  When it does, the order is in
    the store with status NEW and its reference is at the end of
    [order_history] in the state [_execute_order] starts from, and it is
    still there afterwards, with the status the execution gave it, also when
    the execution was rejected or failed.  When it does not, the call
    returns after logging one line: [order_history], the cash and the
    positions are as they were, and no random number was drawn, which
    [_execute_order] does first. *)
Theorem validated_orders_are_recorded (signal : Signal) (s : t) :
  let o := order_of signal in
  let order := length (store s) in
  let r := process_signal signal s in
  is_Ok (Order.validate o) = (0 <? signal.1.2) && negb (signal.2 <=? 0)%float ∧
  match Order.validate o with
  | Ok _ =>
      Order.status o = NEW ∧
      store (recorded o s) !! order = Some o ∧
      order_history (recorded o s) = order_history s ++ [order] ∧
      r = try_except (_execute_order order) order_handlers (recorded o s) ∧
      order_history r.2 = order_history s ++ [order] ∧
      store r.2 !! order =
        Some (Order.set_status
                (status_after (recorded o s)
                   (_execute_order order (recorded o s)).1 o) o) ∧
      random_drawn r.2 = S (random_drawn s)
  | Raise e =>
      r.1 = Ok tt ∧ order_history r.2 = order_history s ∧
      random_drawn r.2 = random_drawn s ∧
      cash r.2 = cash s ∧ positions r.2 = positions s ∧
      ∃ msg, e = OrderError msg ∧ errors r.2 = errors s ++ [OrderErrorLine msg]
  end.
Proof.
  intros o order r. split.
  { subst o. destruct signal as [[[action symbol] qty] price].
    rewrite validate_order_of. simpl.
    destruct (Z.leb_spec qty 0), (Z.ltb_spec 0 qty); try lia; try done.
    by destruct (price <=? 0)%float. }
  subst r. rewrite process_signal_unfold. fold o.
  destruct (Order.validate o) as [[]|e] eqn:Hv.
  - pose proof (lookup_recorded o s) as Ho. fold order in Ho |- *.
    destruct (_execute_order order (recorded o s)) as [res s1] eqn:Hrun.
    pose proof (execute_order_executes _ _ _ _ _ Ho Hrun) as Hex.
    destruct (executes_frame _ _ _ _ _ Ho Hex) as ((_&_&_&_&_&Hh&_)&Hd&Hst).
    pose proof (try_except_handlers (_execute_order order) (recorded o s)) as Hte.
    rewrite Hrun in Hte. simpl in Hte.
    assert (∀ s2, (s2 = s1 ∨ ∃ l, s2 = with_errors (errors s1 ++ [l]) s1) →
              order_history s2 = order_history s1 ∧ store s2 = store s1 ∧
              random_drawn s2 = random_drawn s1) as Hsame.
    { intros s2 [->|[l ->]]; done. }
    destruct (Hsame _ Hte) as (E1 & E2 & E3).
    split_and!; try done.
    + by destruct signal as [[[??]?]?].
    + by rewrite E1, Hh.
    + rewrite E2, Hst, list_lookup_alter_eq, Ho. done.
    + by rewrite E3, Hd.
  - destruct (validate_raises _ _ Hv) as [msg ->]. simpl. eauto 10.
Qed.

(** ** Relations kept along the loops *)

Section Preserved.
Variable R : t → t → Prop.
Context `{!Reflexive R, !Transitive R}.

Lemma preserved_pure {A} (r : result A) : preserved R (λ s, (r, s)).
Proof. intros s. simpl. reflexivity. Qed.

Lemma preserved_modify (f : t → t) : (∀ s, R s (f s)) → preserved R (modify f).
Proof. intros Hf s. apply Hf. Qed.

Lemma preserved_bind {A B} (m : M A) (k : A → M B) :
  preserved R m → (∀ a, preserved R (k a)) → preserved R (bind m k).
Proof.
  intros Hm Hk s. unfold bind. specialize (Hm s).
  destruct (m s) as [[a|e] s1]; simpl in *; [|done].
  etrans; [done|]. apply Hk.
Qed.

Lemma preserved_for_each {A} (body : A → M unit) (l : list A) :
  (∀ x, x ∈ l → preserved R (body x)) → preserved R (for_each body l).
Proof.
  induction l as [|x l IH]; intros Hbody; simpl.
  - apply (preserved_pure (Ok tt)).
  - apply preserved_bind.
    + apply Hbody. left.
    + intros _. apply IH. intros y Hy. apply Hbody. by right.
Qed.
End Preserved.

(** ** C9: the status of an order *)

Lemma process_signal_store signal s :
  ∃ o, store (process_signal signal s).2 = store s ++ [o].
Proof.
  rewrite process_signal_unfold.
  destruct (Order.validate (order_of signal)) as [[]|e] eqn:Hv.
  - pose proof (lookup_recorded (order_of signal) s) as Ho.
    destruct (_execute_order (length (store s)) (recorded (order_of signal) s))
      as [res s1] eqn:Hrun.
    pose proof (execute_order_executes _ _ _ _ _ Ho Hrun) as Hex.
    destruct (executes_frame _ _ _ _ _ Ho Hex) as (_ & _ & Hst).
    pose proof (try_except_handlers (_execute_order (length (store s)))
                  (recorded (order_of signal) s)) as Hte.
    rewrite Hrun in Hte. simpl in Hte.
    eexists. destruct Hte as [-> | [l ->]]; simpl; rewrite Hst; simpl;
      rewrite <- (Nat.add_0_r (length (store s))), alter_app_r; reflexivity.
  - destruct (validate_raises _ _ Hv) as [msg ->]. simpl. eauto.
Qed.

#[local] Instance store_grows_refl : Reflexive store_grows.
Proof. intros s. unfold store_grows. done. Qed.

#[local] Instance store_grows_trans : Transitive store_grows.
Proof. intros s1 s2 s3. unfold store_grows. by etrans. Qed.

Lemma process_signal_prefix signal : preserved store_grows (process_signal signal).
Proof.
  intros s. unfold store_grows. destruct (process_signal_store signal s) as [o ->].
  by apply prefix_app_r.
Qed.

Lemma strategy_signals_store tick s : store (strategy_signals tick s).2 = store s.
Proof. unfold strategy_signals. by destruct (poll _ _ _) as [[? ?] ?]. Qed.

Lemma process_tick_prefix tick : preserved store_grows (process_tick tick).
Proof.
  unfold process_tick, mbind, M_bind.
  apply (preserved_bind store_grows);
    [apply preserved_modify; intros s; by unfold store_grows|]. intros _.
  apply (preserved_bind store_grows).
  { intros s. unfold store_grows. by rewrite strategy_signals_store. }
  intros signals. apply (preserved_bind store_grows).
  { apply (preserved_for_each store_grows). intros ? _. apply process_signal_prefix. }
  intros _. apply (preserved_bind store_grows); [intros s; by unfold store_grows|].
  intros eq. apply preserved_modify. intros s. by unfold store_grows.
Qed.

Lemma alter_set_status v (order : nat) o (l : list Order.t) :
  l !! order = Some o →
  alter (Order.set_status v) order l = <[order := Order.set_status v o]> l.
Proof.
  intros Ho. apply list_eq. intros j. destruct (decide (j = order)) as [->|Hj].
  - rewrite list_lookup_alter_eq, Ho. simpl.
    by rewrite list_lookup_insert_eq by by eapply lookup_lt_Some.
  - by rewrite list_lookup_alter_ne, list_lookup_insert_ne.
Qed.

(** C9.  [_create_order] puts one new order in the store, and its status
    is NEW, whether or not the validation then raises.  [_execute_order]
    assigns the status of its order once, and of no other order, and changes
    no other field: FILLED when it returns, ERROR on a simulated failure,
    REJECTED on insufficient cash or position, also when the message of the
    failure or of the rejection cannot be formatted and [ValueError] is
    raised in its place; when an arithmetic overflow aborts it the status is
    left as it was.  The order an invalid signal makes stays NEW, and the
    order a valid one makes goes from NEW to the status its execution gives
    it.  An order that is in the store is never changed by the processing of
    a later signal, of a later tick or of a later run: the store only
    grows. *)
Theorem order_status_lifecycle :
  (∀ action symbol qty price s, ∃ o,
     store (_create_order action symbol qty price s).2 = store s ++ [o] ∧
     Order.status o = NEW ∧
     Order.symbol o = symbol ∧ Order.quantity o = qty ∧ Order.price o = price) ∧
  (∀ s order o res s',
     store s !! order = Some o →
     _execute_order order s = (res, s') →
     ∃ o', store s' = <[order := o']> (store s) ∧ same_order o o' ∧
           Order.status o' = status_after s res o ∧
           (res = Ok tt → Order.status o' = FILLED) ∧
           (∀ why, res = Raise (ExecutionError why) →
              Order.status o' =
                match why with SimulatedFailure _ _ _ _ => ERROR | _ => REJECTED end) ∧
           (∀ msg, res = Raise (ValueError msg) →
              Order.status o' =
                if (random_values s (random_drawn s) <? fail_prob s)%float
                then ERROR else REJECTED) ∧
           (res = Raise OverflowError → Order.status o' = Order.status o)) ∧
  (∀ action symbol qty price s, ∃ o o',
     store (_create_order action symbol qty price s).2 = store s ++ [o] ∧
     Order.status o = NEW ∧
     store (process_signal (action, symbol, qty, price) s).2 = store s ++ [o'] ∧
     same_order o o' ∧
     Order.status o' =
       match Order.validate o with
       | Ok _ =>
           status_after (recorded o s)
             (_execute_order (length (store s)) (recorded o s)).1 o
       | Raise _ => NEW
       end) ∧
  (∀ signal s, store s `prefix_of` store (process_signal signal s).2) ∧
  (∀ ticks s, store s `prefix_of` store (process ticks s).2).
Proof.
  split_and!.
  - intros action symbol qty price s. rewrite create_order_created.
    by exists (order_of (action, symbol, qty, price)).
  - intros s order o res s' Ho Hrun.
    pose proof (execute_order_executes _ _ _ _ _ Ho Hrun) as Hex.
    destruct (executes_frame _ _ _ _ _ Ho Hex) as (_ & _ & Hst).
    exists (Order.set_status (status_after s res o) o).
    split_and!; try done.
    + by rewrite Hst, (alter_set_status _ _ _ _ Ho).
    + by intros ->.
    + by intros [] ->.
    + by intros msg ->.
    + by intros ->.
  - intros action symbol qty price s. rewrite create_order_created.
    generalize (action, symbol, qty, price). intros signal.
    exists (order_of signal). cbn [snd created store with_store].
    rewrite process_signal_unfold.
    destruct (Order.validate (order_of signal)) as [[]|e] eqn:Hv.
    + pose proof (lookup_recorded (order_of signal) s) as Ho.
      destruct (_execute_order (length (store s)) (recorded (order_of signal) s))
        as [res s1] eqn:Hrun.
      pose proof (execute_order_executes _ _ _ _ _ Ho Hrun) as Hex.
      destruct (executes_frame _ _ _ _ _ Ho Hex) as (_ & _ & Hst).
      pose proof (try_except_handlers (_execute_order (length (store s)))
                    (recorded (order_of signal) s)) as Hte.
      rewrite Hrun in Hte. simpl in Hte.
      exists (Order.set_status
                (status_after (recorded (order_of signal) s) res (order_of signal))
                (order_of signal)).
      split_and!; [done|by destruct signal as [[[??]?]?]| |done|done].
      destruct Hte as [-> | [l ->]]; simpl; rewrite Hst; simpl;
        rewrite <- (Nat.add_0_r (length (store s))), alter_app_r; reflexivity.
    + destruct (validate_raises _ _ Hv) as [msg ->]. simpl.
      exists (order_of signal). split_and!; try done.
      all: by destruct signal as [[[??]?]?].
  - intros signal. apply process_signal_prefix.
  - intros ticks s. unfold process, mbind, M_bind, bind, lift.
    destruct (sorted ticks) as [l|e]; [|done].
    apply (preserved_for_each store_grows).
    intros ? _. apply process_tick_prefix.
Qed.

(** The second part at the rejected BUY of the scenario: the status of the
    order goes from NEW to REJECTED. *)
Lemma order_status_lifecycle_witness :
  store Examples.poor_engine !! 0%nat = Some Examples.big_buy ∧
  ∃ o', store (_execute_order 0 Examples.poor_engine).2 =
          <[0%nat := o']> (store Examples.poor_engine) ∧
        same_order Examples.big_buy o' ∧ Order.status o' = REJECTED.
Proof.
  split; [reflexivity|].
  destruct (proj1 (proj2 order_status_lifecycle) Examples.poor_engine 0%nat
              Examples.big_buy (Raise (ExecutionError (InsufficientCash 100 "AAPL" 50)))
              (_execute_order 0 Examples.poor_engine).2 eq_refl eq_refl)
    as (o' & Hst & Hsame & Hstatus & _).
  exists o'. split_and!; [exact Hst|exact Hsame|exact Hstatus].
Defined.

(** ** Floating-point comparisons *)

Lemma leb_false_eqb x y : (x <=? y)%float = false → (x =? y)%float = false.
Proof.
  rewrite FloatAxioms.leb_spec, FloatAxioms.eqb_spec. unfold SFleb, SFeqb.
  by destruct (SFcompare _ _) as [[]|].
Qed.

Lemma eqb_zero_inv x : (x =? 0)%float = true → ∃ s, Prim2SF x = S754_zero s.
Proof.
  rewrite FloatAxioms.eqb_spec. change (Prim2SF 0) with (S754_zero false).
  unfold SFeqb.
  destruct (Prim2SF x) as [s|s| |s m e]; simpl; try done; eauto.
  all: by destruct s.
Qed.

(** When the threshold and the return are both zero, both conditions of the
    Momentum strategy hold. *)
Lemma zero_return_both th ret :
  (th =? 0)%float = true → (ret =? 0)%float = true →
  (th <=? ret)%float = true ∧ (ret <=? - th)%float = true.
Proof.
  intros [s Hth]%eqb_zero_inv [s' Hret]%eqb_zero_inv.
  rewrite !FloatAxioms.leb_spec, FloatAxioms.opp_spec, Hth, Hret. done.
Qed.

(** ** Bounded histories *)

Section Lastn.
Context {A : Type}.
Implicit Types (l : list A) (k : nat).

Lemma length_lastn k l : length (lastn k l) = (length l `min` k)%nat.
Proof. unfold lastn. rewrite length_drop. lia. Qed.

Lemma lastn_all k l : (length l ≤ k)%nat → lastn k l = l.
Proof. intros H. unfold lastn. by replace (length l - k)%nat with 0%nat by lia. Qed.

(** Appending to the bounded history is appending to the whole history. *)
Lemma lastn_snoc k l x : lastn k (lastn k l ++ [x]) = lastn k (l ++ [x]).
Proof.
  destruct (decide (length l ≤ k)%nat) as [Hle|Hgt]; [by rewrite (lastn_all k l)|].
  destruct k as [|k].
  { unfold lastn. rewrite !Nat.sub_0_r. by rewrite !drop_all. }
  assert (length (lastn (S k) l) = S k) as Hlen by (rewrite length_lastn; lia).
  unfold lastn at 1 3. rewrite !length_app, Hlen. simpl length.
  replace (S k + 1 - S k)%nat with 1%nat by lia.
  rewrite !drop_app_le by lia. unfold lastn. rewrite drop_drop.
  do 2 f_equal. lia.
Qed.

Lemma lookup_lastn k l i : lastn k l !! i = l !! (length l - k + i)%nat.
Proof. unfold lastn. by rewrite lookup_drop. Qed.

Lemma lastn_lastn k k' l : (k ≤ k')%nat → lastn k (lastn k' l) = lastn k l.
Proof.
  intros Hk. unfold lastn at 1. rewrite length_lastn. unfold lastn.
  rewrite drop_drop. f_equal. lia.
Qed.
End Lastn.

Lemma deque_append_lastn x d :
  deque.items (deque.append x d) = lastn (Z.to_nat (deque.maxlen d)) (deque.items d ++ [x]).
Proof. reflexivity. Qed.

(** ** C5, C10: the Momentum strategy *)

Lemma momentum_other_symbol (self : MomentumStrategy.t) tick :
  MarketDataPoint.symbol tick ≠ MomentumStrategy.symbol self →
  generate_signals self tick = (Ok [], self).
Proof.
  intros Hne. unfold generate_signals, MomentumStrategy.strategy, MomentumStrategy.generate_signals.
  apply String.eqb_neq in Hne. by rewrite Hne.
Qed.

Lemma momentum_init symbol lookback threshold qty m :
  MomentumStrategy.__init__ symbol lookback threshold qty = Ok m →
  0 < lookback ∧
  m = MomentumStrategy.mk symbol lookback threshold qty (deque.new (lookback + 1)).
Proof.
  unfold MomentumStrategy.__init__. destruct (Z.ltb_spec 0 lookback); simpl; [|done].
  destruct (0 <=? threshold)%float; simpl; [|done].
  destruct (PY_SSIZE_T_MAX <? _); [done|]. by intros [= <-].
Qed.

Lemma deque_append_bounded x n pre :
  deque.append x (deque.mk n (lastn (Z.to_nat n) pre))
  = deque.mk n (lastn (Z.to_nat n) (pre ++ [x])).
Proof. unfold deque.append. cbn [deque.maxlen deque.items]. f_equal. apply lastn_snoc. Qed.

(** One tick of the symbol, from a strategy that has seen [pre]. *)
Lemma momentum_step sym lb th qty pre tick :
  0 < lb → MarketDataPoint.symbol tick = sym →
  let self := MomentumStrategy.mk sym lb th qty
                (deque.mk (lb + 1) (lastn (Z.to_nat (lb + 1)) pre)) in
  let all := pre ++ [MarketDataPoint.price tick] in
  MomentumStrategy.generate_signals self tick =
    (Ok (momentum_signal sym lb th qty all (length pre)),
     MomentumStrategy.mk sym lb th qty
       (deque.mk (lb + 1) (lastn (Z.to_nat (lb + 1)) all))).
Proof.
  intros Hlb Hsym self all.
  unfold MomentumStrategy.generate_signals.
  subst self.
  cbn [MomentumStrategy.symbol MomentumStrategy._lb MomentumStrategy._th
       MomentumStrategy._qty MomentumStrategy._prices].
  rewrite Hsym, String.eqb_refl. cbn [negb].
  rewrite deque_append_bounded. fold all. unfold deque.len. cbn [deque.items].
  assert (length all = S (length pre)) as Hall by (subst all; rewrite length_app; simpl; lia).
  unfold momentum_signal.
  rewrite length_lastn, Hall.
  destruct (Z.leb_spec (Z.of_nat (S (length pre) `min` Z.to_nat (lb + 1))) lb) as [Hfew|Hfull].
  { rewrite (proj2 (Z.ltb_lt _ _)) by lia. done. }
  rewrite (proj2 (Z.ltb_ge _ _)) by lia.
  assert (lastn (Z.to_nat (lb + 1)) all !! 0%nat = all !! (length pre - Z.to_nat lb)%nat) as Hhead.
  { rewrite lookup_lastn, Hall. f_equal. lia. }
  assert (all !! length pre = Some (MarketDataPoint.price tick)) as Hlast.
  { subst all. by rewrite lookup_app_r, Nat.sub_diag. }
  rewrite <- Hhead, Hlast.
  destruct (lastn (Z.to_nat (lb + 1)) all) as [|past rest] eqn:Hitems.
  { apply (f_equal length) in Hitems. rewrite length_lastn, Hall in Hitems.
    cbn [length] in Hitems. lia. }
  cbn [lookup list_lookup].
  destruct (past <=? 0)%float eqn:Hpast; [done|].
  unfold Py.div_float. rewrite (leb_false_eqb _ _ Hpast). done.
Qed.

Lemma momentum_feed sym lb th qty ticks :
  0 < lb → Forall (λ t, MarketDataPoint.symbol t = sym) ticks →
  ∀ pre,
  (feed (MomentumStrategy.mk sym lb th qty
           (deque.mk (lb + 1) (lastn (Z.to_nat (lb + 1)) pre))) ticks).1 =
    map (λ i, Ok (momentum_signal sym lb th qty (pre ++ map MarketDataPoint.price ticks) i))
      (seq (length pre) (length ticks)).
Proof.
  intros Hlb Hticks. induction Hticks as [|tick ticks Hsym _ IH]; intros pre; [done|].
  assert (pre ++ map MarketDataPoint.price (tick :: ticks)
          = (pre ++ [MarketDataPoint.price tick]) ++ map MarketDataPoint.price ticks)
    as -> by (by rewrite <- app_assoc).
  cbn [feed]. unfold generate_signals at 1, MomentumStrategy.strategy at 1.
  rewrite (momentum_step sym lb th qty pre tick Hlb Hsym).
  specialize (IH (pre ++ [MarketDataPoint.price tick])).
  destruct (feed _ ticks) as [outs final]. cbn [fst] in *.
  cbn [length seq map]. rewrite IH. clear IH.
  replace (length (pre ++ [MarketDataPoint.price tick])) with (S (length pre))
    by (rewrite length_app; simpl; lia).
  f_equal. f_equal.
  unfold momentum_signal. destruct (_ <? lb); [done|].
  by rewrite !(lookup_app_l (pre ++ [_])) by (rewrite length_app; simpl; lia).
Qed.

(** C5.  A Momentum strategy built by its constructor (so with
    [lookback > 0] and [threshold >= 0]), fed ticks of its symbol, emits on
    the tick of index [i] what [momentum_signal] says: nothing while fewer
    than [lookback + 1] observations are collected; then, with [past] the
    oldest price of the window, which is the price [lookback] ticks ago,
    nothing when [past <= 0], BUY when [price / past - 1 >= threshold],
    otherwise SELL when [price / past - 1 <= - threshold], otherwise nothing.
    It never raises and emits at most one signal per tick.  A tick of
    another symbol yields nothing and leaves the strategy as it was. *)
Theorem momentum_signals (symbol : string) (lookback : Z) (threshold : float)
    (qty : Z) (m : MomentumStrategy.t) (ticks : list MarketDataPoint.t) :
  MomentumStrategy.__init__ symbol lookback threshold qty = Ok m →
  Forall (λ t, MarketDataPoint.symbol t = symbol) ticks →
  (feed m ticks).1 =
    map (λ i, Ok (momentum_signal symbol lookback threshold qty
                    (map MarketDataPoint.price ticks) i))
      (seq 0 (length ticks)) ∧
  Forall (λ out, ∃ l, out = Ok l ∧ (length l ≤ 1)%nat) (feed m ticks).1 ∧
  ∀ (self : MomentumStrategy.t) tick,
    MarketDataPoint.symbol tick ≠ MomentumStrategy.symbol self →
    generate_signals self tick = (Ok [], self).
Proof.
  intros [Hlb ->]%momentum_init Hticks.
  pose proof (momentum_feed symbol lookback threshold qty ticks Hlb Hticks []) as Hfeed.
  change (lastn _ []) with (@nil float) in Hfeed. simpl app in Hfeed.
  unfold deque.new. split_and!; [done| |apply momentum_other_symbol].
  rewrite Hfeed. apply Forall_map, Forall_forall. intros i _. simpl.
  eexists. split; [done|]. unfold momentum_signal.
  repeat case_match; simpl; lia.
Qed.

Lemma momentum_signals_witness :
  (feed Examples.momentum Examples.three_ticks).1 =
    map (λ i, Ok (momentum_signal "AAPL" 1 0 1
                    (map MarketDataPoint.price Examples.three_ticks) i))
      (seq 0 3).
Proof.
  refine (proj1 (momentum_signals "AAPL" 1 0 1 Examples.momentum Examples.three_ticks
                   eq_refl _)).
  repeat constructor.
Defined.

(** C10.  With a threshold of zero, on a tick whose return
    [price / past - 1] is zero, both conditions hold, that of the BUY and
    that of the SELL, and the strategy emits the BUY alone. *)
Theorem momentum_zero_return_buys (self : MomentumStrategy.t)
    (tick : MarketDataPoint.t) (past : float) (rest : list float) :
  let price := MarketDataPoint.price tick in
  let window := deque.append price (MomentumStrategy._prices self) in
  let ret := (price / past - 1)%float in
  MarketDataPoint.symbol tick = MomentumStrategy.symbol self →
  (MomentumStrategy._th self =? 0)%float = true →
  MomentumStrategy._lb self < deque.len window →
  deque.items window = past :: rest →
  (past <=? 0)%float = false →
  (ret =? 0)%float = true →
  (MomentumStrategy._th self <=? ret)%float = true ∧
  (ret <=? - MomentumStrategy._th self)%float = true ∧
  (generate_signals self tick).1 =
    Ok [("BUY", MomentumStrategy.symbol self, MomentumStrategy._qty self, price)].
Proof.
  intros price window ret Hsym Hth Hlen Hitems Hpast Hret.
  destruct (zero_return_both _ _ Hth Hret) as [Hbuy Hsell].
  split_and!; [done|done|].
  unfold generate_signals, MomentumStrategy.strategy, MomentumStrategy.generate_signals.
  rewrite Hsym, String.eqb_refl.
  cbn [negb MomentumStrategy.symbol MomentumStrategy._lb MomentumStrategy._th
       MomentumStrategy._qty MomentumStrategy._prices].
  fold price. fold window.
  rewrite (proj2 (Z.leb_gt _ _)) by lia. rewrite Hitems, Hpast.
  unfold Py.div_float. rewrite (leb_false_eqb _ _ Hpast). cbn [fst].
  unfold MomentumStrategy.decide_. cbn [MomentumStrategy._th]. fold ret.
  by rewrite Hbuy.
Qed.

(** The theorem on a second tick at the price of the first. *)
Lemma momentum_zero_return_buys_witness :
  (generate_signals Examples.momentum_seen (Examples.tick 1 100)).1 =
    Ok [("BUY", "AAPL", 1, 100%float)].
Proof.
  refine (proj2 (proj2 (momentum_zero_return_buys Examples.momentum_seen
                          (Examples.tick 1 100) 100 [100%float]
                          eq_refl eq_refl _ eq_refl eq_refl eq_refl))).
  reflexivity.
Defined.

(** ** C4: the Moving-Average Crossover strategy *)

Lemma ssize_below_limit : PY_SSIZE_T_MAX < Py.FLOAT_INT_LIMIT.
Proof. reflexivity. Qed.

Lemma float_of_int_small n :
  0 ≤ n ≤ PY_SSIZE_T_MAX → Py.float_of_int n = Ok (Py.round_int n).
Proof.
  intros Hn. unfold Py.float_of_int.
  pose proof ssize_below_limit.
  by rewrite (proj2 (Z.leb_gt _ _)) by lia.
Qed.

Lemma slice_last_lastn {A} n (l : list A) :
  0 < n → PyList.slice_last n l = lastn (Z.to_nat n) l.
Proof. intros Hn. unfold PyList.slice_last. by rewrite (proj2 (Z.ltb_lt _ _)). Qed.

Section Crossover.
Variable fsum : list float → float.
Variables (sym : string) (fast slow qty : Z).
Hypothesis Hfast : 0 < fast.
Hypothesis Hslow : fast < slow.
Hypothesis Hmax : slow ≤ PY_SSIZE_T_MAX.

Abbreviation MAC := MovingAverageCrossover.mk.
Abbreviation diff_of := (mac_diff fsum fast slow).
Abbreviation prev_of := (mac_prev fsum fast slow).

(** A computed average is the average of the specification. *)
Lemma sma_bounded n all prev :
  0 < n ≤ slow → slow ≤ Z.of_nat (length all) →
  MovingAverageCrossover._sma fsum
    (MAC sym fast slow qty (deque.mk slow (lastn (Z.to_nat slow) all)) prev) n
  = Ok (sma fsum n all).
Proof.
  intros Hn Hlen. unfold MovingAverageCrossover._sma, deque.len.
  cbn [MovingAverageCrossover._prices deque.items].
  rewrite length_lastn, (proj2 (Z.ltb_ge _ _)) by lia.
  rewrite slice_last_lastn, lastn_lastn by lia.
  unfold Py.div_float_int. rewrite float_of_int_small by lia. cbn [rbind].
  by rewrite (proj2 (Z.eqb_neq _ _)) by lia.
Qed.

Lemma mac_diff_last pre p :
  diff_of (pre ++ [p]) (length pre) =
    let all := pre ++ [p] in
    if Z.of_nat (length all) <? slow then None
    else if Py.ne_self (sma fsum fast all) || Py.ne_self (sma fsum slow all) then None
    else Some (sma fsum fast all - sma fsum slow all)%float.
Proof.
  unfold mac_diff. rewrite take_ge by (rewrite length_app; simpl; lia).
  rewrite length_app. cbn [length]. by rewrite Nat.add_1_r.
Qed.

(** One tick of the symbol, from a strategy that has seen [pre]. *)
Lemma crossover_step pre prev tick :
  MarketDataPoint.symbol tick = sym →
  let all := pre ++ [MarketDataPoint.price tick] in
  MovingAverageCrossover.generate_signals fsum
    (MAC sym fast slow qty (deque.mk slow (lastn (Z.to_nat slow) pre)) prev) tick =
    (Ok (match prev, diff_of all (length pre) with
         | Some prev, Some diff =>
             if crosses_up prev diff
             then [("BUY", sym, qty, MarketDataPoint.price tick)]
             else if crosses_down prev diff
             then [("SELL", sym, qty, MarketDataPoint.price tick)]
             else []
         | _, _ => []
         end),
     MAC sym fast slow qty (deque.mk slow (lastn (Z.to_nat slow) all))
       (match diff_of all (length pre) with Some d => Some d | None => prev end)).
Proof.
  intros Hsym all. unfold MovingAverageCrossover.generate_signals.
  cbn [MovingAverageCrossover.symbol MovingAverageCrossover._fast
       MovingAverageCrossover._slow MovingAverageCrossover._qty
       MovingAverageCrossover._prices MovingAverageCrossover._prev_diff].
  rewrite Hsym, String.eqb_refl. cbn [negb].
  rewrite deque_append_bounded. fold all.
  subst all. rewrite mac_diff_last. cbn zeta.
  set (all := pre ++ [MarketDataPoint.price tick]).
  unfold deque.len at 1. cbn [deque.items]. rewrite length_lastn.
  destruct (Z.ltb_spec (Z.of_nat (length all)) slow) as [Hfew|Hfull].
  { rewrite (proj2 (Z.ltb_lt _ _)) by lia. by destruct prev. }
  rewrite (proj2 (Z.ltb_ge _ _)) by lia.
  rewrite !sma_bounded by lia.
  destruct (_ || _); [by destruct prev|].
  unfold MovingAverageCrossover.cross. cbn [MovingAverageCrossover._prev_diff
    MovingAverageCrossover.symbol MovingAverageCrossover._qty].
  by destruct prev.
Qed.

Lemma mac_diff_app l l' i :
  (i < length l)%nat → diff_of (l ++ l') i = diff_of l i.
Proof. intros Hi. unfold mac_diff. by rewrite take_app_le by lia. Qed.

Lemma mac_prev_app l l' i :
  (i ≤ length l)%nat → prev_of (l ++ l') i = prev_of l i.
Proof.
  induction i as [|i IH]; intros Hi; [done|]. cbn [mac_prev].
  rewrite mac_diff_app, IH by lia. done.
Qed.

Lemma crossover_feed ticks :
  Forall (λ t, MarketDataPoint.symbol t = sym) ticks →
  ∀ pre,
  (feed (ops := MovingAverageCrossover.strategy fsum)
     (MAC sym fast slow qty (deque.mk slow (lastn (Z.to_nat slow) pre))
        (prev_of pre (length pre))) ticks).1 =
    map (λ i, Ok (mac_signal fsum sym fast slow qty
                    (pre ++ map MarketDataPoint.price ticks) i))
      (seq (length pre) (length ticks)).
Proof.
  intros Hticks. induction Hticks as [|tick ticks Hsym _ IH]; intros pre; [done|].
  assert (pre ++ map MarketDataPoint.price (tick :: ticks)
          = (pre ++ [MarketDataPoint.price tick]) ++ map MarketDataPoint.price ticks)
    as -> by (by rewrite <- app_assoc).
  cbn [feed]. unfold generate_signals at 1, MovingAverageCrossover.strategy at 1.
  rewrite (crossover_step pre _ tick Hsym).
  set (all := pre ++ [MarketDataPoint.price tick]).
  assert (length all = S (length pre)) as Hall
    by (subst all; rewrite length_app; simpl; lia).
  assert (prev_of all (length pre) = prev_of pre (length pre)) as Hprev
    by (subst all; apply mac_prev_app; lia).
  assert (all !! length pre = Some (MarketDataPoint.price tick)) as Hlast
    by (subst all; by rewrite lookup_app_r, Nat.sub_diag by lia).
  specialize (IH all). rewrite Hall in IH. cbn [mac_prev] in IH.
  rewrite Hprev in IH.
  destruct (feed _ ticks) as [outs final]. cbn [fst] in *.
  cbn [length seq map]. rewrite IH. clear IH. f_equal. f_equal.
  unfold mac_signal.
  rewrite mac_prev_app, mac_diff_app, Hprev, lookup_app_l, Hlast by lia.
  by repeat case_match.
Qed.
End Crossover.

Lemma ltb_asym x : (0 <? x)%float = true → (x <? 0)%float = false.
Proof.
  rewrite !FloatAxioms.ltb_spec. change (Prim2SF 0) with (S754_zero false).
  unfold SFltb. by destruct (Prim2SF x) as [[]|[]| |[] ? ?].
Qed.

Lemma crosses_exclusive prev diff : crosses_up prev diff && crosses_down prev diff = false.
Proof.
  unfold crosses_up, crosses_down.
  destruct (0 <? diff)%float eqn:E.
  - rewrite (ltb_asym _ E). by rewrite !andb_false_r.
  - by rewrite andb_false_r.
Qed.

Lemma crossover_init symbol fast slow qty m :
  MovingAverageCrossover.__init__ symbol fast slow qty = Ok m →
  0 < fast ∧ fast < slow ∧ slow ≤ PY_SSIZE_T_MAX ∧
  m = MovingAverageCrossover.mk symbol fast slow qty (deque.new slow) None.
Proof.
  unfold MovingAverageCrossover.__init__.
  destruct (Z.ltb_spec 0 fast), (Z.ltb_spec 0 slow), (Z.ltb_spec fast slow);
    simpl; try done.
  destruct (Z.ltb_spec PY_SSIZE_T_MAX slow); [done|]. by intros [= <-].
Qed.

Lemma crossover_other_symbol fsum (self : MovingAverageCrossover.t) tick :
  MarketDataPoint.symbol tick ≠ MovingAverageCrossover.symbol self →
  MovingAverageCrossover.generate_signals fsum self tick = (Ok [], self).
Proof.
  intros Hne. unfold MovingAverageCrossover.generate_signals.
  apply String.eqb_neq in Hne. by rewrite Hne.
Qed.

(** C4.  A Moving-Average Crossover strategy built by its constructor (so
    with [0 < fast < slow]), fed ticks of its symbol, emits on the tick of
    index [i] what [mac_signal] says: with [diff] the difference of the fast
    and the slow average computed on this tick and [prev] the difference
    computed before it, a BUY when [prev <= 0] and [diff > 0], a SELL when
    [prev >= 0] and [diff < 0], and nothing otherwise; nothing while the
    history holds fewer than [slow] observations, and nothing on the first
    tick on which a difference is computed, since no previous difference
    exists then.  The two crossings exclude each other, the strategy never
    raises and emits at most one signal per tick.  A tick of another symbol
    yields nothing and leaves the strategy as it was.  This holds whatever
    rounding the built-in [sum] applies. *)
Theorem crossover_signals (fsum : list float → float) (symbol : string)
    (fast slow qty : Z) (m : MovingAverageCrossover.t)
    (ticks : list MarketDataPoint.t) :
  MovingAverageCrossover.__init__ symbol fast slow qty = Ok m →
  Forall (λ t, MarketDataPoint.symbol t = symbol) ticks →
  let outs := (feed (ops := MovingAverageCrossover.strategy fsum) m ticks).1 in
  outs = map (λ i, Ok (mac_signal fsum symbol fast slow qty
                         (map MarketDataPoint.price ticks) i))
           (seq 0 (length ticks)) ∧
  Forall (λ out, ∃ l, out = Ok l ∧ (length l ≤ 1)%nat) outs ∧
  (∀ prev diff, crosses_up prev diff && crosses_down prev diff = false) ∧
  (∀ prices i,
     Z.of_nat (S i) < slow ∨ mac_prev fsum fast slow prices i = None →
     mac_signal fsum symbol fast slow qty prices i = []) ∧
  ∀ (self : MovingAverageCrossover.t) tick,
    MarketDataPoint.symbol tick ≠ MovingAverageCrossover.symbol self →
    MovingAverageCrossover.generate_signals fsum self tick = (Ok [], self).
Proof.
  intros (Hfast & Hslow & Hmax & ->)%crossover_init Hticks outs.
  pose proof (crossover_feed fsum symbol fast slow qty Hfast Hslow Hmax ticks Hticks [])
    as Hfeed.
  change (lastn _ []) with (@nil float) in Hfeed. simpl app in Hfeed.
  cbn [length mac_prev] in Hfeed. subst outs. unfold deque.new. rewrite Hfeed.
  split_and!; [done| |apply crosses_exclusive| |apply crossover_other_symbol].
  2: { intros prices i [Hfew | Hnone]; unfold mac_signal.
       - unfold mac_diff. rewrite (proj2 (Z.ltb_lt _ _)) by lia. by case_match.
       - by rewrite Hnone. } apply Forall_map, Forall_forall. intros i _. simpl.
  eexists. split; [done|]. unfold mac_signal.
  repeat case_match; simpl; lia.
Qed.

(** The theorem on prices that go down, up and down again, with the plain
    left-to-right sum. *)
Lemma crossover_signals_witness :
  (feed (ops := MovingAverageCrossover.strategy PyList.sum_left)
     Examples.crossover Examples.zigzag).1 =
    map (λ i, Ok (mac_signal PyList.sum_left "AAPL" 1 2 10
                    (map MarketDataPoint.price Examples.zigzag) i))
      (seq 0 4).
Proof.
  refine (proj1 (crossover_signals PyList.sum_left "AAPL" 1 2 10 Examples.crossover
                   Examples.zigzag eq_refl _)).
  repeat constructor.
Defined.


(** ** The loop over the strategies *)

Lemma poll_each tick strats objs :
  poll tick strats objs =
    (heap_after tick strats objs, emitted tick strats objs,
     omap (logged tick) (calls tick strats objs)).
Proof.
  revert objs. induction strats as [|r strats IH]; intros objs; [done|].
  cbn [poll calls heap_after foldl]. unfold emitted in *. cbn [calls].
  destruct (call tick r objs) as [out objs1]. rewrite IH. cbn [fst snd].
  cbn [fmap list_fmap mbind list_bind omap list_omap].
  by destruct out.
Qed.

Lemma strategy_signals_each tick s :
  strategy_signals tick s =
    (Ok (emitted tick (strategies s) (objects s)),
     with_errors (errors s ++ omap (logged tick) (calls tick (strategies s) (objects s)))
       (with_objects (heap_after tick (strategies s) (objects s)) s)).
Proof. unfold strategy_signals. by rewrite poll_each. Qed.

(** *** Calls through references *)

Lemma call_object tick r a objs :
  objs !! r = Some a →
  call tick r objs = (outcome tick a, <[r := advanced tick a]> objs).
Proof.
  intros Ha. unfold call. rewrite Ha. destruct a as [S ops strat].
  unfold outcome, advanced. by destruct (generate_signals strat tick).
Qed.

Lemma call_dangling tick r objs :
  objs !! r = None →
  call tick r objs = (Raise (Exception "dangling reference"), objs).
Proof. intros Ha. unfold call. by rewrite Ha. Qed.

Lemma length_call tick r objs : length (call tick r objs).2 = length objs.
Proof.
  destruct (objs !! r) as [a|] eqn:Ha.
  - rewrite (call_object _ _ _ _ Ha). cbn [snd]. by rewrite length_insert.
  - by rewrite (call_dangling _ _ _ Ha).
Qed.

(** A call changes the object it is made on, and no other. *)
Lemma lookup_call tick r objs :
  (call tick r objs).2 !! r = advanced tick <$> objs !! r.
Proof.
  destruct (objs !! r) as [a|] eqn:Ha.
  - rewrite (call_object _ _ _ _ Ha). cbn [snd].
    by rewrite list_lookup_insert_eq by by eapply lookup_lt_Some.
  - by rewrite (call_dangling _ _ _ Ha).
Qed.

Lemma lookup_call_ne tick r x objs :
  x ≠ r → (call tick r objs).2 !! x = objs !! x.
Proof.
  intros Hne. destruct (objs !! r) as [a|] eqn:Ha.
  - rewrite (call_object _ _ _ _ Ha). cbn [snd]. by rewrite list_lookup_insert_ne.
  - by rewrite (call_dangling _ _ _ Ha).
Qed.


Lemma heap_after_cons tick r strats objs :
  heap_after tick (r :: strats) objs = heap_after tick strats (call tick r objs).2.
Proof. reflexivity. Qed.

Lemma heap_after_snoc tick r strats objs :
  heap_after tick (strats ++ [r]) objs = (call tick r (heap_after tick strats objs)).2.
Proof. unfold heap_after. by rewrite foldl_app. Qed.





(** The object behind a reference after the calls of a tick: it was
    advanced once for each of its registrations. *)
Lemma lookup_heap_after tick strats objs r :
  heap_after tick strats objs !! r =
    fed (replicate (registrations r strats) tick) <$> objs !! r.
Proof.
  revert objs. induction strats as [|x strats IH]; intros objs.
  { cbn. destruct (objs !! r) as [[S ops strat]|]; done. }
  rewrite heap_after_cons, IH. unfold registrations.
  destruct (decide (x = r)) as [->|Hne].
  - rewrite filter_cons_True by done. rewrite lookup_call.
    destruct (objs !! r) as [[S ops strat]|]; [|done]. cbn [fmap option_fmap option_map].
    f_equal. cbn [length replicate]. unfold fed, advanced. cbn [feed].
    destruct (generate_signals strat tick) as [out strat']. cbn [snd].
    by destruct (feed strat' _).
  - rewrite filter_cons_False by done. by rewrite lookup_call_ne by done.
Qed.

Lemma length_heap_after tick strats objs :
  length (heap_after tick strats objs) = length objs.
Proof.
  revert objs. induction strats as [|x strats IH]; intros objs; [done|].
  by rewrite heap_after_cons, IH, length_call.
Qed.

(** ** Quantities within the range of [float] *)







Lemma positions_within_set B symbol pos s :
  0 ≤ Position.quantity pos ≤ B → positions_within B s →
  positions_within B (with_positions (OrderedDict.set symbol pos (positions s)) s).
Proof.
  intros Hpos Hin k p [[= -> ->]|Hp]%elem_set; [done|by eapply Hin].
Qed.

Lemma positions_bought order v o cost avg s :
  positions (marked order v (bought o cost avg (drawn s))) =
    OrderedDict.set (Order.symbol o)
      (Position.mk (Position.quantity (held (Order.symbol o) s) + Order.quantity o) avg)
      (positions s).
Proof. reflexivity. Qed.

Lemma positions_sold order v o proceeds s :
  positions (marked order v (sold o proceeds (drawn s))) =
    OrderedDict.set (Order.symbol o)
      (Position.mk (Position.quantity (held (Order.symbol o) s) - Order.quantity o)
         (if Position.quantity (held (Order.symbol o) s) - Order.quantity o =? 0
          then 0%float else Position.avg_price (held (Order.symbol o) s)))
      (positions s).
Proof. reflexivity. Qed.



Lemma validate_Ok_quantity o : Order.validate o = Ok tt → 0 < Order.quantity o.
Proof. unfold Order.validate. destruct (Z.leb_spec (Order.quantity o) 0); [done|lia]. Qed.


#[local] Instance same_run_refl : Reflexive same_run.
Proof. by intros s. Qed.

#[local] Instance same_run_trans : Transitive same_run.
Proof. intros s1 s2 s3 (?&?&?&?) (?&?&?&?). unfold same_run. split_and!; congruence. Qed.

(** The outcome of the processing of one signal, from the execution it
    wraps. *)
Lemma process_signal_cases signal s :
  (∃ msg, Order.validate (order_of signal) = Raise (OrderError msg) ∧
          (process_signal signal s).1 = Ok tt ∧
          positions (process_signal signal s).2 = positions s ∧
          cash (process_signal signal s).2 = cash s ∧
          same_run s (process_signal signal s).2) ∨
  (∃ res s1, Order.validate (order_of signal) = Ok tt ∧
     executes (recorded (order_of signal) s) (length (store s)) (order_of signal) res s1 ∧
     positions (process_signal signal s).2 = positions s1 ∧
     cash (process_signal signal s).2 = cash s1 ∧
     same_run s (process_signal signal s).2 ∧
     (process_signal signal s).1 =
       match res with
       | Raise (ExecutionError _) => Ok tt
       | _ => res
       end).
Proof.
  rewrite process_signal_unfold. set (o := order_of signal).
  destruct (Order.validate o) as [[]|e] eqn:Hv.
  - right. pose proof (lookup_recorded o s) as Ho.
    destruct (_execute_order (length (store s)) (recorded o s)) as [res s1] eqn:Hrun.
    pose proof (execute_order_executes _ _ _ _ _ Ho Hrun) as Hex.
    destruct (executes_frame _ _ _ _ _ Ho Hex) as ((?&?&?&?&?&?&?&?&?)&_&_).
    exists res, s1. unfold try_except. rewrite Hrun.
    assert (same_run s s1) by (split_and!; done).
    assert (∀ msg, res ≠ Raise (OrderError msg)) as Hno.
    { intros msg ->. inversion Hex; try congruence.
      all: match goal with
           | H : Py.format_int _ = Raise _ |- _ =>
               by destruct (format_int_raises _ _ H) as [_ [? ?]]
           end. }
    destruct res as [[]|[]]; simpl; split_and!; try done.
    all: by destruct (Hno msg).
  - left. destruct (validate_raises _ _ Hv) as [msg ->]. exists msg.
    by split_and!.
Qed.


Lemma process_signal_same_run signal : preserved same_run (process_signal signal).
Proof.
  intros s. by destruct (process_signal_cases signal s)
    as [(?&?&?&?&?&?)|(?&?&?&?&?&?&?&?)].
Qed.







(** ** The equity *)

Lemma equity_loop_value last items eq v :
  _equity_loop last items eq = Ok v →
  v = fold_left (λ eq '(symbol, pos),
        (eq + Py.round_int (Position.quantity pos) * default 0 (last !! symbol))%float)
        items eq.
Proof.
  revert eq. induction items as [|[symbol pos] items IH]; intros eq; simpl.
  { by intros [= <-]. }
  unfold Py.mul_int_float, Py.float_of_int.
  destruct (_ <=? _); simpl; [done|]. apply IH.
Qed.

Lemma equity_loop_raises last items eq e :
  _equity_loop last items eq = Raise e → e = OverflowError.
Proof.
  revert eq. induction items as [|[symbol pos] items IH]; intros eq; simpl; [done|].
  destruct (Py.mul_int_float _ _) eqn:Hmul; simpl; [apply IH|].
  intros [= <-]. eauto using mul_int_float_raises.
Qed.


(** ** The loop over ticks *)


Lemma process_tick_unfold tick s :
  process_tick tick s =
    let r := for_each process_signal (emitted tick (strategies s) (objects s)) (polled tick s) in
    match r.1 with
    | Ok _ =>
        match _equity_loop (_last_prices r.2) (positions r.2) (cash r.2) with
        | Ok eq =>
            (Ok tt, with_equity_curve
                      (equity_curve r.2 ++ [(MarketDataPoint.timestamp tick, eq)]) r.2)
        | Raise e => (Raise e, r.2)
        end
    | Raise e => (Raise e, r.2)
    end.
Proof.
  unfold process_tick. unfold_M. cbn beta iota.
  rewrite strategy_signals_each. cbn [strategies errors with_last_prices].
  fold (polled tick s).
  destruct (for_each _ _ _) as [[[]|e] s2]; cbn [fst snd]; [|done].
  unfold _equity. by destruct (_equity_loop _ _ _).
Qed.

Lemma signals_same_run signals : preserved same_run (for_each process_signal signals).
Proof.
  apply (preserved_for_each same_run). intros ? _. apply process_signal_same_run.
Qed.

Lemma process_tick_strategies tick s :
  strategies (process_tick tick s).2 = strategies s ∧
  objects (process_tick tick s).2 = heap_after tick (strategies s) (objects s).
Proof.
  rewrite process_tick_unfold. cbn zeta.
  destruct (signals_same_run (emitted tick (strategies s) (objects s)) (polled tick s))
    as (Hs & Ho & _ & _).
  destruct (for_each _ _ _) as [[[]|e] s2]; cbn [fst snd] in *; [|done].
  by destruct (_equity_loop _ _ _).
Qed.

Lemma process_tick_snapshot tick s :
  (process_tick tick s).1 = Ok tt →
  equity_curve (process_tick tick s).2 =
    equity_curve s ++
      [(MarketDataPoint.timestamp tick, equity_value (process_tick tick s).2)].
Proof.
  rewrite process_tick_unfold. cbn zeta.
  destruct (signals_same_run (emitted tick (strategies s) (objects s)) (polled tick s))
    as (_ & _ & Hc & _).
  destruct (for_each _ _ _) as [[[]|e] s2]; cbn [fst snd] in *; [|done].
  destruct (_equity_loop _ _ _) as [eq|e] eqn:Heq; [|done].
  intros _. cbn [snd equity_curve with_equity_curve]. rewrite Hc.
  by rewrite (equity_loop_value _ _ _ _ Heq).
Qed.



(** ** The run *)


Lemma run_curve ticks : ∀ s,
  (for_each process_tick ticks s).1 = Ok tt →
  equity_curve (for_each process_tick ticks s).2 =
    equity_curve s ++
      zip_with (λ tick s', (MarketDataPoint.timestamp tick, equity_value s'))
        ticks (states_after ticks s).
Proof.
  induction ticks as [|tick ticks IH]; intros s; [by rewrite app_nil_r|].
  cbn [for_each states_after zip_with]. unfold bind.
  pose proof (process_tick_snapshot tick s) as Hsnap.
  destruct (process_tick tick s) as [[[]|e] s1]; cbn [fst snd] in *; [|done].
  intros Hr. rewrite (IH _ Hr), Hsnap by done. by rewrite <- app_assoc.
Qed.



Lemma length_states_after ticks s : length (states_after ticks s) = length ticks.
Proof. revert s. induction ticks as [|tick ticks IH]; intros s; simpl; [done|]. by rewrite IH. Qed.

(** ** The sort of the ticks *)

Lemma insert_by_instant_perm t l : insert_by_instant t l ≡ₚ t :: l.
Proof.
  induction l as [|x l IH]; simpl; [done|].
  destruct (_ <=? _); [done|]. rewrite IH. apply Permutation_swap.
Qed.

Lemma by_instant_perm ticks : by_instant ticks ≡ₚ ticks.
Proof.
  induction ticks as [|t ticks IH]; [done|]. unfold by_instant in *. simpl.
  by rewrite insert_by_instant_perm, IH.
Qed.

Lemma length_by_instant ticks : length (by_instant ticks) = length ticks.
Proof. by rewrite by_instant_perm. Qed.

Lemma comparable_perm l1 l2 : l1 ≡ₚ l2 → comparable l1 → comparable l2.
Proof. intros Hp Hc a b Ha Hb. apply Hc; by rewrite Hp. Qed.

Lemma comparable_tail t l : comparable (t :: l) → comparable l.
Proof. intros Hc a b Ha Hb. apply Hc; by right. Qed.

(** Inserting a tick among ticks of its kind compares without raising. *)
Lemma insert_tick_alike t l :
  (∀ x, x ∈ l → datetime.aware (MarketDataPoint.timestamp x) =
                 datetime.aware (MarketDataPoint.timestamp t)) →
  insert_tick t l = Ok (insert_by_instant t l).
Proof.
  induction l as [|x l IH]; intros Hl; [done|].
  cbn [insert_tick insert_by_instant]. unfold datetime.lt.
  rewrite bool_decide_eq_true_2 by (apply Hl; left). cbn [rbind].
  rewrite Z.ltb_antisym. destruct (_ <=? _); cbn [negb]; [done|].
  rewrite IH; [done|]. intros y Hy. apply Hl. by right.
Qed.

(** Inserting a tick before one of the other kind raises at the first
    comparison. *)
Lemma insert_tick_mixed t x l :
  datetime.aware (MarketDataPoint.timestamp x) ≠
    datetime.aware (MarketDataPoint.timestamp t) →
  insert_tick t (x :: l) = Raise TypeError.
Proof.
  intros Hne. cbn [insert_tick]. unfold datetime.lt.
  by rewrite bool_decide_eq_false_2.
Qed.

Lemma sorted_comparable ticks : comparable ticks → sorted ticks = Ok (by_instant ticks).
Proof.
  induction ticks as [|t ticks IH]; intros Hc; [done|].
  cbn [sorted]. rewrite IH by by eapply comparable_tail. cbn [rbind].
  rewrite insert_tick_alike; [done|].
  intros x Hx. apply Hc; [right|left]. by rewrite <- (by_instant_perm ticks).
Qed.

Lemma sorted_cases ticks :
  (comparable ticks ∧ sorted ticks = Ok (by_instant ticks)) ∨
  (¬ comparable ticks ∧ sorted ticks = Raise TypeError).
Proof.
  induction ticks as [|t ticks IH].
  { left. split; [|done]. intros a b Ha. inversion Ha. }
  cbn [sorted]. destruct IH as [[Hc ->]|[Hn ->]]; cbn [rbind].
  - destruct (by_instant ticks) as [|x l] eqn:Hl.
    { left. assert (ticks = []) as ->.
      { apply Permutation_nil_r. by rewrite <- Hl, by_instant_perm. }
      split; [|done]. intros a b Ha Hb.
      apply list_elem_of_singleton in Ha, Hb. by subst. }
    destruct (decide (datetime.aware (MarketDataPoint.timestamp x) =
                      datetime.aware (MarketDataPoint.timestamp t))) as [Hx|Hx].
    + assert (comparable (t :: ticks)) as Hc'.
      { assert (x ∈ ticks) as Hin.
        { rewrite <- (by_instant_perm ticks), Hl. left. }
        intros a b [->|Ha]%elem_of_cons [->|Hb]%elem_of_cons; [done| | |by apply Hc].
        - rewrite <- Hx. by apply Hc.
        - rewrite <- Hx. by apply Hc. }
      left. split; [done|]. rewrite <- Hl.
      rewrite insert_tick_alike; [done|].
      intros y Hy. apply Hc'; [right|left]. by rewrite <- (by_instant_perm ticks).
    + right. split; [|by apply insert_tick_mixed].
      intros Hc'. apply Hx. apply Hc'; [right|left].
      rewrite <- (by_instant_perm ticks), Hl. left.
  - right. split; [|done]. intros Hc. apply Hn. by eapply comparable_tail.
Qed.

Lemma sorted_Ok ticks l :
  sorted ticks = Ok l → comparable ticks ∧ l = by_instant ticks.
Proof.
  destruct (sorted_cases ticks) as [[Hc ->]|[_ ->]]; [|done].
  by intros [= <-].
Qed.

Lemma sorted_raises ticks e :
  sorted ticks = Raise e → ¬ comparable ticks ∧ e = TypeError.
Proof.
  destruct (sorted_cases ticks) as [[Hc ->]|[Hn ->]]; [done|].
  by intros [= <-].
Qed.

(** [process] is the loop over the sorted ticks, or stops where the sort
    raises. *)
Lemma process_sorted ticks l s :
  sorted ticks = Ok l → process ticks s = for_each process_tick l s.
Proof. intros Hl. unfold process, mbind, M_bind, bind, lift. by rewrite Hl. Qed.

Lemma process_unsorted ticks e s :
  sorted ticks = Raise e → process ticks s = (Raise e, s).
Proof. intros Hl. unfold process, mbind, M_bind, bind, lift. by rewrite Hl. Qed.
(** ** C2: the equity curve *)




(** ** C6: a strategy that raises *)




(** ** Signs of floating-point results *)

Lemma signed_nonneg x : signed false x → SFnonneg x.
Proof. by destruct x. Qed.

Lemma nonneg_spec x : nonneg x ↔ SFnonneg (Prim2SF x).
Proof.
  unfold nonneg. rewrite FloatAxioms.ltb_spec. change (Prim2SF 0) with (S754_zero false).
  unfold SFltb. destruct (Prim2SF x) as [s|[]| |[] m e]; simpl; naive_solver.
Qed.

Lemma binary_round_aux_signed sx mx ex lx :
  signed sx (binary_round_aux prec emax sx mx ex lx).
Proof.
  unfold binary_round_aux.
  destruct (shr_fexp _ _ mx ex lx) as [mrs' e'].
  destruct (shr_fexp _ _ _ e' loc_Exact) as [mrs'' e''].
  destruct (shr_m mrs''); simpl; [done| |done]. by destruct (_ <=? _).
Qed.

Lemma binary_round_signed sx mx ex : signed sx (binary_round prec emax sx mx ex).
Proof.
  unfold binary_round. destruct (shl_align _ _ _) as [mz ez].
  apply binary_round_aux_signed.
Qed.

Lemma binary_normalize_nonneg m e : 0 ≤ m → signed false (binary_normalize prec emax m e false).
Proof.
  intros Hm. destruct m as [|m|m]; simpl; [done| |lia]. apply binary_round_signed.
Qed.

Lemma mul_nonneg x y : nonneg x → nonneg y → nonneg (x * y).
Proof.
  rewrite !nonneg_spec, FloatAxioms.mul_spec. unfold SF64mul, SFmul.
  destruct (Prim2SF x) as [sx|sx| |sx mx ex], (Prim2SF y) as [sy|sy| |sy my ey];
    simpl; try done; try (by intros -> ->); try (by intros _ ->); try (by intros -> _).
  intros -> ->. apply signed_nonneg, binary_round_aux_signed.
Qed.

Lemma div_nonneg x y : nonneg x → signed false (Prim2SF y) → nonneg (x / y).
Proof.
  rewrite !nonneg_spec, FloatAxioms.div_spec. unfold SF64div, SFdiv.
  destruct (Prim2SF x) as [sx|sx| |sx mx ex], (Prim2SF y) as [sy|sy| |sy my ey];
    simpl; try done; try (by intros -> ->); try (by intros _ ->); try (by intros -> _).
  intros -> ->. destruct (SFdiv_core_binary _ _ _ _ _ _) as [[mz ez] lz].
  apply signed_nonneg, binary_round_aux_signed.
Qed.

Lemma add_nonneg x y : nonneg x → nonneg y → nonneg (x + y).
Proof.
  rewrite !nonneg_spec, FloatAxioms.add_spec. unfold SF64add, SFadd.
  destruct (Prim2SF x) as [sx|sx| |sx mx ex], (Prim2SF y) as [sy|sy| |sy my ey];
    simpl; try done; try (by intros -> ->); try (by intros _ ->); try (by intros -> _).
  - by destruct sx, sy.
  - intros -> ->. simpl. apply signed_nonneg, binary_round_signed.
Qed.

Lemma SFldexp_signed x e : signed false x → signed false (SFldexp prec emax x e).
Proof. destruct x as [s|s| |s m ex]; simpl; try done. intros ->. apply binary_round_signed. Qed.

Lemma SF2Prim_signed x : signed false x → signed false (Prim2SF (SF2Prim x)).
Proof.
  destruct x as [s|s| |s m e]; simpl; try (by intros ->); [done|].
  intros ->. rewrite Z_ldexp_spec, of_uint63_spec.
  apply SFldexp_signed, binary_normalize_nonneg.
  apply Uint63.to_Z_bounded.
Qed.

Lemma round_int_signed z : 0 ≤ z → signed false (Prim2SF (Py.round_int z)).
Proof. intros Hz. by apply SF2Prim_signed, binary_normalize_nonneg. Qed.

Lemma round_int_nonneg z : 0 ≤ z → nonneg (Py.round_int z).
Proof. intros Hz. by apply nonneg_spec, signed_nonneg, round_int_signed. Qed.

Lemma leb_false_nonneg x : (x <=? 0)%float = false → nonneg x.
Proof.
  unfold nonneg. rewrite FloatAxioms.leb_spec, FloatAxioms.ltb_spec.
  unfold SFleb, SFltb. by destruct (SFcompare _ _) as [[]|].
Qed.

Lemma leb_zero_nonneg x : (0 <=? x)%float = true → nonneg x.
Proof.
  rewrite nonneg_spec, FloatAxioms.leb_spec. change (Prim2SF 0) with (S754_zero false).
  unfold SFleb. by destruct (Prim2SF x) as [s|[]| |[] m e].
Qed.

(** *** Subtraction of a smaller value *)

Lemma Zpos_iter_xO m d : Zpos (Pos.iter xO m d) = Zpos m * 2 ^ Zpos d.
Proof.
  induction d as [|d IH] using Pos.peano_ind.
  - simpl. lia.
  - rewrite Pos.iter_succ, Pos2Z.inj_succ, Z.pow_succ_r by lia.
    rewrite Pos2Z.inj_xO, IH. lia.
Qed.

Lemma shl_align_value mx ex ez :
  ez ≤ ex → Zpos (shl_align mx ex ez).1 = Zpos mx * 2 ^ (ex - ez).
Proof.
  intros He. unfold shl_align.
  destruct (ez - ex) as [|d|d] eqn:Hd; simpl; try lia.
  - replace (ex - ez) with 0 by lia. lia.
  - rewrite Zpos_iter_xO. f_equal. f_equal. lia.
Qed.

Lemma digits2_pos_bounds m :
  2 ^ (Zpos (digits2_pos m) - 1) ≤ Zpos m < 2 ^ Zpos (digits2_pos m).
Proof.
  induction m as [m IH|m IH|]; simpl digits2_pos.
  - rewrite Pos2Z.inj_succ, Z.pow_succ_r by lia.
    replace (Z.succ (Zpos (digits2_pos m)) - 1) with (Z.succ (Zpos (digits2_pos m) - 1)) by lia.
    rewrite Z.pow_succ_r by lia. lia.
  - rewrite Pos2Z.inj_succ, Z.pow_succ_r by lia.
    replace (Z.succ (Zpos (digits2_pos m)) - 1) with (Z.succ (Zpos (digits2_pos m) - 1)) by lia.
    rewrite Z.pow_succ_r by lia. lia.
  - simpl. lia.
Qed.

(** A valid finite value has at most 53 digits, and exactly 53 above the
    least exponent. *)
Lemma bounded_inv m e :
  bounded prec emax m e = true →
  -1074 ≤ e ∧ Zpos m < 2 ^ 53 ∧ (-1074 < e → 2 ^ 52 ≤ Zpos m).
Proof.
  unfold bounded, canonical_mantissa, fexp, SpecFloat.emin.
  intros [Hc _]%andb_true_iff. apply Z.eqb_eq in Hc.
  change prec with 53 in Hc. change emax with 1024 in Hc.
  pose proof (digits2_pos_bounds m) as [Hlo Hhi].
  assert (Zpos (digits2_pos m) ≤ 53) as Hd by lia.
  split; [lia|]. split.
  - eapply Z.lt_le_trans; [exact Hhi|]. apply Z.pow_le_mono_r; lia.
  - intros He. assert (Zpos (digits2_pos m) = 53) as Hd' by lia.
    by rewrite Hd' in Hlo.
Qed.

(** Two valid finite values of the same sign, the first of the larger
    exponent: the first has the larger magnitude. *)
Lemma aligned_larger mx ex my ey :
  bounded prec emax mx ex = true → bounded prec emax my ey = true →
  ey < ex →
  Zpos my ≤ Zpos (shl_align mx ex ey).1.
Proof.
  intros (Hex & _ & Hmx)%bounded_inv (Hey & Hmy & _)%bounded_inv He.
  rewrite shl_align_value by lia.
  assert (2 ^ 1 ≤ 2 ^ (ex - ey)) as Hpow by (apply Z.pow_le_mono_r; lia).
  specialize (Hmx ltac:(lia)).
  change (2 ^ 53) with (2 ^ 52 * 2 ^ 1) in Hmy.
  assert (0 < 2 ^ 52) by done.
  nia.
Qed.

Lemma shl_align_same mx ex : (shl_align mx ex ex).1 = mx.
Proof. unfold shl_align. by rewrite Z.sub_diag. Qed.

Lemma SFsub_nonneg X Y :
  valid_binary X = true → valid_binary Y = true →
  SFltb X Y = false → SFnonneg (SFsub prec emax X Y).
Proof.
  unfold SFltb.
  destruct X as [sx|sx| |sx mx ex], Y as [sy|sy| |sy my ey]; simpl; try done;
    try (by destruct sx, sy); try (by destruct sx); try (by destruct sy).
  intros Hx Hy.
  destruct sx, sy; try done.
  - (* both negative *)
    destruct (Z.compare_spec ex ey) as [->|Hlt|Hgt]; try done.
    + rewrite Z.min_id, !shl_align_same.
      change (Pos.compare_cont Eq mx my) with (Pos.compare mx my). intros Hc.
      apply signed_nonneg, binary_normalize_nonneg.
      destruct (Pos.compare_spec mx my); simpl in *; try done; lia.
    + intros _. rewrite Z.min_l by lia. rewrite shl_align_same.
      apply signed_nonneg, binary_normalize_nonneg.
      pose proof (aligned_larger my ey mx ex Hy Hx Hlt). simpl. lia.
  - (* positive minus negative *)
    intros _. apply signed_nonneg, binary_normalize_nonneg. simpl. lia.
  - (* both positive *)
    destruct (Z.compare_spec ex ey) as [->|Hlt|Hgt]; try done.
    + rewrite Z.min_id, !shl_align_same.
      change (Pos.compare_cont Eq mx my) with (Pos.compare mx my). intros Hc.
      apply signed_nonneg, binary_normalize_nonneg.
      destruct (Pos.compare_spec mx my); simpl in *; try done; lia.
    + intros _. rewrite Z.min_r by lia. rewrite shl_align_same.
      apply signed_nonneg, binary_normalize_nonneg.
      pose proof (aligned_larger mx ex my ey Hx Hy Hgt). simpl. lia.
Qed.

Lemma sub_nonneg x y : (x <? y)%float = false → nonneg (x - y).
Proof.
  rewrite FloatAxioms.ltb_spec, nonneg_spec, FloatAxioms.sub_spec.
  apply SFsub_nonneg; apply Prim2SF_valid.
Qed.

(** ** C7: the ledger stays sound *)

Lemma position_sound_zero : position_sound (Position.mk 0 0).
Proof. by split_and!. Qed.

Lemma held_sound symbol s : ledger_sound s → position_sound (held symbol s).
Proof.
  intros [_ Hpos]. unfold held.
  destruct (OrderedDict.get symbol (positions s)) as [pos|] eqn:E; simpl.
  - eapply Hpos, get_Some_elem, E.
  - apply position_sound_zero.
Qed.

Lemma ledger_sound_ensured symbol s : ledger_sound s → ledger_sound (ensured symbol (drawn s)).
Proof.
  intros [Hcash Hpos]. split; [by rewrite cash_ensured|].
  unfold ensured. cbn [positions drawn with_random_drawn].
  destruct (OrderedDict.get symbol (positions s)); [done|].
  intros k p [[= -> ->]|Hp]%elem_set; [apply position_sound_zero|by eapply Hpos].
Qed.

Lemma mul_int_float_value q x v :
  Py.mul_int_float q x = Ok v → v = (Py.round_int q * x)%float.
Proof.
  unfold Py.mul_int_float, Py.float_of_int. destruct (_ <=? _); simpl; [done|].
  by intros [= <-].
Qed.

Lemma cost_nonneg q px cost :
  0 < q → (px <=? 0)%float = false → Py.mul_int_float q px = Ok cost → nonneg cost.
Proof.
  intros Hq Hpx ->%mul_int_float_value.
  apply mul_nonneg; [apply round_int_nonneg; lia|by apply leb_false_nonneg].
Qed.

Lemma average_cost_nonneg pos qty cost avg :
  position_sound pos → 0 < qty → nonneg cost →
  average_cost pos qty cost = Ok avg → nonneg avg.
Proof.
  intros (Hq & Havg & _) Hqty Hcost. unfold average_cost, Py.mul_float_int, Py.div_float_int.
  unfold Py.float_of_int. destruct (_ <=? _); simpl; [done|].
  rewrite (proj2 (Z.eqb_neq (Position.quantity pos + qty) 0)) by lia.
  destruct (_ <=? _); simpl; [done|]. intros [= <-].
  apply div_nonneg; [|apply round_int_signed; lia].
  apply add_nonneg; [|done]. apply mul_nonneg; [done|]. apply round_int_nonneg; lia.
Qed.

(** The execution of a valid order keeps the ledger sound. *)
Lemma executes_sound s order o res s' :
  executes s order o res s' →
  0 < Order.quantity o → (Order.price o <=? 0)%float = false →
  ledger_sound s → ledger_sound s'.
Proof.
  intros Hex Hq Hpx Hs.
  pose proof (held_sound (Order.symbol o) s Hs) as Hheld.
  pose proof (ledger_sound_ensured (Order.symbol o) s Hs) as Hens.
  destruct Hs as [Hcash Hpos].
  destruct Hex as [? ?|e ? ? Hmul ->|cost ? ? ? ?|cost e ? ? ? ? Havg ->
                  |cost avg ? ? Hcost Hafford Havg|? ? ? ?|e ? ? ? Hmul ->
                  |proceeds ? ? Hle Hmul|e ? ?|e ? ? ? ?];
    try exact Hens; try exact (conj Hcash Hpos).
  - split; [by apply sub_nonneg|].
    intros k p Hp. rewrite positions_bought in Hp.
    apply elem_set in Hp as [[= -> ->]|Hp]; [|by eapply Hpos].
    destruct Hheld as (?&?&?). split_and!; simpl; [lia| |lia].
    apply (average_cost_nonneg (held (Order.symbol o) s) (Order.quantity o) cost avg);
      [by split_and!|done|by eapply cost_nonneg|done].
  - split.
    + apply add_nonneg; [done|]. by eapply cost_nonneg.
    + intros k p Hp. rewrite positions_sold in Hp.
      apply elem_set in Hp as [[= -> ->]|Hp]; [|by eapply Hpos].
      destruct Hheld as (?&?&?). split_and!; simpl.
      * lia.
      * by destruct (_ =? 0).
      * intros Hz. by rewrite (proj2 (Z.eqb_eq _ _) Hz).
Qed.

#[local] Instance keeps_sound_refl : Reflexive keeps_sound.
Proof. intros s Hs. exact Hs. Qed.

#[local] Instance keeps_sound_trans : Transitive keeps_sound.
Proof. intros s1 s2 s3 H12 H23 Hs. apply H23, H12, Hs. Qed.

Lemma validate_Ok_price o : Order.validate o = Ok tt → (Order.price o <=? 0)%float = false.
Proof.
  unfold Order.validate. destruct (_ <=? 0); [done|].
  by destruct (Order.price o <=? 0)%float.
Qed.

Lemma ledger_sound_same s s' :
  cash s' = cash s → positions s' = positions s → ledger_sound s → ledger_sound s'.
Proof. unfold ledger_sound. by intros -> ->. Qed.

Lemma process_signal_sound signal : preserved keeps_sound (process_signal signal).
Proof.
  intros s Hs.
  destruct (process_signal_cases signal s)
    as [(msg&_&_&Hp&Hc&_)|(res&s1&Hv&Hex&Hp&Hc&_&_)].
  - by apply (ledger_sound_same s).
  - apply (ledger_sound_same s1); [done|done|].
    eapply executes_sound; eauto using validate_Ok_quantity, validate_Ok_price.
Qed.

Lemma process_tick_sound tick : preserved keeps_sound (process_tick tick).
Proof.
  intros s Hs. rewrite process_tick_unfold. cbn zeta.
  pose proof (preserved_for_each keeps_sound process_signal
                (emitted tick (strategies s) (objects s))
                (λ x _, process_signal_sound x) (polled tick s)) as Hloop.
  assert (ledger_sound (for_each process_signal (emitted tick (strategies s) (objects s))
                          (polled tick s)).2) as Hs'.
  { apply Hloop. by apply (ledger_sound_same s). }
  destruct (for_each _ _ _) as [[[]|e] s2]; cbn [fst snd] in *; [|done].
  by destruct (_equity_loop _ _ _).
Qed.

Lemma process_sound ticks : preserved keeps_sound (process ticks).
Proof.
  intros s. destruct (sorted ticks) as [l|e] eqn:Hl.
  - rewrite (process_sorted _ _ _ Hl). apply (preserved_for_each keeps_sound).
    intros ? _. apply process_tick_sound.
  - by rewrite (process_unsorted _ _ _ Hl).
Qed.

Lemma unaffordable_buy_rejected s order o cost :
  store s !! order = Some o → Order.side o = "BUY" →
  (random_values s (random_drawn s) <? fail_prob s)%float = false →
  Py.mul_int_float (Order.quantity o) (Order.price o) = Ok cost →
  (cash s <? cost)%float = true →
  (_execute_order order s).1 =
    Raise (ExecutionError (InsufficientCash (Order.quantity o) (Order.symbol o)
                             (Order.price o))).
Proof.
  intros Ho Hside Hfail Hcost Hcash.
  destruct (_execute_order order s) as [res s'] eqn:Hrun.
  destruct (execute_order_executes _ _ _ _ _ Ho Hrun); simpl; try congruence.
  all: match goal with
       | H : Py.format_int _ = Raise _ |- _ =>
           rewrite (mul_int_float_formats _ _ _ Hcost) in H; discriminate H
       end.
Qed.

(** C7, as amended.  An engine constructed with [initial_cash >= 0] starts
    with a sound ledger, and the processing of a signal, of a tick and of a
    sequence of ticks keeps the ledger sound, however it ends: [cash < 0]
    never holds, and every recorded position has a quantity [>= 0] and an
    average price for which [avg_price < 0] never holds and which is 0
    whenever the quantity is 0.  A BUY is rejected whenever [cash < cost].
    The cash and an average price need not be [>= 0]: they can be NaN. *)
Theorem ledger_stays_sound (strats : list nat) (c p : float)
    (rng : nat → float) (objs : list AnyStrategy) :
  (0 <=? c)%float = true →
  ledger_sound (__init__ strats c p rng objs) ∧
  (∀ s, ledger_sound s →
     (∀ signal, ledger_sound (process_signal signal s).2) ∧
     (∀ tick, ledger_sound (process_tick tick s).2) ∧
     (∀ ticks, ledger_sound (process ticks s).2)) ∧
  (∀ s order o cost,
     store s !! order = Some o → Order.side o = "BUY" →
     (random_values s (random_drawn s) <? fail_prob s)%float = false →
     Py.mul_int_float (Order.quantity o) (Order.price o) = Ok cost →
     (cash s <? cost)%float = true →
     (_execute_order order s).1 =
       Raise (ExecutionError (InsufficientCash (Order.quantity o) (Order.symbol o)
                                (Order.price o)))).
Proof.
  intros Hcash. split_and!.
  - split; [by apply leb_zero_nonneg|]. intros symbol pos Hin. inversion Hin.
  - intros s Hs. split_and!; intros x.
    + by apply process_signal_sound.
    + by apply process_tick_sound.
    + by apply process_sound.
  - apply unaffordable_buy_rejected.
Qed.

(** The theorem on the engine of the test and three ticks. *)
Lemma ledger_stays_sound_witness :
  ledger_sound (process Examples.three_ticks Examples.engine).2.
Proof.
  pose proof (ledger_stays_sound [0%nat] 10000 0 Examples.half [Pack Examples.momentum]
                eq_refl)
    as (Hinit & Hstep & _).
  exact (proj2 (proj2 (Hstep _ Hinit)) Examples.three_ticks).
Defined.

(** C7 fails as stated: the Momentum strategy with [2^1000] units per signal
    buys at a tiny price, sells at a large one for an infinite amount, and
    buys again at an infinite cost, which the infinite cash affords; the cash
    is then [inf - inf], not a number, and [cash >= 0] does not hold. *)
Lemma cash_not_a_number :
  let r := process Examples.steep_ticks Examples.heavy_engine in
  (0 <=? initial_cash Examples.heavy_engine)%float = true ∧
  r.1 = Ok tt ∧ (0 <=? cash r.2)%float = false.
Proof. vm_compute. done. Qed.

(** * Further properties of the engine

    ** The books along a run *)

(** The body of the loop over signals in closed form, from the execution
    it wraps. *)
Lemma process_signal_outcome signal s :
  let o := order_of signal in
  match Order.validate o with
  | Raise e =>
      ∃ msg, e = OrderError msg ∧
        process_signal signal s =
          (Ok tt, with_errors (errors s ++ [OrderErrorLine msg]) (created o s))
  | Ok _ =>
      ∃ res s1, executes (recorded o s) (length (store s)) o res s1 ∧
        process_signal signal s =
          match res with
          | Raise (ExecutionError why) =>
              (Ok tt, with_errors (errors s1 ++ [ExecutionErrorLine why]) s1)
          | _ => (res, s1)
          end
  end.
Proof.
  intros o. rewrite process_signal_unfold. fold o.
  destruct (Order.validate o) as [[]|e] eqn:Hv.
  - pose proof (lookup_recorded o s) as Ho.
    destruct (_execute_order (length (store s)) (recorded o s)) as [res s1] eqn:Hrun.
    pose proof (execute_order_executes _ _ _ _ _ Ho Hrun) as Hex.
    exists res, s1. split; [done|]. unfold try_except. rewrite Hrun.
    destruct Hex; subst;
      unformatted;
      reflexivity.
  - destruct (validate_raises _ _ Hv) as [msg ->]. eauto.
Qed.

Lemma process_signal_books signal s :
  let o := order_of signal in
  let r := process_signal signal s in
  (initial_cash r.2 = initial_cash s ∧ fail_prob r.2 = fail_prob s ∧
   random_values r.2 = random_values s ∧ equity_curve r.2 = equity_curve s ∧
   strategies r.2 = strategies s ∧ _last_prices r.2 = _last_prices s ∧
   objects r.2 = objects s) ∧
  ((∃ msg, Order.validate o = Raise (OrderError msg) ∧ r.1 = Ok tt ∧
      store r.2 = store s ++ [o] ∧ order_history r.2 = order_history s ∧
      errors r.2 = errors s ++ [OrderErrorLine msg] ∧
      random_drawn r.2 = random_drawn s ∧
      cash r.2 = cash s ∧ positions r.2 = positions s) ∨
   (∃ res s1, Order.validate o = Ok tt ∧
      executes (recorded o s) (length (store s)) o res s1 ∧
      r.1 = caught res ∧
      store r.2 =
        store s ++ [Order.set_status (status_after (recorded o s) res o) o] ∧
      order_history r.2 = order_history s ++ [length (store s)] ∧
      errors r.2 = errors s ++ line_of res ∧
      random_drawn r.2 = S (random_drawn s) ∧
      cash r.2 = cash s1 ∧ positions r.2 = positions s1)).
Proof.
  intros o r. subst r. pose proof (process_signal_outcome signal s) as Hout.
  fold o in Hout. cbn zeta in Hout.
  destruct (Order.validate o) as [[]|e] eqn:Hv.
  - destruct Hout as (res & s1 & Hex & ->).
    destruct (executes_frame _ _ _ _ _ (lookup_recorded o s) Hex)
      as ((?&?&?&?&?&?&?&?&?) & Hd & Hst).
    assert (store s1 =
            store s ++ [Order.set_status (status_after (recorded o s) res o) o]) as Hst'.
    { rewrite Hst. simpl.
      by rewrite <- (Nat.add_0_r (length (store s))), alter_app_r. }
    simpl in *.
    split.
    + destruct res as [[]|[]]; simpl; split_and!; congruence.
    + right. exists res, s1. split; [done|]. split; [done|].
      destruct res as [[]|[]]; cbn [fst snd caught line_of store order_history errors
        random_drawn cash positions with_errors]; rewrite ?app_nil_r;
        split_and!; congruence.
  - destruct Hout as (msg & -> & ->). simpl. split; [done|]. left. eauto 10.
Qed.


#[local] Instance logs_grow_refl : Reflexive logs_grow.
Proof. intros s. unfold logs_grow. split_and!; done. Qed.

#[local] Instance logs_grow_trans : Transitive logs_grow.
Proof.
  intros s1 s2 s3 (?&?&?&?&?&?) (?&?&?&?&?&?).
  unfold logs_grow. split_and!; try (by etrans); congruence.
Qed.

#[local] Instance draws_counted_refl : Reflexive draws_counted.
Proof. intros s. by unfold draws_counted. Qed.

#[local] Instance draws_counted_trans : Transitive draws_counted.
Proof. intros s1 s2 s3. unfold draws_counted. lia. Qed.

#[local] Instance kept_refl I : Reflexive (kept I).
Proof. intros s. by unfold kept. Qed.

#[local] Instance kept_trans I : Transitive (kept I).
Proof. intros s1 s2 s3 H1 H2 H. by apply H2, H1. Qed.

(** A relation kept by the processing of each signal and blind to the
    fields a tick sets outside of it is kept by a tick and by a run. *)
Section Runs.
Variable R : t → t → Prop.
Context `{!Reflexive R, !Transitive R}.
Hypothesis R_signal : ∀ signal, preserved R (process_signal signal).
Hypothesis R_polled : ∀ tick s, R s (polled tick s).
Hypothesis R_curve : ∀ x s, R s (with_equity_curve (equity_curve s ++ [x]) s).

Lemma process_tick_preserved tick : preserved R (process_tick tick).
Proof.
  intros s. rewrite process_tick_unfold. cbn zeta.
  pose proof (preserved_for_each R process_signal (emitted tick (strategies s) (objects s))
                (λ x _, R_signal x) (polled tick s)) as Hrun.
  assert (R s (for_each process_signal (emitted tick (strategies s) (objects s))
                 (polled tick s)).2) as Hs by (etrans; [apply R_polled|done]).
  destruct (for_each _ _ _) as [[[]|e] s2]; cbn [fst snd] in *; [|done].
  destruct (_equity_loop _ _ _); cbn [snd]; [|done].
  etrans; [done|apply R_curve].
Qed.

Lemma process_preserved ticks : preserved R (process ticks).
Proof.
  intros s. destruct (sorted ticks) as [l|e] eqn:Hl.
  - rewrite (process_sorted _ _ _ Hl). apply (preserved_for_each R).
    intros ? _. apply process_tick_preserved.
  - rewrite (process_unsorted _ _ _ Hl). reflexivity.
Qed.
End Runs.

Lemma process_signal_logs signal : preserved logs_grow (process_signal signal).
Proof.
  intros s. destruct (process_signal_books signal s) as [(?&?&?&?&?&?&?) Hcase].
  unfold logs_grow.
  destruct Hcase as [(msg&_&_&_&Hh&He&_)|(res&s1&_&_&_&_&Hh&He&_)];
    rewrite Hh, He; split_and!; try done; try (by apply prefix_app_r); by rewrite H2.
Qed.

Lemma process_logs ticks : preserved logs_grow (process ticks).
Proof.
  apply (process_preserved logs_grow).
  - apply process_signal_logs.
  - intros tick s. unfold logs_grow, polled. simpl. split_and!; try done.
    by apply prefix_app_r.
  - intros x s. unfold logs_grow. simpl. split_and!; try done. by apply prefix_app_r.
Qed.

Lemma process_signal_draws signal : preserved draws_counted (process_signal signal).
Proof.
  intros s. destruct (process_signal_books signal s) as [_ Hcase].
  unfold draws_counted.
  destruct Hcase as [(msg&_&_&_&Hh&_&Hd&_)|(res&s1&_&_&_&_&Hh&_&Hd&_)];
    rewrite Hh, Hd, ?length_app; simpl; lia.
Qed.

Lemma process_draws ticks : preserved draws_counted (process ticks).
Proof.
  apply (process_preserved draws_counted); [apply process_signal_draws|done|done].
Qed.

(** X1.  [process] only ever appends to the three logs of the engine:
    whatever the ticks and however the run ends, [errors], [order_history]
    and [equity_curve] afterwards start with what they held before, and the
    initial cash and the failure probability are as they were. *)
Theorem logs_only_grow (ticks : list MarketDataPoint.t) (s : t) :
  let s' := (process ticks s).2 in
  errors s `prefix_of` errors s' ∧
  order_history s `prefix_of` order_history s' ∧
  equity_curve s `prefix_of` equity_curve s' ∧
  initial_cash s' = initial_cash s ∧ fail_prob s' = fail_prob s.
Proof.
  intros s'. destruct (process_logs ticks s) as (?&?&?&?&?&?). by split_and!.
Qed.

(** X2.  [process] draws one random number for each order it appends to
    [order_history], and none otherwise: a signal that fails validation
    draws nothing, and no order is executed twice.  This holds however the
    run ends. *)
Theorem one_draw_per_recorded_order (ticks : list MarketDataPoint.t) (s : t) :
  let s' := (process ticks s).2 in
  (random_drawn s ≤ random_drawn s')%nat ∧
  (random_drawn s' - random_drawn s)%nat =
    (length (order_history s') - length (order_history s))%nat.
Proof.
  intros s'. pose proof (process_draws ticks s) as Hd.
  destruct (process_logs ticks s) as (_ & [k Hk] & _).
  fold s' in Hd, Hk. unfold draws_counted in Hd. rewrite Hk, length_app in *. lia.
Qed.

(** ** The recorded orders *)

Lemma history_store_app s refs extra :
  Forall (λ r, (r < length (store s))%nat) refs →
  omap (λ r, (store s ++ extra) !! r) refs = omap (λ r, store s !! r) refs.
Proof.
  induction 1 as [|r refs Hr _ IH]; [done|].
  cbn [omap list_omap]. rewrite lookup_app_l by done.
  destruct (store s !! r); by rewrite IH.
Qed.

Lemma status_order_of signal : Order.status (order_of signal) = NEW.
Proof. by destruct signal as [[[??]?]?]. Qed.

(** What the processing of a signal does to the recorded orders: a valid
    signal adds its order, with the status the execution gave it; an invalid
    one adds nothing. *)
Lemma process_signal_history signal s :
  history_bound s →
  let r := process_signal signal s in
  history_bound r.2 ∧
  ((∃ msg, Order.validate (order_of signal) = Raise (OrderError msg) ∧
      r.1 = Ok tt ∧ history r.2 = history s ∧
      errors r.2 = errors s ++ [OrderErrorLine msg]) ∨
   (∃ res s1, Order.validate (order_of signal) = Ok tt ∧
      executes (recorded (order_of signal) s) (length (store s)) (order_of signal) res s1 ∧
      r.1 = caught res ∧
      history r.2 =
        history s ++ [Order.set_status
                        (status_after (recorded (order_of signal) s) res
                           (order_of signal))
                        (order_of signal)] ∧
      errors r.2 = errors s ++ line_of res)).
Proof.
  intros Hb r. subst r.
  destruct (process_signal_books signal s) as [_ Hcase].
  destruct Hcase as [(msg&Hv&Hr&Hst&Hh&He&_)|(res&s1&Hv&Hex&Hr&Hst&Hh&He&_)].
  - split.
    + unfold history_bound. rewrite Hst, Hh, length_app.
      eapply Forall_impl; [exact Hb|]. simpl. lia.
    + left. exists msg. split_and!; try done.
      unfold history. rewrite Hst, Hh. by apply history_store_app.
  - split.
    + unfold history_bound. rewrite Hst, Hh, length_app.
      apply Forall_app. split.
      * eapply Forall_impl; [exact Hb|]. simpl. lia.
      * constructor; [simpl; lia|done].
    + right. exists res, s1. split_and!; try done.
      unfold history. rewrite Hst, Hh, omap_app.
      rewrite (history_store_app s _ _ Hb). f_equal.
      cbn [omap list_omap]. by rewrite lookup_app_r, Nat.sub_diag.
Qed.

Lemma length_history s : history_bound s → length (history s) = length (order_history s).
Proof.
  unfold history_bound, history. induction 1 as [|r refs Hr _ IH]; [done|].
  cbn [omap list_omap]. destruct (lookup_lt_is_Some_2 _ _ Hr) as [o ->].
  simpl. by rewrite IH.
Qed.

(** The lines a pass over the strategies logs are none of the execution. *)
Lemma logged_not_execution tick outs :
  filter is_execution_line (omap (logged tick) outs) = [].
Proof.
  induction outs as [|[l|e] outs IH]; [done|done|].
  cbn [omap list_omap logged]. by rewrite filter_cons_False by (by intros ?).
Qed.

Lemma status_count_app v s o s' :
  history s' = history s ++ [o] →
  main.status_count v s' =
    (main.status_count v s + if decide (Order.status o = v) then 1 else 0)%nat.
Proof.
  intros Hh. unfold main.status_count. rewrite Hh, filter_app, length_app.
  f_equal. rewrite filter_cons, filter_nil. by destruct (decide _).
Qed.

(** ** Loops and what they stop on *)

(** A property of the state that holds while the loop goes on, and in another
    form, which depends on the exception, where it stops. *)
Lemma for_each_outcome {A} (J : result unit → t → Prop) (body : A → M unit)
    (l : list A) :
  (∀ x s, x ∈ l → J (Ok tt) s → J (body x s).1 (body x s).2) →
  ∀ s, J (Ok tt) s → J (for_each body l s).1 (for_each body l s).2.
Proof.
  induction l as [|x l IH]; intros Hbody s Hs; [done|].
  cbn [for_each]. unfold bind.
  pose proof (Hbody x s (list_elem_of_here _ _) Hs) as Hx.
  destruct (body x s) as [[[]|e] s1]; cbn [fst snd] in *; [|done].
  apply IH; [|done]. intros y s2 Hy. apply Hbody. by right.
Qed.

Lemma process_signal_accounted signal s :
  accounted (Ok tt) s →
  accounted (process_signal signal s).1 (process_signal signal s).2.
Proof.
  intros [Hb Hacc].
  destruct (process_signal_history signal s Hb) as [Hb' Hcase].
  split; [done|].
  destruct Hcase as [(msg&_&->&Hh&He)|(res&s1&_&Hex&->&Hh&He)].
  - unfold main.status_count in *. rewrite Hh, He, filter_app, length_app. simpl.
    simpl in Hacc. lia.
  - rewrite !(status_count_app _ _ _ _ Hh), He, filter_app, length_app.
    cbn [Order.status Order.set_status]. cbn [unlogged] in Hacc.
    destruct Hex; subst;
      unformatted;
      cbn [status_after line_of caught unlogged];
      repeat match goal with
             | H : (_ <? _)%float = _ |- _ => rewrite H; clear H
             end;
      rewrite ?status_order_of; simpl; lia.
Qed.

Lemma process_tick_accounted tick s :
  accounted (Ok tt) s → accounted (process_tick tick s).1 (process_tick tick s).2.
Proof.
  intros Hs. rewrite process_tick_unfold. cbn zeta.
  assert (accounted (Ok tt) (polled tick s)) as Hpolled.
  { destruct Hs as [Hb Hacc]. split; [done|].
    change (main.status_count REJECTED (polled tick s))
      with (main.status_count REJECTED s).
    change (main.status_count ERROR (polled tick s)) with (main.status_count ERROR s).
    unfold polled. cbn [errors with_errors].
    rewrite filter_app, length_app, logged_not_execution. cbn [length unlogged] in *.
    lia. }
  pose proof (for_each_outcome accounted process_signal
                (emitted tick (strategies s) (objects s))
                (λ x s _, process_signal_accounted x s) _ Hpolled) as Hloop.
  destruct (for_each _ _ _) as [[[]|e] s2]; cbn [fst snd] in *; [|done].
  destruct (_equity_loop _ _ _) as [eq|e] eqn:Heq; cbn [fst snd]; [done|].
  by rewrite (equity_loop_raises _ _ _ _ Heq).
Qed.

Lemma process_accounted ticks s :
  accounted (Ok tt) s → accounted (process ticks s).1 (process ticks s).2.
Proof.
  intros Hs. destruct (sorted ticks) as [l|e] eqn:Hl.
  - rewrite (process_sorted _ _ _ Hl).
    apply (for_each_outcome accounted); [|done].
    intros tick s1 _. apply process_tick_accounted.
  - rewrite (process_unsorted _ _ _ Hl).
    destruct (sorted_raises _ _ Hl) as [_ ->]. done.
Qed.

(** X3.  On an engine as its constructor leaves it, whatever the
    strategies, the ticks, the failure probability and the random numbers:
    after [process], [errors] holds one [ExecutionError] line for each
    recorded order whose status is REJECTED or ERROR, but for the order the
    run stopped on when it was aborted by the [ValueError] of a message that
    could not be formatted: that order is REJECTED or ERROR and has no line.
    So when [process] returns, which is when [run_case] builds its context,
    the [errors] of the context is never less than its [rejects]. *)
Theorem execution_errors_match_statuses (strategies : list nat)
    (c p : float) (rng : nat → float) (objects : list AnyStrategy)
    (ticks : list MarketDataPoint.t) :
  let r := process ticks (__init__ strategies c p rng objects) in
  (main.status_count REJECTED r.2 + main.status_count ERROR r.2)%nat =
    (length (filter is_execution_line (errors r.2)) +
     match r.1 with Raise (ValueError _) => 1 | _ => 0 end)%nat ∧
  (r.1 = Ok tt →
   (main.rejects (main.context r.2) ≤ main.errors (main.context r.2))%nat).
Proof.
  intros r.
  assert (accounted r.1 r.2) as [_ Hacc].
  { apply (process_accounted ticks). split; [constructor|reflexivity]. }
  split; [exact Hacc|]. intros Hr. rewrite Hr in Hacc.
  cbn [main.rejects main.errors main.context unlogged] in *.
  pose proof (length_filter is_execution_line (errors r.2)). lia.
Qed.

(** The theorem on the engine of the test and three ticks. *)
Lemma execution_errors_match_statuses_witness :
  let r := process Examples.three_ticks Examples.engine in
  (main.rejects (main.context r.2) ≤ main.errors (main.context r.2))%nat.
Proof.
  apply (proj2 (execution_errors_match_statuses [0%nat] 10000 0 Examples.half
                  [Pack Examples.momentum] Examples.three_ticks)).
  vm_compute. reflexivity.
Defined.

(** The order that is left without a line: the Momentum strategy sells
    [10^4300] units with nothing held, the order is REJECTED, the message of
    the rejection cannot be formatted, and the run stops on that
    [ValueError] with nothing logged. *)
Lemma unwritten_rejection_has_no_line :
  let r := process Cases.falling (__init__ [0%nat] 10000 0 Examples.half [Pack Cases.huge]) in
  r.1 = Raise (ValueError "Exceeds the limit (4300 digits) for integer string conversion") ∧
  main.status_count REJECTED r.2 = 1%nat ∧ main.status_count ERROR r.2 = 0%nat ∧
  errors r.2 = [] ∧ length (equity_curve r.2) = 1%nat.
Proof. vm_compute. done. Qed.

(** ** Loops under an invariant *)


Lemma for_each_returned {A} (I : t → Prop) (body : A → M unit) (l : list A) :
  (∀ x s, x ∈ l → I s → (body x s).1 = Ok tt → I (body x s).2) →
  ∀ s, I s → (for_each body l s).1 = Ok tt → I (for_each body l s).2.
Proof.
  induction l as [|x l IH]; intros Hbody s Hs; [done|].
  cbn [for_each]. unfold bind.
  pose proof (Hbody x s (list_elem_of_here _ _) Hs) as Hx.
  destruct (body x s) as [[[]|e] s1]; cbn [fst snd] in *; [|done].
  apply IH; [|by apply Hx]. intros y s2 Hy. apply Hbody. by right.
Qed.

(** ** Runs in which every execution fails *)






(** With [fail_prob = 1.0] and a signal of [10^4300] units the run does not
    complete: the order is ERROR, its message cannot be formatted, and the
    run stops on that [ValueError] before the snapshot of the tick. *)
Lemma certain_failure_unwritten :
  let r := process Cases.falling
             (__init__ [0%nat] 10000 Cases.certain Examples.half [Pack Cases.huge]) in
  r.1 = Raise (ValueError "Exceeds the limit (4300 digits) for integer string conversion") ∧
  main.status_count ERROR r.2 = 1%nat ∧ errors r.2 = [] ∧
  length (equity_curve r.2) = 1%nat.
Proof. vm_compute. done. Qed.

(** ** Runs that return *)

Lemma process_signal_settled signal s :
  settled s → (process_signal signal s).1 = Ok tt → settled (process_signal signal s).2.
Proof.
  intros [Hb Hst] Hr.
  destruct (process_signal_history signal s Hb) as [Hb' Hcase].
  split; [done|].
  destruct Hcase as [(msg&_&_&->&_)|(res&s1&_&Hex&Hr'&->&_)]; [done|].
  apply Forall_app. split; [done|]. constructor; [|done].
  rewrite Hr in Hr'. cbn [Order.status Order.set_status].
  destruct Hex; subst;
    unformatted; done.
Qed.

Lemma process_tick_settled tick s :
  settled s → (process_tick tick s).1 = Ok tt → settled (process_tick tick s).2.
Proof.
  intros Hs. rewrite process_tick_unfold. cbn zeta.
  pose proof (for_each_returned settled process_signal (emitted tick (strategies s) (objects s))
                (λ x s _, process_signal_settled x s) (polled tick s) Hs) as Hrun.
  destruct (for_each _ _ _) as [[[]|e] s2]; cbn [fst snd] in *; [|done].
  destruct (_equity_loop _ _ _); [|done]. intros _. by apply Hrun.
Qed.

(** X5.  When [process] returns, no recorded order is left with status
    NEW: starting from a state in which every recorded order was settled
    (a new engine, or the state after an earlier run that returned), every
    order of [order_history] is FILLED, REJECTED or ERROR afterwards, so the
    three counts add up to the number of recorded orders. *)
Theorem completed_run_settles_orders (ticks : list MarketDataPoint.t) (s : t) :
  history_bound s →
  Forall (λ o, Order.status o ≠ NEW) (history s) →
  (process ticks s).1 = Ok tt →
  let s' := (process ticks s).2 in
  Forall (λ o, Order.status o ≠ NEW) (history s') ∧
  length (order_history s') =
    (main.status_count FILLED s' + main.status_count REJECTED s' +
     main.status_count ERROR s')%nat.
Proof.
  intros Hb Hst Hr s'.
  assert (settled s') as [Hb' Hst'].
  { subst s'. destruct (sorted ticks) as [l|e] eqn:Hl.
    2: { by rewrite (process_unsorted _ _ _ Hl) in Hr. }
    rewrite (process_sorted _ _ _ Hl) in *.
    apply (for_each_returned settled process_tick l
             (λ x s _, process_tick_settled x s) s); [by split|done]. }
  split; [done|]. rewrite <- (length_history _ Hb').
  unfold main.status_count. clear -Hst'.
  induction Hst' as [|o l Ho _ IH]; [done|].
  rewrite !filter_cons. cbn [length]. rewrite IH.
  destruct (Order.status o); try done; repeat case_decide; try done; simpl; lia.
Qed.

(** The theorem on the engine of the test, without simulated failures. *)
Lemma completed_run_settles_orders_witness :
  let s' := (process Examples.three_ticks Examples.engine).2 in
  Forall (λ o, Order.status o ≠ NEW) (history s') ∧
  length (order_history s') =
    (main.status_count FILLED s' + main.status_count REJECTED s' +
     main.status_count ERROR s')%nat.
Proof.
  apply (completed_run_settles_orders Examples.three_ticks Examples.engine).
  - constructor.
  - constructor.
  - vm_compute. reflexivity.
Defined.

(** ** Runs in which no execution fails by simulation *)

Lemma process_signal_unfailing p rng signal :
  (∀ n, (rng n <? p)%float = false) →
  preserved (kept (unfailing p rng)) (process_signal signal).
Proof.
  intros Hfail s (Hp & Hrng & Hb & Hst & Herr).
  destruct (process_signal_books signal s) as [(_&Hp'&Hrng'&_) _].
  destruct (process_signal_history signal s Hb) as [Hb' Hcase].
  unfold unfailing. rewrite Hp', Hrng'. split_and!; try done.
  - destruct Hcase as [(msg&_&_&->&_)|(res&s1&_&Hex&_&->&_)]; [done|].
    apply Forall_app. split; [done|]. constructor; [|done].
    cbn [Order.status Order.set_status].
    assert (∀ b, (random_values (recorded (order_of signal) s)
                    (random_drawn (recorded (order_of signal) s))
                  <? fail_prob (recorded (order_of signal) s))%float = b → b = false)
      as Hdraw.
    { intros b <-.
      cbn [random_values fail_prob recorded created with_order_history with_store].
      by rewrite Hp, Hrng, Hfail. }
    destruct Hex as [Ht ?| | | | | | | |e Ht Hfmt|e Ht ? ? Hfmt];
      try (by apply Hdraw in Ht);
      repeat match goal with H : ?e = OverflowError |- _ => subst e end;
      try (destruct (format_int_raises _ _ Hfmt) as [_ [? ->]]);
      cbn [status_after]; rewrite ?Ht, ?status_order_of; done.
  - destruct Hcase as [(msg&_&_&_&->)|(res&s1&_&Hex&_&_&->)].
    + apply Forall_app. split; [done|]. by constructor.
    + apply Forall_app. split; [done|].
      destruct Hex as [Ht ?| | | | | | | |e Ht Hfmt|e Ht ? ? Hfmt];
        repeat match goal with H : ?e = OverflowError |- _ => subst e end;
        try (destruct (format_int_raises _ _ Hfmt) as [_ [? ->]]);
        cbn [line_of]; try (by constructor); try (by repeat constructor).
      cbn [random_values fail_prob recorded created with_order_history with_store] in Ht.
      rewrite Hp, Hrng, Hfail in Ht. done.
Qed.

Lemma logged_strategy_lines tick outs :
  Forall (λ l, ∃ e at_, l = StrategyErrorLine e at_) (omap (logged tick) outs).
Proof.
  induction outs as [|[l|e] outs IH]; [constructor|done|].
  cbn [omap list_omap logged]. constructor; eauto.
Qed.

(** X6.  With a failure probability that no random draw falls below (0.0
    with the draws of [random.random()], which are not negative), a run on a
    new engine never fails an execution by simulation: no recorded order
    gets the status ERROR and no simulated failure is logged, however the
    run ends. *)
Theorem no_simulated_failure_without_fail_prob (strategies : list nat)
    (c p : float) (rng : nat → float) (objects : list AnyStrategy)
    (ticks : list MarketDataPoint.t) :
  (∀ n, (rng n <? p)%float = false) →
  let s' := (process ticks (__init__ strategies c p rng objects)).2 in
  Forall (λ o, Order.status o ≠ ERROR) (history s') ∧
  Forall (λ l, ∀ side qty symbol px,
            l ≠ ExecutionErrorLine (SimulatedFailure side qty symbol px)) (errors s').
Proof.
  intros Hfail s'.
  assert (unfailing p rng s') as (_&_&_&?&?); [|done].
  apply (process_preserved (kept (unfailing p rng))).
  - intros signal. by apply process_signal_unfailing.
  - intros tick s (?&?&?&?&?). unfold unfailing, polled. cbn.
    split_and!; try done. apply Forall_app. split; [done|].
    eapply Forall_impl; [apply logged_strategy_lines|].
    intros l (e & at_ & ->). done.
  - intros x s H. exact H.
  - unfold unfailing. split_and!; try done; constructor.
Qed.

(** The theorem on the engine of the test, with [fail_prob = 0.0]. *)
Lemma no_simulated_failure_without_fail_prob_witness :
  let s' := (process Examples.three_ticks Examples.engine).2 in
  Forall (λ o, Order.status o ≠ ERROR) (history s') ∧
  Forall (λ l, ∀ side qty symbol px,
            l ≠ ExecutionErrorLine (SimulatedFailure side qty symbol px)) (errors s').
Proof.
  apply (no_simulated_failure_without_fail_prob [0%nat] 10000 0
           Examples.half [Pack Examples.momentum] Examples.three_ticks).
  intros n. reflexivity.
Defined.
(** ** The last prices and the strategies after a run *)

Lemma process_tick_last_prices tick s :
  _last_prices (process_tick tick s).2 =
    <[MarketDataPoint.symbol tick := MarketDataPoint.price tick]> (_last_prices s).
Proof.
  rewrite process_tick_unfold. cbn zeta.
  destruct (signals_same_run (emitted tick (strategies s) (objects s)) (polled tick s))
    as (_ & _ & _ & Hl).
  destruct (for_each _ _ _) as [[[]|e] s2]; cbn [fst snd] in *; [|done].
  by destruct (_equity_loop _ _ _).
Qed.

Lemma last_price_of_cons symbol tick ticks :
  last_price_of symbol (tick :: ticks) =
    match last_price_of symbol ticks with
    | Some p => Some p
    | None => if decide (MarketDataPoint.symbol tick = symbol)
              then Some (MarketDataPoint.price tick) else None
    end.
Proof.
  unfold last_price_of, ticks_of. rewrite filter_cons.
  destruct (decide (MarketDataPoint.symbol tick = symbol)); [|by destruct (last _)].
  destruct (filter _ ticks) as [|t l] eqn:E; [done|].
  rewrite last_cons. by destruct (last (t :: l)).
Qed.

(** A run that returned went through the sorted ticks. *)
Lemma process_returned ticks s :
  (process ticks s).1 = Ok tt →
  ∃ l, sorted ticks = Ok l ∧ process ticks s = for_each process_tick l s.
Proof.
  destruct (sorted ticks) as [l|e] eqn:Hl.
  - intros _. exists l. split; [done|]. by apply process_sorted.
  - by rewrite (process_unsorted _ _ _ Hl).
Qed.

(** X7.  When [process] returns, the last price the engine holds for a
    symbol is the price of the last tick of that symbol in the order of the
    timestamps (the later in the input among ticks of one timestamp); for a
    symbol without a tick it is what it was before. *)
Theorem last_prices_after_run (ticks : list MarketDataPoint.t) (s : t) (symbol : string) :
  (process ticks s).1 = Ok tt →
  ∃ l, sorted ticks = Ok l ∧
    _last_prices (process ticks s).2 !! symbol =
      match last_price_of symbol l with
      | Some p => Some p
      | None => _last_prices s !! symbol
      end.
Proof.
  intros Hr. destruct (process_returned _ _ Hr) as (l & Hl & Hrun).
  exists l. split; [done|]. rewrite Hrun in *. clear Hl Hrun. revert s Hr.
  induction l as [|tick l IH]; intros s; [done|].
  cbn [for_each]. unfold bind.
  pose proof (process_tick_last_prices tick s) as Hl.
  destruct (process_tick tick s) as [[[]|e] s1]; cbn [fst snd] in *; [|done].
  intros Hr. rewrite (IH _ Hr), last_price_of_cons, Hl.
  destruct (last_price_of symbol l); [done|].
  destruct (decide (MarketDataPoint.symbol tick = symbol)) as [<-|Hne].
  - by rewrite lookup_insert_eq.
  - by rewrite lookup_insert_ne.
Qed.

(** The theorem on the engine of the test: the last of the three ticks is
    at 99. *)
Lemma last_prices_after_run_witness :
  ∃ l, sorted Examples.three_ticks = Ok l ∧
    _last_prices (process Examples.three_ticks Examples.engine).2 !! "AAPL" =
      match last_price_of "AAPL" l with
      | Some p => Some p
      | None => _last_prices Examples.engine !! "AAPL"
      end.
Proof.
  apply (last_prices_after_run Examples.three_ticks Examples.engine "AAPL").
  vm_compute. reflexivity.
Defined.

Lemma fed_cons tick ticks a : fed (tick :: ticks) a = fed ticks (advanced tick a).
Proof.
  destruct a as [S ops strat]. cbn [fed advanced feed].
  destruct (generate_signals strat tick) as [out strat'].
  cbn [snd]. by destruct (feed strat' ticks).
Qed.

Lemma fed_nil a : fed [] a = a.
Proof. by destruct a. Qed.

Lemma fed_app l1 l2 a : fed (l1 ++ l2) a = fed l2 (fed l1 a).
Proof.
  revert a. induction l1 as [|tick l1 IH]; intros a; [by rewrite fed_nil|].
  cbn [app]. by rewrite !fed_cons, IH.
Qed.

Lemma repeated_once ticks : repeated 1 ticks = ticks.
Proof.
  unfold repeated. induction ticks as [|tick ticks IH]; [done|].
  cbn [mbind list_bind replicate app] in *. by rewrite IH.
Qed.

Lemma repeated_never ticks : repeated 0 ticks = [].
Proof. unfold repeated. by induction ticks as [|tick ticks IH]. Qed.

(** The heap after the loop over ticks. *)
Lemma run_objects l : ∀ s,
  (for_each process_tick l s).1 = Ok tt →
  strategies (for_each process_tick l s).2 = strategies s ∧
  length (objects (for_each process_tick l s).2) = length (objects s) ∧
  ∀ r, objects (for_each process_tick l s).2 !! r =
         fed (repeated (registrations r (strategies s)) l) <$> objects s !! r.
Proof.
  induction l as [|tick l IH]; intros s.
  { intros _. split_and!; [done|done|]. intros r. cbn.
    destruct (objects s !! r) as [a|]; [|done]. cbn. by rewrite fed_nil. }
  cbn [for_each]. unfold bind.
  destruct (process_tick_strategies tick s) as [Hs Ho].
  destruct (process_tick tick s) as [[[]|e] s1]; cbn [fst snd] in *; [|done].
  intros Hr. destruct (IH _ Hr) as (Hs' & Hlen & Hobj).
  split_and!.
  - by rewrite Hs'.
  - by rewrite Hlen, Ho, length_heap_after.
  - intros r. rewrite Hobj, Hs, Ho, lookup_heap_after.
    destruct (objects s !! r) as [a|]; [|done]. cbn. f_equal.
    unfold repeated. cbn [mbind list_bind]. by rewrite fed_app.
Qed.

(** X8.  When [process] returns, each strategy object is in the state it
    reaches when it is fed on its own the ticks in the order of their
    timestamps, each tick as many times in a row as the object is registered
    with the engine, whatever the other strategies do or raise and whatever
    happens to the orders.  So an object registered once has seen every tick
    once, an object registered twice has seen every tick twice, and an object
    that is not registered is as it was.  The list of the registrations is as
    it was, and no object is made or lost. *)
Theorem strategies_run_alone (ticks : list MarketDataPoint.t) (s : t) :
  (process ticks s).1 = Ok tt →
  let s' := (process ticks s).2 in
  ∃ l, sorted ticks = Ok l ∧
    strategies s' = strategies s ∧
    length (objects s') = length (objects s) ∧
    (∀ r, objects s' !! r =
            fed (repeated (registrations r (strategies s)) l) <$> objects s !! r) ∧
    (∀ r, registrations r (strategies s) = 1%nat →
          objects s' !! r = fed l <$> objects s !! r) ∧
    (∀ r, registrations r (strategies s) = 0%nat → objects s' !! r = objects s !! r).
Proof.
  intros Hr s'. subst s'. destruct (process_returned _ _ Hr) as (l & Hl & Hrun).
  exists l. split; [done|]. rewrite Hrun in *.
  destruct (run_objects l s Hr) as (Hs & Hlen & Hobj). split_and!; try done.
  - intros r Hone. by rewrite Hobj, Hone, repeated_once.
  - intros r Hnone. rewrite Hobj, Hnone, repeated_never.
    destruct (objects s !! r) as [a|]; [|done]. cbn. by rewrite fed_nil.
Qed.

(** The theorem on an engine with the strategy of the test registered
    twice: the object has seen each of the three ticks twice. *)
Lemma strategies_run_alone_witness :
  let s := __init__ [0%nat; 0%nat] 10000 0 Examples.half [Pack Examples.momentum] in
  objects (process Examples.three_ticks s).2 !! 0%nat =
    Some (fed [Examples.tick 0 100; Examples.tick 0 100; Examples.tick 1 101;
               Examples.tick 1 101; Examples.tick 2 99; Examples.tick 2 99]
            (Pack Examples.momentum)).
Proof.
  intros s.
  assert ((process Examples.three_ticks s).1 = Ok tt) as Hr by (vm_compute; reflexivity).
  destruct (strategies_run_alone Examples.three_ticks s Hr)
    as (l & Hl & _ & _ & Hobj & _).
  assert (Ok l = Ok Examples.three_ticks) as Heq
    by (rewrite <- Hl; vm_compute; reflexivity).
  injection Heq as ->. exact (Hobj 0%nat).
Defined.

(** ** The order of the ticks *)

Lemma insert_by_instant_sorted t l :
  StronglySorted by_time l → StronglySorted by_time (insert_by_instant t l).
Proof.
  induction 1 as [|x l Hl IH Hx]; cbn [insert_by_instant]; [repeat constructor|].
  destruct (Z.leb_spec (datetime.instant (MarketDataPoint.timestamp t))
              (datetime.instant (MarketDataPoint.timestamp x))) as [Hle|Hgt].
  - constructor; [by constructor|]. constructor; [done|].
    eapply Forall_impl; [exact Hx|]. unfold by_time. intros; simpl in *; lia.
  - constructor; [done|]. rewrite insert_by_instant_perm. constructor; [|done].
    unfold by_time. lia.
Qed.

Lemma by_instant_sorted ticks : StronglySorted by_time (by_instant ticks).
Proof.
  induction ticks as [|t ticks IH]; [constructor|]. by apply insert_by_instant_sorted.
Qed.



(** A list in order is left as it is. *)
Lemma insert_by_instant_head t l :
  Forall (by_time t) l → insert_by_instant t l = t :: l.
Proof.
  destruct 1 as [|x l Hx _]; [done|]. cbn [insert_by_instant].
  by rewrite (proj2 (Z.leb_le _ _)).
Qed.

Lemma by_instant_fixed l : StronglySorted by_time l → by_instant l = l.
Proof.
  induction 1 as [|x l Hl IH Hx]; [done|].
  change (by_instant (x :: l)) with (insert_by_instant x (by_instant l)).
  rewrite IH. by apply insert_by_instant_head.
Qed.





(** [a <= b] on timestamps that compare. *)
Lemma in_order_by_time a b :
  in_order a b ↔
  datetime.aware (MarketDataPoint.timestamp a) =
    datetime.aware (MarketDataPoint.timestamp b) ∧ by_time a b.
Proof.
  unfold in_order, by_time, datetime.lt. case_bool_decide as Haw.
  - split.
    + intros [= Hlt]. apply Z.ltb_ge in Hlt. done.
    + intros [_ Hle]. f_equal. by apply Z.ltb_ge.
  - split; [done|]. intros [Heq _]. by destruct Haw.
Qed.


Lemma in_order_sorted l : StronglySorted in_order l → StronglySorted by_time l.
Proof.
  induction 1 as [|x l Hl IH Hx]; constructor; [done|].
  eapply Forall_impl; [exact Hx|]. intros b Hb. by apply in_order_by_time in Hb as [_ ?].
Qed.



(** Ticks that mix naive and aware timestamps are not sorted, and the run
    stops there. *)
Lemma unordered_ticks_raise :
  sorted Cases.unordered = Raise TypeError ∧
  process Cases.unordered Examples.engine = (Raise TypeError, Examples.engine).
Proof. split; reflexivity. Qed.


(** X10.  Sorting the ticks by timestamp before handing them to [process],
    as [load_market_data] does, changes nothing: the engine sorts them again
    and finds them in order.  When the timestamps do not compare, so that
    there are no sorted ticks to hand over, [process] on the ticks as they
    are raises what the sort raised and leaves the engine as it was. *)
Theorem presorted_ticks_run_alike (ticks : list MarketDataPoint.t) (s : t) :
  (∀ l, sorted ticks = Ok l → sorted l = Ok l ∧ process l s = process ticks s) ∧
  (∀ e, sorted ticks = Raise e → process ticks s = (Raise e, s)).
Proof.
  split.
  - intros l Hl. destruct (sorted_Ok _ _ Hl) as [Hc ->].
    assert (sorted (by_instant ticks) = Ok (by_instant ticks)) as H.
    { rewrite sorted_comparable.
      - f_equal. apply by_instant_fixed, by_instant_sorted.
      - eapply comparable_perm; [|exact Hc]. symmetry. apply by_instant_perm. }
    split; [done|]. by rewrite (process_sorted _ _ _ H), (process_sorted _ _ _ Hl).
  - intros e. apply process_unsorted.
Qed.

(** The theorem on ticks of two symbols handed out of order. *)
Lemma presorted_ticks_run_alike_witness :
  process [MarketDataPoint.mk (datetime.naive 0) "AAPL" 100;
           MarketDataPoint.mk (datetime.naive 1) "MSFT" 50;
           MarketDataPoint.mk (datetime.naive 2) "AAPL" 101;
           MarketDataPoint.mk (datetime.naive 3) "AAPL" 99] Examples.engine =
  process Cases.mixed Examples.engine.
Proof.
  refine (proj2 (proj1 (presorted_ticks_run_alike Cases.mixed Examples.engine) _ _)).
  vm_compute. reflexivity.
Defined.




(** ** Runs one after the other *)






(** ** Single calls *)

Lemma held_ensured k symbol s : held k (ensured symbol s) = held k s.
Proof.
  unfold held, ensured.
  destruct (OrderedDict.get symbol (positions s)) eqn:E; [done|].
  cbn [positions with_positions].
  destruct (decide (symbol = k)) as [->|Hne].
  - by rewrite get_set_eq, E.
  - by rewrite get_set_ne.
Qed.

(** X13.  [_ensure_symbol] never overwrites: afterwards the symbol has a
    position, the one it had or else an empty one added after all the
    others; every other symbol has what it had; and a second call changes
    nothing. *)
Theorem ensure_symbol_adds_only_missing (symbol : string) (s : t) :
  let s' := (_ensure_symbol symbol s).2 in
  OrderedDict.get symbol (positions s') = Some (held symbol s) ∧
  (∀ k, k ≠ symbol →
        OrderedDict.get k (positions s') = OrderedDict.get k (positions s)) ∧
  (∀ k pos, OrderedDict.get k (positions s) = Some pos →
            OrderedDict.get k (positions s') = Some pos) ∧
  positions s `prefix_of` positions s' ∧
  (_ensure_symbol symbol s').2 = s'.
Proof.
  intros s'. subst s'. unfold _ensure_symbol, modify. cbn [snd].
  split_and!.
  - apply get_ensured.
  - intros k Hne. unfold ensured.
    destruct (OrderedDict.get symbol (positions s)) eqn:E; [done|].
    cbn [positions with_positions]. by rewrite get_set_ne.
  - intros k pos Hk. unfold ensured.
    destruct (OrderedDict.get symbol (positions s)) eqn:E; [done|].
    cbn [positions with_positions]. rewrite get_set_ne; [done|]. congruence.
  - unfold ensured.
    destruct (OrderedDict.get symbol (positions s)) eqn:E; [done|].
    cbn [positions with_positions]. rewrite set_absent by done. by apply prefix_app_r.
  - unfold ensured at 1. by rewrite get_ensured.
Qed.

(** X14.  A valid SELL for more units than the engine holds of the symbol
    (none, for a symbol it never bought) is rejected unless a simulated
    failure comes first: the cash and the holdings of every symbol are as they
    were and the order is recorded with status REJECTED.  When the quantity
    has at most 4300 digits, one line is logged and the loop goes on.  When
    it has more, the message of the rejection cannot be formatted: nothing
    is logged and the [ValueError] of the conversion leaves the loop. *)
Theorem oversold_sell_is_rejected (signal : Signal) (s : t) :
  let o := order_of signal in
  Order.validate o = Ok tt →
  Order.side o = "SELL" →
  (random_values s (random_drawn s) <? fail_prob s)%float = false →
  Position.quantity (held (Order.symbol o) s) < Order.quantity o →
  let r := process_signal signal s in
  cash r.2 = cash s ∧
  (∀ symbol, held symbol r.2 = held symbol s) ∧
  store r.2 = store s ++ [Order.set_status REJECTED o] ∧
  order_history r.2 = order_history s ++ [length (store s)] ∧
  (Order.quantity o < 10 ^ Py.INT_MAX_STR_DIGITS →
   r.1 = Ok tt ∧
   errors r.2 =
     errors s ++ [ExecutionErrorLine
                    (InsufficientPosition (Order.quantity o) (Order.symbol o))]) ∧
  (10 ^ Py.INT_MAX_STR_DIGITS ≤ Order.quantity o →
   (∃ msg, r.1 = Raise (ValueError msg)) ∧ errors r.2 = errors s).
Proof.
  intros o Hv Hside Hfail Hqty r. subst r.
  pose proof (validate_Ok_quantity _ Hv) as Hpos0.
  destruct (process_signal_books signal s) as [_ Hcase]. fold o in Hcase.
  destruct Hcase as [(msg&Hv'&_)|(res&s1&_&Hex&Hr&Hst&Hh&He&_&Hc&Hpos)]; [congruence|].
  rewrite Hr, Hst, Hh, He, Hc. unfold held. rewrite Hpos. fold (held (Order.symbol o) s1).
  change (held (Order.symbol o) (recorded o s)) with (held (Order.symbol o) s) in Hex.
  assert (∀ v, cash (marked (length (store s)) v
                       (ensured (Order.symbol o) (drawn (recorded o s)))) = cash s)
    as Hcash.
  { intros v. unfold marked. cbn [cash with_store]. by rewrite cash_ensured. }
  assert (∀ v symbol,
            default (Position.mk 0 0)
              (OrderedDict.get symbol
                 (positions (marked (length (store s)) v
                               (ensured (Order.symbol o) (drawn (recorded o s)))))) =
            default (Position.mk 0 0) (OrderedDict.get symbol (positions s)))
    as Hheld.
  { intros v symbol. unfold marked. cbn [positions with_store].
    fold (held symbol (ensured (Order.symbol o) (drawn (recorded o s)))).
    by rewrite held_ensured. }
  destruct Hex as [Ht ?|e Ht Hs|c Ht Hs|c e Ht Hs|c a Ht Hs|Ht Hs Hq Hfmt|e Ht Hs Hq
                  |p Ht Hs Hq|e Ht Hfmt|e Ht Hs Hq Hfmt];
    try (cbn in Ht; congruence); try congruence;
    try (change (held (Order.symbol o) (recorded o s)) with (held (Order.symbol o) s) in *; lia).
  - cbn [caught status_after line_of]. split_and!; try done.
    intros Hbig. apply format_int_returns in Hfmt. lia.
  - destruct (format_int_raises _ _ Hfmt) as [Hbig [msg ->]].
    cbn [caught status_after line_of].
    change (random_values (recorded o s) (random_drawn (recorded o s))
            <? fail_prob (recorded o s))%float
      with (random_values s (random_drawn s) <? fail_prob s)%float.
    rewrite Hfail, app_nil_r. split_and!; try done; [lia|eauto].
Qed.

(** The theorem on a new engine asked to sell one unit. *)
Lemma oversold_sell_is_rejected_witness :
  let r := process_signal ("SELL", "AAPL", 1, 100%float) Examples.engine in
  r.1 = Ok tt ∧ cash r.2 = 10000%float ∧
  store r.2 = [Order.mk "AAPL" 1 100 "SELL" REJECTED].
Proof.
  destruct (oversold_sell_is_rejected ("SELL", "AAPL", 1, 100%float) Examples.engine)
    as (Hc & _ & Hst & _ & Hsmall & _); try reflexivity.
  split; [|split; [exact Hc|exact Hst]].
  apply Hsmall. apply Z.ltb_lt. vm_compute. reflexivity.
Defined.

(** The other case on a new engine asked to sell [10^4300] units: the order
    is REJECTED, nothing is logged and the [ValueError] leaves the loop. *)
Lemma oversold_sell_unwritten :
  let r := process_signal ("SELL", "AAPL", 10 ^ 4300, 100%float) Examples.engine in
  r.1 = Raise (ValueError "Exceeds the limit (4300 digits) for integer string conversion") ∧
  Order.status <$> store r.2 = [REJECTED] ∧ errors r.2 = [] ∧
  cash r.2 = 10000%float.
Proof. vm_compute. done. Qed.

(** X15.  A valid BUY whose cost [float(qty) * price] is more than the cash
    is rejected unless a simulated failure comes first: the loop goes on,
    the cash and the holdings of every symbol are as they were, the order is
    recorded with status REJECTED and one line is logged. *)
Theorem unaffordable_buy_is_rejected (signal : Signal) (s : t) (cost : float) :
  let o := order_of signal in
  Order.validate o = Ok tt →
  Order.side o = "BUY" →
  (random_values s (random_drawn s) <? fail_prob s)%float = false →
  Py.mul_int_float (Order.quantity o) (Order.price o) = Ok cost →
  (cash s <? cost)%float = true →
  let r := process_signal signal s in
  r.1 = Ok tt ∧ cash r.2 = cash s ∧
  (∀ symbol, held symbol r.2 = held symbol s) ∧
  store r.2 = store s ++ [Order.set_status REJECTED o] ∧
  order_history r.2 = order_history s ++ [length (store s)] ∧
  errors r.2 =
    errors s ++ [ExecutionErrorLine
                   (InsufficientCash (Order.quantity o) (Order.symbol o)
                      (Order.price o))].
Proof.
  intros o Hv Hside Hfail Hcost Hpoor r. subst r.
  destruct (process_signal_books signal s) as [_ Hcase]. fold o in Hcase.
  destruct Hcase as [(msg&Hv'&_)|(res&s1&_&Hex&Hr&Hst&Hh&He&_&Hc&Hpos)]; [congruence|].
  rewrite Hr, Hst, Hh, He, Hc. unfold held. rewrite Hpos. fold (held (Order.symbol o) s1).
  destruct Hex as [Ht ?|e Ht Hs Hm|c Ht Hs Hm Hlt|c e Ht Hs Hm Hlt|c a Ht Hs Hm Hlt
                  |Ht Hs Hq ?|e Ht Hs Hq|p Ht Hs Hq|e Ht ?|e Ht Hs Hq ?];
    try (cbn in Ht; congruence); try congruence;
    try (change (cash (recorded o s)) with (cash s) in *; congruence).
  cbn [caught status_after line_of]. split_and!; try done.
  - unfold marked. cbn [cash with_store]. by rewrite cash_ensured.
  - intros symbol. unfold marked, held. cbn [positions with_store].
    fold (held symbol (ensured (Order.symbol o) (drawn (recorded o s)))).
    by rewrite held_ensured.
Qed.

(** The theorem on a new engine with 10000 in cash asked to buy 1000 units
    at 100. *)
Lemma unaffordable_buy_is_rejected_witness :
  let r := process_signal ("BUY", "AAPL", 1000, 100%float) Examples.engine in
  r.1 = Ok tt ∧ cash r.2 = 10000%float ∧
  store r.2 = [Order.mk "AAPL" 1000 100 "BUY" REJECTED].
Proof.
  destruct (unaffordable_buy_is_rejected ("BUY", "AAPL", 1000, 100%float) Examples.engine
              100000%float) as (Hr & Hc & _ & Hst & _); try reflexivity.
  split; [exact Hr|]. split; [exact Hc|exact Hst].
Defined.

(** ** [Order.validate] *)

Lemma leb_zero_false x :
  (x <=? 0)%float = false ↔ (0 <? x)%float = true ∨ Py.ne_self x = true.
Proof.
  unfold Py.ne_self.
  rewrite FloatAxioms.leb_spec, FloatAxioms.ltb_spec, FloatAxioms.eqb_spec.
  change (Prim2SF 0) with (S754_zero false).
  unfold SFleb, SFltb, SFeqb.
  destruct (Prim2SF x) as [s|[]| |[] m e]; cbn; try (by intuition).
  rewrite Z.compare_refl. change (PosDef.Pos.compare_cont Eq m m) with (Pos.compare m m).
  rewrite Pos.compare_refl. cbn. by intuition.
Qed.

(** X16.  [Order.validate] accepts an order exactly when its quantity is
    positive, its price is positive or not a number, and its side is BUY or
    SELL: the test [price <= 0] lets a NaN price through. *)
Theorem validate_accepts (o : Order.t) :
  Order.validate o = Ok tt ↔
    0 < Order.quantity o ∧
    ((0 <? Order.price o)%float = true ∨ Py.ne_self (Order.price o) = true) ∧
    (Order.side o = "BUY" ∨ Order.side o = "SELL").
Proof.
  rewrite <- leb_zero_false. unfold Order.validate.
  destruct (Z.leb_spec (Order.quantity o) 0) as [Hq|Hq].
  { split; [done|]. lia. }
  destruct (Order.price o <=? 0)%float.
  { split; [done|]. by intros (_&?&_). }
  case_bool_decide as Hside; cbn [negb].
  - split; [|done]. intros _. split_and!; try done.
    rewrite !elem_of_cons in Hside. destruct Hside as [?|[?|?%elem_of_nil]]; auto. done.
  - split; [done|]. intros (_&_&Hs). exfalso. apply Hside.
    rewrite !elem_of_cons. tauto.
Qed.

(** ** Runs without signals *)





(** Two ticks that do not compare, on an engine without strategies: the run
    stops on the [TypeError] of the sort. *)
Lemma run_without_signals_unordered :
  process Cases.unordered (__init__ [] 10000 0 Examples.half []) =
    (Raise TypeError, __init__ [] 10000 0 Examples.half []).
Proof. reflexivity. Qed.

(** ** The recorded positions *)

Lemma keys_set {V} k (v : V) d :
  OrderedDict.keys d `prefix_of` OrderedDict.keys (OrderedDict.set k v d).
Proof.
  unfold OrderedDict.keys.
  induction d as [|[k' v'] d IH]; cbn [OrderedDict.set]; [by apply prefix_nil|].
  destruct (decide (k = k')) as [->|Hne]; [done|].
  rewrite !fmap_cons. by apply prefix_cons.
Qed.

Lemma keys_ensured symbol s : keys_grow s (ensured symbol s).
Proof.
  unfold keys_grow, ensured. destruct (OrderedDict.get _ _); [done|]. apply keys_set.
Qed.

#[local] Instance keys_grow_refl : Reflexive keys_grow.
Proof. intros s. by unfold keys_grow. Qed.

#[local] Instance keys_grow_trans : Transitive keys_grow.
Proof. intros s1 s2 s3. unfold keys_grow. by etrans. Qed.

Lemma executes_keys s order o res s' : executes s order o res s' → keys_grow s s'.
Proof.
  intros Hex.
  pose proof (keys_ensured (Order.symbol o) (drawn s)) as He.
  unfold keys_grow in *. destruct Hex; try exact He; try done.
  - cbn. apply keys_set.
  - cbn. apply keys_set.
Qed.

Lemma process_signal_keys signal : preserved keys_grow (process_signal signal).
Proof.
  intros s. destruct (process_signal_books signal s) as [_ Hcase]. unfold keys_grow.
  destruct Hcase as [(msg&_&_&_&_&_&_&_&->)|(res&s1&_&Hex&_&_&_&_&_&_&->)]; [done|].
  apply (executes_keys _ _ _ _ _ Hex).
Qed.

(** X18.  [process] never removes a position: the symbols recorded in
    [positions] before a run are still there afterwards, in the same order,
    with the new ones after them, also when a position was sold down to
    zero. *)
Theorem positions_are_never_removed (ticks : list MarketDataPoint.t) (s : t) :
  OrderedDict.keys (positions s) `prefix_of`
    OrderedDict.keys (positions (process ticks s).2).
Proof.
  apply (process_preserved keys_grow);
    [apply process_signal_keys|intros; by unfold keys_grow..].
Qed.

(** ** The ledger and the recorded orders *)

(** The processing of a signal on the ledger and on the recorded orders at
    once. *)
Lemma process_signal_ledger signal s :
  history_bound s →
  let o := order_of signal in
  let r := process_signal signal s in
  history_bound r.2 ∧
  ((history r.2 = history s ∧ cash r.2 = cash s ∧ positions r.2 = positions s) ∨
   (∃ res s1,
      executes (recorded o s) (length (store s)) o res s1 ∧
      history r.2 =
        history s ++ [Order.set_status (status_after (recorded o s) res o) o] ∧
      cash r.2 = cash s1 ∧ positions r.2 = positions s1)).
Proof.
  intros Hb o r. subst r.
  destruct (process_signal_history signal s Hb) as [Hb' _]. split; [done|].
  destruct (process_signal_books signal s) as [_ Hcase]. fold o in Hcase.
  destruct Hcase as [(msg&_&_&Hst&Hh&_&_&Hc&Hpos)|(res&s1&_&Hex&_&Hst&Hh&_&_&Hc&Hpos)].
  - left. split_and!; try done. unfold history. rewrite Hst, Hh.
    by apply history_store_app.
  - right. exists res, s1. split_and!; try done.
    unfold history. rewrite Hst, Hh, omap_app.
    rewrite (history_store_app s _ _ Hb). f_equal.
    cbn [omap list_omap]. by rewrite lookup_app_r, Nat.sub_diag.
Qed.

Lemma net_filled_snoc symbol orders o :
  net_filled symbol (orders ++ [o]) = net_filled symbol orders + moved symbol o.
Proof.
  unfold net_filled. induction orders as [|o' orders IH]; cbn [foldr app]; [lia|].
  rewrite IH. lia.
Qed.

Lemma cash_after_snoc c orders o :
  cash_after c (orders ++ [o]) = settle (cash_after c orders) o.
Proof. unfold cash_after. by rewrite foldl_app. Qed.

(** An order that is not filled moves nothing. *)
Lemma unfilled_moves_nothing v o symbol c :
  v ≠ FILLED →
  moved symbol (Order.set_status v o) = 0 ∧ settle c (Order.set_status v o) = c.
Proof.
  intros Hv. unfold moved, settle. cbn [Order.status Order.set_status].
  split; case_decide; try done. by destruct H.
Qed.

Lemma executes_reconciled s order o res s1 symbol :
  Order.status o = NEW →
  executes s order o res s1 →
  let o' := Order.set_status (status_after s res o) o in
  cash s1 = settle (cash s) o' ∧
  Position.quantity (held symbol s1) =
    Position.quantity (held symbol s) + moved symbol o'.
Proof.
  intros Hnew Hex o'. subst o'.
  assert (∀ v st, v ≠ FILLED →
            cash st = cash s → held symbol st = held symbol s →
            cash st = settle (cash s) (Order.set_status v o) ∧
            Position.quantity (held symbol st) =
              Position.quantity (held symbol s) + moved symbol (Order.set_status v o))
    as Hidle.
  { intros v st Hv Hc Hh.
    destruct (unfilled_moves_nothing v o symbol (cash s) Hv) as [-> ->].
    rewrite Hc, Hh. split; [done|lia]. }
  assert (cash (ensured (Order.symbol o) (drawn s)) = cash s) as Hce
    by (by rewrite cash_ensured).
  assert (held symbol (ensured (Order.symbol o) (drawn s)) = held symbol s) as Hhe
    by (by rewrite held_ensured).
  destruct Hex as [Ht ?|e Ht Hs Hm ->|c Ht Hs Hm Hlt|c e Ht Hs Hm Hlt Ha ->
                  |c a Ht Hs Hm Hlt Ha|Ht Hs Hq ?|e Ht Hs Hq Hm ->|p Ht Hs Hq Hm
                  |e Ht Hfmt|e Ht Hs Hq Hfmt];
    try (destruct (format_int_raises _ _ Hfmt) as [_ [? ->]]);
    cbn [status_after]; rewrite ?Ht, ?Hnew; try (by apply Hidle).
  - apply mul_int_float_value in Hm as ->.
    unfold settle, moved, signed_quantity. cbn [Order.status Order.set_status Order.side
      Order.symbol Order.quantity Order.price].
    rewrite Hs. cbn [String.eqb Ascii.eqb Bool.eqb]. rewrite decide_True by done.
    split; [done|].
    unfold held, marked, bought. cbn [positions with_store with_cash with_positions drawn
      with_random_drawn].
    destruct (decide (Order.symbol o = symbol)) as [<-|Hne].
    + rewrite get_set_eq, decide_True by done. reflexivity.
    + rewrite get_set_ne, decide_False by (done || by intros [_ ?]). lia.
  - apply mul_int_float_value in Hm as ->.
    unfold settle, moved, signed_quantity. cbn [Order.status Order.set_status Order.side
      Order.symbol Order.quantity Order.price].
    rewrite (proj2 (String.eqb_neq _ _) Hs). rewrite decide_True by done.
    split; [done|].
    unfold held, marked, sold. cbn [positions with_store with_cash with_positions drawn
      with_random_drawn].
    destruct (decide (Order.symbol o = symbol)) as [<-|Hne].
    + rewrite get_set_eq, decide_True by done. cbn. unfold held. lia.
    + rewrite get_set_ne, decide_False by (done || by intros [_ ?]). lia.
Qed.

Lemma process_signal_reconciled c0 signal :
  preserved (kept (reconciled c0)) (process_signal signal).
Proof.
  intros s (Hb & Hc & Hq).
  destruct (process_signal_ledger signal s Hb) as [Hb' Hcase].
  split; [done|].
  destruct Hcase as [(-> & -> & Hpos)|(res & s1 & Hex & -> & -> & Hpos)].
  - split; [done|]. intros symbol. unfold held. rewrite Hpos. apply Hq.
  - destruct (executes_reconciled _ _ _ _ _ (Order.symbol (order_of signal))
                (status_order_of signal) Hex) as [Hcash _].
    rewrite cash_after_snoc, <- Hc. split; [exact Hcash|].
    intros symbol. rewrite net_filled_snoc, <- Hq.
    destruct (executes_reconciled _ _ _ _ _ symbol (status_order_of signal) Hex)
      as [_ Hheld].
    unfold held in *. rewrite Hpos. exact Hheld.
Qed.

(** X19.  On a new engine, after [process] and however it ended, the
    ledger is what the recorded orders make of it.  The cash is the initial
    cash after each FILLED order of [order_history], in order, took
    [float(qty) * price] from it (a BUY) or added it (a SELL); the quantity
    held of a symbol is what the FILLED BUYs of the symbol bought less what
    its FILLED SELLs sold.  An order that is REJECTED, ERROR or left NEW
    moved nothing. *)
Theorem ledger_replays_order_history (strategies : list nat)
    (c p : float) (rng : nat → float) (objects : list AnyStrategy)
    (ticks : list MarketDataPoint.t) :
  let s' := (process ticks (__init__ strategies c p rng objects)).2 in
  cash s' = cash_after c (history s') ∧
  ∀ symbol, Position.quantity (held symbol s') = net_filled symbol (history s').
Proof.
  intros s'.
  assert (reconciled c s') as (_ & ? & ?); [|done].
  apply (process_preserved (kept (reconciled c))).
  - apply process_signal_reconciled.
  - intros tick s H. exact H.
  - intros x s H. exact H.
  - split; [constructor|]. split; [reflexivity|]. intros symbol. reflexivity.
Qed.

(** ** Every signal is dealt with *)

Lemma logged_not_order tick outs :
  filter is_order_line (omap (logged tick) outs) = [].
Proof.
  induction outs as [|[l|e] outs IH]; [done|done|].
  cbn [omap list_omap logged]. by rewrite filter_cons_False by (by intros ?).
Qed.

Lemma process_signal_handled signal s :
  signals_handled (process_signal signal s).2 = Datatypes.S (signals_handled s).
Proof.
  destruct (process_signal_books signal s) as [_ Hcase]. unfold signals_handled.
  destruct Hcase as [(msg&_&_&_&->&->&_)|(res&s1&_&Hex&_&_&->&->&_)];
    rewrite filter_app, !length_app.
  - rewrite filter_cons_True, filter_nil by done. cbn. lia.
  - assert (filter is_order_line (line_of res) = []) as ->
      by (by destruct res as [[]|[]]).
    cbn. lia.
Qed.

Lemma signals_handled_loop signals : ∀ s,
  (for_each process_signal signals s).1 = Ok tt →
  signals_handled (for_each process_signal signals s).2 =
    (signals_handled s + length signals)%nat.
Proof.
  induction signals as [|signal signals IH]; intros s; [cbn; lia|].
  cbn [for_each]. unfold bind.
  pose proof (process_signal_handled signal s) as Hone.
  destruct (process_signal signal s) as [[[]|e] s1]; cbn [fst snd] in *; [|done].
  intros Hr. rewrite (IH _ Hr), Hone. cbn. lia.
Qed.

Lemma process_tick_handled tick s :
  (process_tick tick s).1 = Ok tt →
  signals_handled (process_tick tick s).2 =
    (signals_handled s + length (emitted tick (strategies s) (objects s)))%nat.
Proof.
  rewrite process_tick_unfold. cbn zeta.
  pose proof (signals_handled_loop (emitted tick (strategies s) (objects s)) (polled tick s))
    as Hloop.
  assert (signals_handled (polled tick s) = signals_handled s) as Hpolled.
  { unfold signals_handled, polled. cbn [order_history errors with_errors with_objects
      with_last_prices]. by rewrite filter_app, logged_not_order, app_nil_r. }
  destruct (for_each _ _ _) as [[[]|e] s2]; cbn [fst snd] in *; [|done].
  destruct (_equity_loop _ _ _); [|done]. intros _. cbn [snd].
  rewrite <- Hpolled, <- Hloop by done. reflexivity.
Qed.

(** X20.  When [process] returns, every signal the strategies emitted was
    dealt with once: the orders appended to [order_history] and the
    [OrderError] lines appended to [errors] are together as many as the
    signals. *)
Theorem every_signal_is_accounted_for (ticks : list MarketDataPoint.t) (s : t) :
  (process ticks s).1 = Ok tt →
  let s' := (process ticks s).2 in
  ∃ l, sorted ticks = Ok l ∧
    (length (order_history s') + length (filter is_order_line (errors s')))%nat =
      (length (order_history s) + length (filter is_order_line (errors s)) +
       length (signals_of_run (strategies s) (objects s) l))%nat.
Proof.
  intros Hr s'. subst s'. destruct (process_returned _ _ Hr) as (l & Hl & Hrun).
  exists l. split; [done|]. rewrite Hrun in *. clear Hl Hrun. revert Hr.
  change (((for_each process_tick l s).1 = Ok tt →
           signals_handled (for_each process_tick l s).2 =
             (signals_handled s +
              length (signals_of_run (strategies s) (objects s) l))%nat)).
  revert s.
  induction l as [|tick l IH]; intros s; [cbn; lia|].
  cbn [for_each signals_of_run]. unfold bind.
  pose proof (process_tick_handled tick s) as Hone.
  destruct (process_tick_strategies tick s) as [Hstrat Hobj].
  destruct (process_tick tick s) as [[[]|e] s1]; cbn [fst snd] in *; [|done].
  intros Hr. rewrite (IH _ Hr), Hone, Hstrat, Hobj, length_app by done. lia.
Qed.

(** The theorem on the engine of the test: two signals, two orders. *)
Lemma every_signal_is_accounted_for_witness :
  let s' := (process Examples.three_ticks Examples.engine).2 in
  ∃ l, sorted Examples.three_ticks = Ok l ∧
    (length (order_history s') + length (filter is_order_line (errors s')))%nat =
      (length (order_history Examples.engine) +
       length (filter is_order_line (errors Examples.engine)) +
       length (signals_of_run (strategies Examples.engine) (objects Examples.engine)
                 l))%nat.
Proof.
  apply (every_signal_is_accounted_for Examples.three_ticks Examples.engine).
  vm_compute. reflexivity.
Defined.

(** ** Strategies on the ticks of several symbols *)

Section Mixed.
Context {S : Type} {ops : Strategy S}.
Variable symbol : string.
Variable own : S → Prop.
Hypothesis own_other : ∀ self tick,
  own self → MarketDataPoint.symbol tick ≠ symbol →
  generate_signals self tick = (Ok [], self).
Hypothesis own_kept : ∀ self tick, own self → own (generate_signals self tick).2.

(** A strategy that ignores the ticks of the other symbols does on a mixed
    sequence what it does on the ticks of its symbol alone. *)
Lemma feed_mixed ticks : ∀ self, own self →
  outputs_on symbol ticks (feed self ticks).1 = (feed self (ticks_of symbol ticks)).1 ∧
  (feed self ticks).2 = (feed self (ticks_of symbol ticks)).2 ∧
  Forall (λ p, MarketDataPoint.symbol p.1 ≠ symbol → p.2 = Ok [])
    (zip ticks (feed self ticks).1).
Proof.
  induction ticks as [|tick ticks IH]; intros self Hown; [by repeat split|].
  unfold ticks_of. rewrite filter_cons. fold (ticks_of symbol ticks).
  cbn [feed]. destruct (decide (MarketDataPoint.symbol tick = symbol)) as [Hs|Hs].
  - cbn [feed]. pose proof (own_kept self tick Hown) as Hown'.
    destruct (generate_signals self tick) as [out self']. cbn [snd] in Hown'.
    destruct (IH self' Hown') as (Ho & Hf & Hz).
    destruct (feed self' ticks) as [outs final].
    destruct (feed self' (ticks_of symbol ticks)) as [outs' final'].
    cbn [fst snd] in *. split_and!; [|done|].
    + unfold outputs_on in *. cbn [zip zip_with]. rewrite filter_cons_True by done.
      cbn [fmap list_fmap snd]. by rewrite <- Ho.
    + cbn [zip zip_with]. constructor; [done|exact Hz].
  - rewrite (own_other self tick Hown Hs).
    destruct (IH self Hown) as (Ho & Hf & Hz).
    destruct (feed self ticks) as [outs final].
    cbn [fst snd] in *. split_and!; [|done|].
    + unfold outputs_on in *. cbn [zip zip_with]. by rewrite filter_cons_False by done.
    + cbn [zip zip_with]. constructor; [done|exact Hz].
Qed.
End Mixed.

Lemma ticks_of_own symbol ticks :
  Forall (λ t, MarketDataPoint.symbol t = symbol) (ticks_of symbol ticks).
Proof.
  apply Forall_forall. intros t Ht. by apply list_elem_of_filter in Ht as [? _].
Qed.

Lemma momentum_symbol_kept (self : MomentumStrategy.t) tick :
  MomentumStrategy.symbol (generate_signals self tick).2 = MomentumStrategy.symbol self.
Proof.
  unfold generate_signals, MomentumStrategy.strategy, MomentumStrategy.generate_signals.
  repeat case_match; done.
Qed.

Lemma momentum_feed_state sym lb th qty ticks :
  0 < lb → Forall (λ t, MarketDataPoint.symbol t = sym) ticks →
  ∀ pre,
  (feed (MomentumStrategy.mk sym lb th qty
           (deque.mk (lb + 1) (lastn (Z.to_nat (lb + 1)) pre))) ticks).2 =
    MomentumStrategy.mk sym lb th qty
      (deque.mk (lb + 1)
         (lastn (Z.to_nat (lb + 1)) (pre ++ map MarketDataPoint.price ticks))).
Proof.
  intros Hlb Hticks. induction Hticks as [|tick ticks Hsym _ IH]; intros pre.
  { cbn. by rewrite app_nil_r. }
  cbn [feed]. unfold generate_signals at 1, MomentumStrategy.strategy at 1.
  rewrite (momentum_step sym lb th qty pre tick Hlb Hsym).
  specialize (IH (pre ++ [MarketDataPoint.price tick])).
  destruct (feed _ ticks) as [outs final]. cbn [snd] in *.
  rewrite IH. by rewrite <- app_assoc.
Qed.

(** X21.  A Momentum strategy built by its constructor and fed the ticks
    of several symbols: on the ticks of its symbol it emits what
    [momentum_signal] says of the prices of those ticks alone, as if the
    others were not there; on every other tick it emits nothing; and at the
    end it holds the last [lookback + 1] prices of its symbol, never more,
    with its parameters as they were given. *)
Theorem momentum_on_mixed_ticks (symbol : string) (lookback : Z) (threshold : float)
    (qty : Z) (m : MomentumStrategy.t) (ticks : list MarketDataPoint.t) :
  MomentumStrategy.__init__ symbol lookback threshold qty = Ok m →
  let prices := MarketDataPoint.price <$> ticks_of symbol ticks in
  outputs_on symbol ticks (feed m ticks).1 =
    map (λ i, Ok (momentum_signal symbol lookback threshold qty prices i))
      (seq 0 (length prices)) ∧
  Forall (λ p, MarketDataPoint.symbol p.1 ≠ symbol → p.2 = Ok [])
    (zip ticks (feed m ticks).1) ∧
  (feed m ticks).2 =
    MomentumStrategy.mk symbol lookback threshold qty
      (deque.mk (lookback + 1) (lastn (Z.to_nat (lookback + 1)) prices)).
Proof.
  intros [Hlb ->]%momentum_init prices.
  destruct (feed_mixed symbol (λ self, MomentumStrategy.symbol self = symbol)
              (λ self tick Hown Hne, momentum_other_symbol self tick
                 (eq_ind_r (λ x, MarketDataPoint.symbol tick ≠ x) Hne Hown))
              (λ self tick Hown, eq_trans (momentum_symbol_kept self tick) Hown)
              ticks
              (MomentumStrategy.mk symbol lookback threshold qty (deque.new (lookback + 1)))
              eq_refl) as (Ho & Hf & Hz).
  split_and!; [|done|].
  - rewrite Ho. subst prices. rewrite length_fmap.
    exact (momentum_feed symbol lookback threshold qty _ Hlb (ticks_of_own symbol ticks) []).
  - rewrite Hf.
    exact (momentum_feed_state symbol lookback threshold qty _ Hlb
             (ticks_of_own symbol ticks) []).
Qed.


(** The theorem on ticks of AAPL and MSFT. *)
Lemma momentum_on_mixed_ticks_witness :
  let prices := MarketDataPoint.price <$> ticks_of "AAPL" Cases.mixed in
  outputs_on "AAPL" Cases.mixed (feed Examples.momentum Cases.mixed).1 =
    map (λ i, Ok (momentum_signal "AAPL" 1 0 1 prices i)) (seq 0 (length prices)) ∧
  Forall (λ p, MarketDataPoint.symbol p.1 ≠ "AAPL" → p.2 = Ok [])
    (zip Cases.mixed (feed Examples.momentum Cases.mixed).1) ∧
  (feed Examples.momentum Cases.mixed).2 =
    MomentumStrategy.mk "AAPL" 1 0 1 (deque.mk (1 + 1) (lastn (Z.to_nat (1 + 1)) prices)).
Proof.
  exact (momentum_on_mixed_ticks "AAPL" 1 0 1 Examples.momentum Cases.mixed eq_refl).
Defined.

Section CrossoverState.
Variable fsum : list float → float.
Variables (sym : string) (fast slow qty : Z).
Hypothesis Hfast : 0 < fast.
Hypothesis Hslow : fast < slow.
Hypothesis Hmax : slow ≤ PY_SSIZE_T_MAX.

Lemma crossover_feed_state ticks :
  Forall (λ t, MarketDataPoint.symbol t = sym) ticks →
  ∀ pre,
  (feed (ops := MovingAverageCrossover.strategy fsum)
     (MovingAverageCrossover.mk sym fast slow qty
        (deque.mk slow (lastn (Z.to_nat slow) pre))
        (mac_prev fsum fast slow pre (length pre))) ticks).2 =
    let all := pre ++ map MarketDataPoint.price ticks in
    MovingAverageCrossover.mk sym fast slow qty
      (deque.mk slow (lastn (Z.to_nat slow) all))
      (mac_prev fsum fast slow all (length all)).
Proof.
  intros Hticks. induction Hticks as [|tick ticks Hsym _ IH]; intros pre.
  { cbn. by rewrite app_nil_r. }
  cbn [feed]. unfold generate_signals at 1, MovingAverageCrossover.strategy at 1.
  rewrite (crossover_step fsum sym fast slow qty Hfast Hslow Hmax pre _ tick Hsym).
  set (all := pre ++ [MarketDataPoint.price tick]).
  assert (length all = Datatypes.S (length pre)) as Hall
    by (subst all; rewrite length_app; simpl; lia).
  assert (mac_prev fsum fast slow all (length pre) = mac_prev fsum fast slow pre (length pre))
    as Hprev by (subst all; apply mac_prev_app; lia).
  specialize (IH all). rewrite Hall in IH. cbn [mac_prev] in IH. rewrite Hprev in IH.
  destruct (feed _ ticks) as [outs final]. cbn [snd] in *.
  rewrite IH. cbn zeta. subst all. by rewrite <- !app_assoc.
Qed.
End CrossoverState.

Lemma crossover_symbol_kept fsum (self : MovingAverageCrossover.t) tick :
  MovingAverageCrossover.symbol (MovingAverageCrossover.generate_signals fsum self tick).2 =
    MovingAverageCrossover.symbol self.
Proof.
  unfold MovingAverageCrossover.generate_signals. repeat case_match; done.
Qed.

(** X22.  A Moving-Average Crossover strategy built by its constructor and
    fed the ticks of several symbols: on the ticks of its symbol it emits
    what [mac_signal] says of the prices of those ticks alone; on every
    other tick it emits nothing; and at the end it holds the last [slow]
    prices of its symbol, never more, and the latest difference of the two
    averages it computed, with its parameters as they were given.  This
    holds whatever rounding the built-in [sum] applies. *)
Theorem crossover_on_mixed_ticks (fsum : list float → float) (symbol : string)
    (fast slow qty : Z) (m : MovingAverageCrossover.t)
    (ticks : list MarketDataPoint.t) :
  MovingAverageCrossover.__init__ symbol fast slow qty = Ok m →
  let prices := MarketDataPoint.price <$> ticks_of symbol ticks in
  let run := feed (ops := MovingAverageCrossover.strategy fsum) m ticks in
  outputs_on symbol ticks run.1 =
    map (λ i, Ok (mac_signal fsum symbol fast slow qty prices i))
      (seq 0 (length prices)) ∧
  Forall (λ p, MarketDataPoint.symbol p.1 ≠ symbol → p.2 = Ok []) (zip ticks run.1) ∧
  run.2 =
    MovingAverageCrossover.mk symbol fast slow qty
      (deque.mk slow (lastn (Z.to_nat slow) prices))
      (mac_prev fsum fast slow prices (length prices)).
Proof.
  intros (Hfast & Hslow & Hmax & ->)%crossover_init prices run. subst run.
  destruct (feed_mixed (ops := MovingAverageCrossover.strategy fsum) symbol
              (λ self, MovingAverageCrossover.symbol self = symbol)
              (λ self tick Hown Hne, crossover_other_symbol fsum self tick
                 (eq_ind_r (λ x, MarketDataPoint.symbol tick ≠ x) Hne Hown))
              (λ self tick Hown, eq_trans (crossover_symbol_kept fsum self tick) Hown)
              ticks
              (MovingAverageCrossover.mk symbol fast slow qty (deque.new slow) None)
              eq_refl) as (Ho & Hf & Hz).
  split_and!; [|done|].
  - rewrite Ho. subst prices. rewrite length_fmap.
    exact (crossover_feed fsum symbol fast slow qty Hfast Hslow Hmax _
             (ticks_of_own symbol ticks) []).
  - rewrite Hf.
    exact (crossover_feed_state fsum symbol fast slow qty Hfast Hslow Hmax _
             (ticks_of_own symbol ticks) []).
Qed.

(** The theorem on ticks of AAPL and MSFT, with the plain left-to-right
    sum. *)
Lemma crossover_on_mixed_ticks_witness :
  let prices := MarketDataPoint.price <$> ticks_of "AAPL" Cases.mixed in
  let run := feed (ops := MovingAverageCrossover.strategy PyList.sum_left)
               Examples.crossover Cases.mixed in
  outputs_on "AAPL" Cases.mixed run.1 =
    map (λ i, Ok (mac_signal PyList.sum_left "AAPL" 1 2 10 prices i))
      (seq 0 (length prices)) ∧
  Forall (λ p, MarketDataPoint.symbol p.1 ≠ "AAPL" → p.2 = Ok [])
    (zip Cases.mixed run.1) ∧
  run.2 =
    MovingAverageCrossover.mk "AAPL" 1 2 10
      (deque.mk 2 (lastn (Z.to_nat 2) prices))
      (mac_prev PyList.sum_left 1 2 prices (length prices)).
Proof.
  exact (crossover_on_mixed_ticks PyList.sum_left "AAPL" 1 2 10 Examples.crossover
           Cases.mixed eq_refl).
Defined.

Import reporting.


(** * [reporting.py]

    ** Comparisons of floats *)

Lemma ltb_pos_nonzero x : (0 <? x)%float = true → (x =? 0)%float = false.
Proof.
  rewrite FloatAxioms.ltb_spec, FloatAxioms.eqb_spec.
  change (Prim2SF 0) with (S754_zero false).
  unfold SFltb, SFeqb. by destruct (Prim2SF x) as [s|[]| |[] m e].
Qed.

Lemma ltb_pos_signed x : (0 <? x)%float = true → signed false (Prim2SF x).
Proof.
  rewrite FloatAxioms.ltb_spec. change (Prim2SF 0) with (S754_zero false).
  unfold SFltb. by destruct (Prim2SF x) as [s|[]| |[] m e].
Qed.

Lemma ltb_irrefl x : (x <? x)%float = false.
Proof.
  rewrite FloatAxioms.ltb_spec. unfold SFltb.
  destruct (Prim2SF x) as [[]|[]| |[] m e]; cbn; try done.
  all: rewrite Z.compare_refl;
    change (PosDef.Pos.compare_cont Eq m m) with (Pos.compare m m);
    by rewrite Pos.compare_refl.
Qed.

Lemma ltb_number x y : (x <? y)%float = true → (x =? x)%float = true.
Proof.
  rewrite FloatAxioms.ltb_spec, FloatAxioms.eqb_spec. unfold SFltb, SFeqb.
  destruct (Prim2SF x) as [[]|[]| |[] m e], (Prim2SF y) as [[]|[]| |[] m' e'];
    cbn; try done.
  all: intros _; rewrite Z.compare_refl;
    change (PosDef.Pos.compare_cont Eq m m) with (Pos.compare m m);
    by rewrite Pos.compare_refl.
Qed.

Lemma abs_number x : (x =? x)%float = true → (0 <=? abs x)%float = true.
Proof.
  rewrite FloatAxioms.eqb_spec, FloatAxioms.leb_spec, FloatAxioms.abs_spec.
  change (Prim2SF 0) with (S754_zero false).
  unfold SFeqb, SFleb. by destruct (Prim2SF x) as [[]|[]| |[] m e].
Qed.

(** ** The loops *)

Lemma change_returns prev curr : ∃ x, change prev curr = Ok x.
Proof.
  unfold change. destruct (0 <? prev)%float eqn:E; [|eauto].
  unfold Py.div_float. rewrite (ltb_pos_nonzero _ E). cbn. eauto.
Qed.

Lemma returns_loop_returns rest : ∀ prev,
  ∃ rets, returns_loop prev rest = Ok rets ∧ length rets = length rest.
Proof.
  induction rest as [|curr rest IH]; intros prev; [by exists []|].
  cbn [returns_loop]. destruct (change_returns prev curr) as [x ->].
  destruct (IH curr) as (xs & -> & Hlen). cbn. exists (x :: xs). by rewrite <- Hlen.
Qed.

Lemma drawdown_step_returns acc e :
  (acc.2 =? acc.2)%float = true →
  ∃ acc', drawdown_step acc e = Ok acc' ∧ (acc'.2 =? acc'.2)%float = true.
Proof.
  intros Hn. unfold drawdown_step.
  set (peak := Builtins.max acc.1 e).
  assert (∃ d, (if (0 <? peak)%float then Py.div_float (e - peak) peak else Ok 0%float)
               = Ok d) as [d ->].
  { destruct (0 <? peak)%float eqn:E; [|eauto].
    unfold Py.div_float. rewrite (ltb_pos_nonzero _ E). eauto. }
  cbn. eexists. split; [done|]. cbn [snd]. unfold Builtins.min.
  destruct (d <? acc.2)%float eqn:E; [|done]. by apply ltb_number in E.
Qed.

Lemma drawdown_loop_returns equities : ∀ acc,
  (acc.2 =? acc.2)%float = true →
  ∃ acc', drawdown_loop equities acc = Ok acc' ∧ (acc'.2 =? acc'.2)%float = true.
Proof.
  induction equities as [|e equities IH]; intros acc Hn; [by exists acc|].
  cbn [drawdown_loop]. destruct (drawdown_step_returns acc e Hn) as (acc1 & -> & Hn1).
  cbn. by apply IH.
Qed.

(** The parts of [compute_returns] on a curve of two points or more. *)
Lemma compute_returns_parts mean pstdev curve :
  (2 ≤ length curve)%nat →
  ∃ first rest final rets total acc,
    curve.*2 = first :: rest ∧ last (curve.*2) = Some final ∧
    returns_loop first rest = Ok rets ∧ length rets = length rest ∧
    change first final = Ok total ∧
    drawdown_loop (curve.*2) (first, 0%float) = Ok acc ∧
    (acc.2 =? acc.2)%float = true ∧
    compute_returns mean pstdev curve =
      (s ← sharpe mean pstdev rets; Ok (mk total rets s (abs acc.2))).
Proof.
  intros Hlen. unfold compute_returns.
  rewrite (proj2 (Nat.ltb_ge _ _)) by done. cbn zeta.
  destruct (curve.*2) as [|first rest] eqn:E.
  { apply (f_equal length) in E. rewrite length_fmap in E. simpl in E. lia. }
  destruct (last (first :: rest)) as [final|] eqn:El.
  2: { by apply last_None in El. }
  destruct (returns_loop_returns rest first) as (rets & Hrets & Hl).
  destruct (change_returns first final) as [total Htotal].
  destruct (drawdown_loop_returns (first :: rest) (first, 0%float) eq_refl)
    as (acc & Hacc & Hn).
  exists first, rest, final, rets, total, acc.
  split_and!; try done. rewrite Hrets, Htotal.
  unfold mbind, result_bind. cbn [rbind].
  destruct (sharpe mean pstdev rets); cbn [rbind]; [|done]. by rewrite Hacc.
Qed.

(** One periodic return for each pair of consecutive points. *)
Lemma compute_returns_periodic mean pstdev curve m :
  compute_returns mean pstdev curve = Ok m →
  length (periodic_returns m) = (length curve - 1)%nat.
Proof.
  destruct (Nat.lt_ge_cases (length curve) 2) as [Hshort|Hlong].
  { unfold compute_returns. rewrite (proj2 (Nat.ltb_lt _ _)) by done.
    intros [= <-]. cbn. lia. }
  destruct (compute_returns_parts mean pstdev curve Hlong)
    as (first & rest & final & rets & total & acc & E & _ & _ & Hl & _ & _ & _ & ->).
  apply (f_equal length) in E. rewrite length_fmap in E. cbn in E.
  destruct (sharpe mean pstdev rets); cbn; [|done]. intros [= <-]. cbn. lia.
Qed.

(** X23.  When [compute_returns] returns, it gives one periodic return for
    each pair of consecutive points of the curve: one fewer than the points,
    none for a curve of fewer than two points.  The Sharpe ratio is NaN for a
    curve of fewer than three points, and a curve of fewer than two points
    gives the default of every metric. *)
Theorem compute_returns_shape (mean pstdev : list float → result float)
    (curve : list (datetime.t * float)) (m : Metrics) :
  compute_returns mean pstdev curve = Ok m →
  length (periodic_returns m) = (length curve - 1)%nat ∧
  ((length curve < 3)%nat → sharpe_per_period m = nan) ∧
  ((length curve < 2)%nat → m = mk 0 [] nan 0).
Proof.
  destruct (Nat.lt_ge_cases (length curve) 2) as [Hshort|Hlong].
  { unfold compute_returns. rewrite (proj2 (Nat.ltb_lt _ _)) by done.
    intros [= <-]. cbn. split_and!; [lia|done|done]. }
  destruct (compute_returns_parts mean pstdev curve Hlong)
    as (first & rest & final & rets & total & acc & E & _ & _ & Hl & _ & _ & _ & ->).
  apply (f_equal length) in E. rewrite length_fmap in E. cbn in E.
  unfold sharpe. destruct (Nat.leb_spec 2 (length rets)) as [H2|H2].
  - destruct (pstdev rets) as [stdev|]; cbn; [|done].
    destruct (0 <? stdev)%float; cbn.
    + destruct (mean rets) as [mu|]; cbn; [|done].
      destruct (Py.div_float mu stdev); cbn; [|done].
      intros [= <-]. cbn. split_and!; lia.
    + intros [= <-]. cbn. split_and!; [lia|done|lia].
  - cbn. intros [= <-]. cbn. split_and!; [lia|done|lia].
Qed.

(** The theorem on a curve of three points. *)
Lemma compute_returns_shape_witness :
  ∃ m, compute_returns Cases.mean Cases.pstdev Cases.rising = Ok m ∧
       length (periodic_returns m) = 2%nat.
Proof.
  eexists. split; [reflexivity|].
  apply (compute_returns_shape Cases.mean Cases.pstdev Cases.rising). reflexivity.
Defined.

(** X24.  The maximum drawdown [compute_returns] reports is a number and
    is not negative, whatever the curve holds: zeros, negative values,
    infinities or NaN. *)
Theorem max_drawdown_is_a_nonnegative_number (mean pstdev : list float → result float)
    (curve : list (datetime.t * float)) (m : Metrics) :
  compute_returns mean pstdev curve = Ok m →
  (0 <=? max_drawdown m)%float = true.
Proof.
  destruct (Nat.lt_ge_cases (length curve) 2) as [Hshort|Hlong].
  { unfold compute_returns. rewrite (proj2 (Nat.ltb_lt _ _)) by done. by intros [= <-]. }
  destruct (compute_returns_parts mean pstdev curve Hlong)
    as (first & rest & final & rets & total & acc & _ & _ & _ & _ & _ & _ & Hn & ->).
  destruct (sharpe mean pstdev rets); cbn; [|done].
  intros [= <-]. cbn. by apply abs_number.
Qed.

(** The theorem on a curve of three points. *)
Lemma max_drawdown_is_a_nonnegative_number_witness :
  ∃ m, compute_returns Cases.mean Cases.pstdev Cases.rising = Ok m ∧
       (0 <=? max_drawdown m)%float = true.
Proof.
  eexists. split; [reflexivity|].
  apply (max_drawdown_is_a_nonnegative_number Cases.mean Cases.pstdev Cases.rising).
  reflexivity.
Defined.

(** X25.  [compute_returns] raises nothing of its own.  On every curve
    it computes the periodic returns; it then raises exactly when there are
    two of them or more and either [statistics.pstdev] raises on them, or
    [statistics.pstdev] returns a positive deviation and [statistics.mean]
    raises on them, and what it raises is what the call raised.  In every
    other case it returns: each of its three divisions is guarded by a test
    that its divisor is positive, and the first and the last point are read on
    a curve that has them. *)
Theorem compute_returns_returns (mean pstdev : list float → result float)
    (curve : list (datetime.t * float)) :
  ∃ rets,
    length rets = (length curve - 1)%nat ∧
    (∀ first rest, curve.*2 = first :: rest → returns_loop first rest = Ok rets) ∧
    (∀ m, compute_returns mean pstdev curve = Ok m → periodic_returns m = rets) ∧
    ∀ e, compute_returns mean pstdev curve = Raise e ↔
      (2 ≤ length rets)%nat ∧
      (pstdev rets = Raise e ∨
       ∃ stdev, pstdev rets = Ok stdev ∧ (0 <? stdev)%float = true ∧
                mean rets = Raise e).
Proof.
  destruct (Nat.lt_ge_cases (length curve) 2) as [Hshort|Hlong].
  { exists []. unfold compute_returns. rewrite (proj2 (Nat.ltb_lt _ _)) by done.
    split_and!.
    - cbn. lia.
    - intros first rest E. apply (f_equal length) in E.
      rewrite length_fmap in E. cbn in E. destruct rest; [done|cbn in E; lia].
    - by intros m [= <-].
    - intros e. split; [done|]. cbn. lia. }
  destruct (compute_returns_parts mean pstdev curve Hlong)
    as (first & rest & final & rets & total & acc & E & _ & Hrets & Hl & _ & _ & _ & ->).
  exists rets. split_and!.
  - apply (f_equal length) in E. rewrite length_fmap in E. cbn in E. lia.
  - intros first' rest'. rewrite E. by intros [= <- <-].
  - intros m. destruct (sharpe mean pstdev rets); cbn; [|done]. by intros [= <-].
  - intros e. unfold sharpe. destruct (Nat.leb_spec 2 (length rets)) as [H2|H2].
    2: { cbn. split; [done|]. lia. }
    destruct (pstdev rets) as [stdev|e1]; cbn.
    2: { split.
         - intros [= <-]. split; [done|]. by left.
         - intros [_ [[= <-]|(stdev & [=] & _)]]. done. }
    destruct (0 <? stdev)%float eqn:Hpos; cbn.
    2: { split; [done|]. intros [_ [[=]|(stdev' & [= <-] & Hpos' & _)]]. congruence. }
    destruct (mean rets) as [mu|e1]; cbn.
    + unfold Py.div_float. rewrite (ltb_pos_nonzero _ Hpos). cbn.
      split; [done|]. intros [_ [[=]|(stdev' & _ & _ & [=])]].
    + split.
      * intros [= <-]. split; [done|]. right. by exists stdev.
      * intros [_ [[=]|(stdev' & _ & _ & [= <-])]]. done.
Qed.

(** The theorem on a curve of three points, with a [statistics.pstdev] that
    raises: [compute_returns] raises what it raised. *)
Lemma compute_returns_returns_witness :
  compute_returns Cases.mean Cases.failing Cases.rising =
    Raise (Exception "StatisticsError").
Proof.
  destruct (compute_returns_returns Cases.mean Cases.failing Cases.rising)
    as (rets & Hlen & _ & _ & Hraise).
  apply Hraise. split; [rewrite Hlen; cbn; lia|]. left. reflexivity.
Defined.

(** ** A curve that never falls *)

Lemma never_falls_cons e rest :
  never_falls (e :: rest) →
  never_falls rest ∧ ∀ b, b ∈ rest → (b <? e)%float = false.
Proof.
  intros Hnf. split.
  - intros i j a b Hij Hi Hj.
    apply (Hnf (Datatypes.S i) (Datatypes.S j) a b); [lia|done|done].
  - intros b [j Hj]%list_elem_of_lookup.
    apply (Hnf 0%nat (Datatypes.S j) e b); [lia|done|done].
Qed.

Lemma drawdown_step_flat peak e :
  (e <? peak)%float = false →
  ∃ peak', drawdown_step (peak, 0%float) e = Ok (peak', 0%float) ∧
           (peak' = peak ∨ peak' = e).
Proof.
  intros Hge. unfold drawdown_step. cbn [fst snd].
  set (peak' := Builtins.max peak e).
  assert (peak' = peak ∨ peak' = e) as Hor
    by (subst peak'; unfold Builtins.max; destruct (peak <? e)%float; auto).
  assert ((e <? peak')%float = false) as Hge'
    by (destruct Hor as [->| ->]; [done|apply ltb_irrefl]).
  exists peak'. split; [|done].
  destruct (0 <? peak')%float eqn:E.
  - unfold Py.div_float. rewrite (ltb_pos_nonzero _ E).
    unfold mbind, result_bind. cbn [rbind]. do 2 f_equal.
    unfold Builtins.min.
    by rewrite (div_nonneg _ _ (sub_nonneg _ _ Hge') (ltb_pos_signed _ E)).
  - reflexivity.
Qed.

Lemma drawdown_loop_flat rest : ∀ (seen : list float) peak,
  peak ∈ seen →
  (∀ a b, a ∈ seen → b ∈ rest → (b <? a)%float = false) →
  never_falls rest →
  ∃ peak', drawdown_loop rest (peak, 0%float) = Ok (peak', 0%float).
Proof.
  induction rest as [|e rest IH]; intros seen peak Hin Hseen Hnf; [by exists peak|].
  cbn [drawdown_loop].
  destruct (drawdown_step_flat peak e) as (peak' & -> & Hor).
  { apply Hseen; [done|left]. }
  unfold mbind, result_bind. cbn [rbind].
  destruct (never_falls_cons _ _ Hnf) as [Hnf' He].
  apply (IH (e :: seen)); [|  |done].
  - destruct Hor as [->| ->]; [by right|left].
  - intros a b [->|Ha]%elem_of_cons Hb; [by apply He|].
    apply Hseen; [done|by right].
Qed.

(** X26.  On a curve on which no equity is below an earlier one,
    [compute_returns] reports a maximum drawdown of zero. *)
Theorem rising_curve_has_no_drawdown (mean pstdev : list float → result float)
    (curve : list (datetime.t * float)) (m : Metrics) :
  never_falls curve.*2 →
  compute_returns mean pstdev curve = Ok m →
  max_drawdown m = 0%float.
Proof.
  intros Hnf.
  destruct (Nat.lt_ge_cases (length curve) 2) as [Hshort|Hlong].
  { unfold compute_returns. rewrite (proj2 (Nat.ltb_lt _ _)) by done. by intros [= <-]. }
  destruct (compute_returns_parts mean pstdev curve Hlong)
    as (first & rest & final & rets & total & acc & E & _ & _ & _ & _ & Hacc & _ & ->).
  rewrite E in Hacc, Hnf.
  destruct (drawdown_loop_flat (first :: rest) [first] first) as [peak' Hflat];
    [left| |done|].
  { intros a b ->%list_elem_of_singleton [j Hj]%list_elem_of_lookup.
    apply (Hnf 0%nat j first b); [lia|done|done]. }
  rewrite Hflat in Hacc. injection Hacc as <-.
  destruct (sharpe mean pstdev rets); cbn; [|done]. by intros [= <-].
Qed.

(** The theorem on a curve of three points that rises. *)
Lemma rising_curve_has_no_drawdown_witness :
  ∃ m, compute_returns Cases.mean Cases.pstdev Cases.rising = Ok m ∧
       max_drawdown m = 0%float.
Proof.
  eexists. split; [reflexivity|].
  apply (rising_curve_has_no_drawdown Cases.mean Cases.pstdev Cases.rising).
  - intros i j a b Hij Hi Hj.
    destruct i as [|[|[|i]]], j as [|[|[|j]]]; try lia; try done;
      cbn in Hi, Hj; injection Hi as <-; injection Hj as <-; reflexivity.
  - reflexivity.
Defined.

(** ** [run_case] *)

Lemma run_length ticks : ∀ s,
  (for_each process_tick ticks s).1 = Ok tt →
  length (equity_curve (for_each process_tick ticks s).2) =
    (length (equity_curve s) + length ticks)%nat.
Proof.
  intros s Hr. rewrite (run_curve ticks s Hr), length_app, length_zip_with.
  rewrite length_states_after. lia.
Qed.

(** X27.  When [run_case] returns, the run of the engine returned, the
    metrics are those of its equity curve, with one periodic return fewer
    than there are ticks, and the context counts the recorded orders of the
    engine: its [rejects] are never more than its [errors], and its [fills]
    and [rejects] together never more than the recorded orders. *)
Theorem run_case_reports_the_run (mean pstdev : list float → result float)
    (ticks : list MarketDataPoint.t) (strategies : list nat)
    (cash p : float) (rng : nat → float) (objects : list AnyStrategy)
    (metrics : Metrics) (ctx : main.Context) :
  main.run_case mean pstdev ticks strategies cash p rng objects = Ok (metrics, ctx) →
  let r := process ticks (__init__ strategies cash p rng objects) in
  r.1 = Ok tt ∧
  compute_returns mean pstdev (equity_curve r.2) = Ok metrics ∧
  length (periodic_returns metrics) = (length ticks - 1)%nat ∧
  ctx = main.context r.2 ∧
  (main.rejects ctx ≤ main.errors ctx)%nat ∧
  (main.fills ctx + main.rejects ctx ≤ length (order_history r.2))%nat.
Proof.
  intros Hrun. unfold main.run_case in Hrun. cbn zeta.
  destruct (process ticks (__init__ strategies cash p rng objects)) as [[[]|e] s'] eqn:Hp;
    [|done].
  unfold mbind, result_bind in Hrun. cbn [rbind] in Hrun.
  destruct (compute_returns mean pstdev (equity_curve s')) as [m|] eqn:Hm; [|done].
  injection Hrun as <- <-. cbn [fst snd].
  set (s0 := __init__ strategies cash p rng objects) in *.
  assert (s' = (process ticks s0).2) as Hs' by (by rewrite Hp).
  assert ((process ticks s0).1 = Ok tt) as Hok by (by rewrite Hp).
  destruct (process_returned _ _ Hok) as (l & Hl & Hrun).
  assert (accounted (Ok tt) s') as [Hb Hacc].
  { rewrite Hs', <- Hok at 1. apply (process_accounted ticks).
    split; [constructor|reflexivity]. }
  split_and!; try done.
  - rewrite (compute_returns_periodic _ _ _ _ Hm), Hs', Hrun.
    rewrite Hrun in Hok. rewrite run_length by done. cbn.
    destruct (sorted_Ok _ _ Hl) as [_ ->]. by rewrite length_by_instant.
  - cbn [main.rejects main.errors main.context unlogged] in *.
    pose proof (length_filter is_execution_line (errors s')). lia.
  - cbn [main.fills main.rejects main.context].
    rewrite <- (length_history _ Hb). unfold main.status_count. clear.
    induction (history s') as [|o l IH]; [done|].
    rewrite !filter_cons. destruct (Order.status o); repeat case_decide; try done;
      cbn [length]; lia.
Qed.

(** The theorem on the engine of the test. *)
Lemma run_case_reports_the_run_witness :
  ∃ metrics ctx,
    main.run_case Cases.mean Cases.pstdev Examples.three_ticks
      [0%nat] 10000 0 Examples.half [Pack Examples.momentum] = Ok (metrics, ctx) ∧
    length (periodic_returns metrics) = 2%nat ∧
    (main.rejects ctx ≤ main.errors ctx)%nat.
Proof.
  eexists _, _. split; [vm_compute; reflexivity|].
  match goal with
  | |- length (periodic_returns ?m) = _ ∧ (main.rejects ?c ≤ _)%nat =>
      destruct (run_case_reports_the_run Cases.mean Cases.pstdev Examples.three_ticks
                  [0%nat] 10000 0 Examples.half [Pack Examples.momentum] m c)
        as (_ & _ & Hlen & _ & Hrej & _); [vm_compute; reflexivity|]
  end.
  split; [exact Hlen|exact Hrej].
Defined.
